(** * csvtoxml: timecode arithmetic, segment building and timeline writers

    A shallow embedding of the csvtoxml converter (speaker/timecode CSV to
    an NLE timeline) together with the properties of its specification.

    Layout:
    - [Py]       the fragment of the Python runtime the program relies on:
                 exceptions, [str] methods, [int()] on text, integer
                 formatting;
    - [F64]      binary64 floating point (Python [float]);
    - [Timecode] core/timecode.py;
    - [Parser]   core/parser.py;
    - [Seg]      core/segment.py;
    - [Xml]      the parsed template, as xml.etree.ElementTree gives it;
    - [Premiere] writers/premiere.py (colour labels, media files and their
                 lookup, template rate, track loop);
    - [Davinci]  writers/davinci.py (colour names, rational times, template
                 information, spine layout);
    - [Cli]      cli.py (argument parsing outcome and exit status);
    - the lemmas and theorems: first the properties of the specification,
      then further properties of the code. *)

From Stdlib Require Import ZArith NArith QArith Qround Qabs Qpower Qreduction.
From Stdlib Require Import Lia Lqa Bool List.
From Stdlib Require Import Ascii String.
From Stdlib Require Import Floats.PrimFloat Floats.SpecFloat Floats.FloatOps.
From stdpp Require Import base option list gmap.

Import ListNotations.
Local Open Scope Z_scope.

(* ===================================================================== *)
(** * The Python runtime fragment                                          *)
(* ===================================================================== *)

Module Py.

(** Exceptions the program can raise.  [CsvFormatError] is the program's
    own [ValueError] subclass; its payload is the message. *)
Inductive csv_error_msg : Type :=
| NoHeaders                               (* "CSV file is empty or has no headers" *)
| MissingHeaders (missing : list (list N)). (* f"Missing required headers: {missing}" *)

Inductive exn : Type :=
| ValueError
| OverflowError
| ZeroDivisionError
| AttributeError (attribute : string)
| AssertionError
| IndexError
| FileNotFoundError
| OSError                 (* an error of the operating system other than
                             a missing file: a directory, no permission *)
| UnicodeDecodeError
| CsvError                (* csv.Error *)
| SystemExit (status : Z)
| CsvFormatError (msg : csv_error_msg).

Inductive result (A : Type) : Type :=
| Ok (a : A)
| Raise (e : exn).
Arguments Ok {A} a.
Arguments Raise {A} e.

#[global] Instance result_ret : MRet result := @Ok.
#[global] Instance result_bind : MBind result :=
  fun A B (k : A -> result B) (r : result A) =>
    match r with
    | Ok a => k a
    | Raise e => Raise e
    end.

#[global] Instance result_fmap : FMap result :=
  fun A B (f : A -> B) (r : result A) =>
    match r with
    | Ok a => Ok (f a)
    | Raise e => Raise e
    end.

Definition is_ok {A : Type} (r : result A) : bool :=
  match r with Ok _ => true | Raise _ => false end.

(** A Python [str] is a sequence of Unicode code points. *)
Abbreviation str := (list N).

(** ASCII literals: every byte of the Rocq string is one code point. *)
Definition lit (s : string) : str :=
  List.map N_of_ascii (list_ascii_of_string s).
#[global] Arguments lit : simpl never.

Definition str_eqb (a b : str) : bool := bool_decide (a = b).

(** [str.isspace] for one code point (Unicode 14 white space, as in
    CPython's [_PyUnicode_IsWhitespace]). *)
Definition isspace (c : N) : bool :=
  ((9 <=? c) && (c <=? 13) || (28 <=? c) && (c <=? 32)
   || (c =? 133) || (c =? 160) || (c =? 5760)
   || (8192 <=? c) && (c <=? 8202)
   || (c =? 8232) || (c =? 8233) || (c =? 8239) || (c =? 8287)
   || (c =? 12288))%N.

Fixpoint lstrip (s : str) : str :=
  match s with
  | c :: r => if isspace c then lstrip r else s
  | [] => []
  end.

Definition rstrip (s : str) : str := rev (lstrip (rev s)).

(** [s.strip()] *)
Definition strip (s : str) : str := rstrip (lstrip s).

(** [s.replace(a, b)] for single characters. *)
Definition replace_char (a b : N) (s : str) : str :=
  List.map (fun c => if (c =? a)%N then b else c) s.

(** [s.split(sep)] for a single-character separator: always at least one
    piece. *)
Fixpoint str_split (sep : N) (s : str) : list str :=
  match s with
  | [] => [[]]
  | c :: r =>
      if (c =? sep)%N then [] :: str_split sep r
      else match str_split sep r with
           | p :: ps => (c :: p) :: ps
           | [] => [[c]]
           end
  end.

Fixpoint startswith (p s : str) : bool :=
  match p, s with
  | [], _ => true
  | a :: p', b :: s' => (a =? b)%N && startswith p' s'
  | _ :: _, [] => false
  end.

(** [needle in hay] (substring test). *)
Fixpoint contains (needle hay : str) : bool :=
  startswith needle hay ||
  match hay with
  | [] => false
  | _ :: r => contains needle r
  end.

(** [l[i]]: a negative index counts from the end. *)
Definition getitem {A : Type} (l : list A) (i : Z) : result A :=
  let j := if i <? 0 then i + Z.of_nat (length l) else i in
  if j <? 0 then Raise IndexError
  else match l !! Z.to_nat j with
       | Some x => Ok x
       | None => Raise IndexError
       end.

(** [str.lower] on the code points whose lower case is ASCII: the letters
    A-Z and the Kelvin sign U+212A.  Every other code point lowers to a
    string that has a non-ASCII code point or is unchanged, so comparisons
    of [s.lower()] with ASCII-only keys are decided exactly. *)
Definition lower_char (c : N) : N :=
  (if (65 <=? c) && (c <=? 90) then c + 32
   else if c =? 8490 then 107 else c)%N.
Definition lower (s : str) : str := List.map lower_char s.

(** [str.upper] on the code points whose upper case starts with an ASCII
    letter of "GAP": a-z map to A-Z.  (U+1E9A upper-cases to "A" followed
    by U+02BE, which can never continue the prefix "GAP".) *)
Definition upper_char (c : N) : N :=
  (if (97 <=? c) && (c <=? 122) then c - 32 else c)%N.
Definition upper (s : str) : str := List.map upper_char s.

(** ** [int(text)]

    CPython first maps the text to ASCII: code points below 127 are kept,
    other white space becomes a blank, other decimal digits become
    '0'..'9', anything else becomes '?'.  The table lists the code points
    of every non-ASCII digit zero of Unicode 14 (each is followed by its
    digits one to nine). *)
Definition unicode_digit_zeros : list N :=
  [1632; 1776; 1984; 2406; 2534; 2662; 2790; 2918; 3046; 3174; 3302; 3430;
   3558; 3664; 3792; 3872; 4160; 4240; 6112; 6160; 6470; 6608; 6784; 6800;
   6992; 7088; 7232; 7248; 42528; 43216; 43264; 43472; 43504; 43600; 44016;
   65296; 66720; 68912; 69734; 69872; 69942; 70096; 70384; 70736; 70864;
   71248; 71360; 71472; 71904; 72016; 72784; 73040; 73120; 92768; 92864;
   93008; 120782; 120792; 120802; 120812; 120822; 123200; 123632; 125264;
   130032]%N.

Definition unicode_decimal (c : N) : option N :=
  match List.find (fun z => (z <=? c) && (c <? z + 10))%N unicode_digit_zeros with
  | Some z => Some (c - z)%N
  | None => None
  end.

Definition to_ascii_decimal (c : N) : N :=
  (if c <? 127 then c
   else if isspace c then 32
   else match unicode_decimal c with
        | Some d => 48 + d
        | None => 63
        end)%N.

(** C's [Py_ISSPACE]. *)
Definition c_isspace (c : N) : bool := ((9 <=? c) && (c <=? 13) || (c =? 32))%N.

Definition is_digit (c : N) : bool := ((48 <=? c) && (c <=? 57))%N.

Fixpoint skip_c_space (s : str) : str :=
  match s with
  | c :: r => if c_isspace c then skip_c_space r else s
  | [] => []
  end.

(** [sys.int_info.default_max_str_digits] *)
Definition int_max_str_digits : N := 4300.

(** Digits with single underscores between them, then trailing blanks.
    [prev] tells whether the previous character was a digit; [n] counts
    the digits read. *)
Fixpoint int_body (s : str) (prev : bool) (acc : Z) (n : N) : option Z :=
  match s with
  | [] => if prev && (n <=? int_max_str_digits)%N then Some acc else None
  | c :: r =>
      if is_digit c then int_body r true (acc * 10 + Z.of_N (c - 48)) (n + 1)
      else if (c =? 95)%N then
        if prev then int_body r false acc n else None
      else
        if prev && (n <=? int_max_str_digits)%N
           && bool_decide (skip_c_space s = [])
        then Some acc else None
  end.

Definition int_of_str (s : str) : result Z :=
  let a := skip_c_space (List.map to_ascii_decimal s) in
  let '(neg, a) :=
    match a with
    | 45%N :: r => (true, r)
    | 43%N :: r => (false, r)
    | _ => (false, a)
    end in
  match int_body a false 0 0 with
  | Some v => Ok (if neg : bool then - v else v)
  | None => Raise ValueError
  end.

(** ** Integer formatting *)

Fixpoint dec_digits (fuel : nat) (n : Z) : str :=
  match fuel with
  | O => []
  | S k =>
      if n <? 10 then [(48 + Z.to_N n)%N]
      else dec_digits k (n / 10) ++ [(48 + Z.to_N (n mod 10))%N]
  end.

(** [str(n)] for [0 <= n]. *)
Definition str_of_nonneg (n : Z) : str :=
  dec_digits (S (Z.to_nat (Z.log2 n))) n.

Definition zero_pad (width : nat) (s : str) : str :=
  repeat 48%N (width - length s) ++ s.

(** [f"{n:02d}"]: sign-aware zero padding to width two. *)
Definition format_02d (n : Z) : str :=
  if n <? 0 then 45%N :: zero_pad 1 (str_of_nonneg (- n))
  else zero_pad 2 (str_of_nonneg n).

(** [str(n)] for any [int]; more than [int_max_str_digits] digits raise
    [ValueError]. *)
Definition str_of_int (n : Z) : result str :=
  let digits := str_of_nonneg (Z.abs n) in
  if (int_max_str_digits <? N.of_nat (length digits))%N then Raise ValueError
  else Ok (if n <? 0 then 45%N :: digits else digits).

End Py.

Export Py.

(* ===================================================================== *)
(** * Binary64 floating point                                              *)
(* ===================================================================== *)

(** A Python [float] is an IEEE 754 binary64 number.  A finite value is kept
    as the rational it denotes (in lowest terms); every operation computes
    the exact rational result and rounds it to the nearest representable
    value, ties to even, as the standard prescribes.  The sign of zero is
    not kept: none of the functions modelled here can observe it (they never
    divide by a zero, which Python turns into [ZeroDivisionError]). *)
Module F64.

Inductive float : Type :=
| FFin (q : Q)
| FInf (negative : bool)
| FNaN.

(** [2 ^ e] for any integer exponent. *)
Definition pow2 (e : Z) : Q := (2 ^ e)%Q.

(** [floor (log2 a)] for [0 < a]. *)
Definition ilog2 (a : Q) : Z :=
  let l := Z.log2 (Qnum a) - Z.log2 (Zpos (Qden a)) in
  if Qle_bool (pow2 l) a then l else l - 1.

(** Nearest integer, ties to the even one. *)
Definition round_half_even (q : Q) : Z :=
  let f := Qfloor q in
  match (q - inject_Z f ?= 1 # 2)%Q with
  | Lt => f
  | Gt => f + 1
  | Eq => if Z.even f then f else f + 1
  end.

Definition qneg (q : Q) : bool := Qnum q <? 0.
Definition qzero (q : Q) : bool := Qnum q =? 0.

(** Rounding of an exact result to binary64: 53 significant bits, the
    exponent of the last place at least -1074, overflow to infinity from
    [2 ^ 1024] on. *)
Definition rnd (x : Q) : float :=
  if qzero x then FFin 0
  else
    let a := Qabs x in
    let e := Z.max (ilog2 a - 52) (-1074) in
    let m := round_half_even (a / pow2 e) in
    let v := (inject_Z m * pow2 e)%Q in
    if Qle_bool (pow2 1024) v then FInf (qneg x)
    else FFin (Qred (if qneg x then - v else v)).

Definition is_zero (x : float) : bool :=
  match x with FFin q => qzero q | _ => false end.

(** [x < 0] *)
Definition is_neg (x : float) : bool :=
  match x with FFin q => qneg q | FInf s => s | FNaN => false end.

Definition fneg (x : float) : float :=
  match x with
  | FFin q => FFin (Qred (- q))
  | FInf s => FInf (negb s)
  | FNaN => FNaN
  end.

Definition fadd (x y : float) : float :=
  match x, y with
  | FNaN, _ | _, FNaN => FNaN
  | FInf a, FInf b => if Bool.eqb a b then FInf a else FNaN
  | FInf a, FFin _ => FInf a
  | FFin _, FInf b => FInf b
  | FFin a, FFin b => rnd (a + b)
  end.

Definition fsub (x y : float) : float := fadd x (fneg y).

Definition fmul (x y : float) : float :=
  match x, y with
  | FNaN, _ | _, FNaN => FNaN
  | FInf a, FInf b => FInf (xorb a b)
  | FInf a, FFin q | FFin q, FInf a =>
      if qzero q then FNaN else FInf (xorb a (qneg q))
  | FFin a, FFin b => rnd (a * b)
  end.

(** Division by a non-zero divisor (callers test the divisor first, as
    CPython does). *)
Definition fdiv (x y : float) : float :=
  match x, y with
  | FNaN, _ | _, FNaN => FNaN
  | FInf _, FInf _ => FNaN
  | FInf a, FFin q => FInf (xorb a (qneg q))
  | FFin _, FInf _ => FFin 0
  | FFin a, FFin b => if qzero b then FNaN else rnd (a / b)
  end.

(** Truncation towards zero. *)
Definition qtrunc (q : Q) : Z := if qneg q then Qceiling q else Qfloor q.

(** C's [fmod]: exact, with the sign of the dividend. *)
Definition fmod (x y : float) : float :=
  match x, y with
  | FNaN, _ | _, FNaN => FNaN
  | FInf _, _ => FNaN
  | FFin a, FInf _ => FFin a
  | FFin a, FFin b =>
      if qzero b then FNaN
      else FFin (Qred (a - b * inject_Z (qtrunc (a / b))))
  end.

(** C's [floor]: exact on binary64. *)
Definition ffloor (x : float) : float :=
  match x with
  | FFin q => FFin (inject_Z (Qfloor q))
  | _ => x
  end.

(** [x > y] *)
Definition fgt (x y : float) : bool :=
  match x, y with
  | FNaN, _ | _, FNaN => false
  | FInf a, FInf b => negb a && b
  | FInf a, FFin _ => negb a
  | FFin _, FInf b => b
  | FFin a, FFin b => negb (Qle_bool a b)
  end.

(** ** The Python operations *)

(** [float(n)] for an [int]: correctly rounded, [OverflowError] when out
    of range. *)
Definition float_of_int (n : Z) : result float :=
  match rnd (inject_Z n) with
  | FInf _ => Raise OverflowError
  | f => Ok f
  end.

(** [round(x)] with one argument. *)
Definition py_round (x : float) : result Z :=
  match x with
  | FFin q => Ok (round_half_even q)
  | FInf _ => Raise OverflowError
  | FNaN => Raise ValueError
  end.

(** [int(x)] for a float. *)
Definition int_of_float (x : float) : result Z :=
  match x with
  | FFin q => Ok (qtrunc q)
  | FInf _ => Raise OverflowError
  | FNaN => Raise ValueError
  end.

(** [x / y] *)
Definition truediv (x y : float) : result float :=
  if is_zero y then Raise ZeroDivisionError else Ok (fdiv x y).

(** [x % y] (CPython's [float_rem]). *)
Definition float_rem (vx wx : float) : result float :=
  if is_zero wx then Raise ZeroDivisionError
  else
    let md := fmod vx wx in
    Ok (if negb (is_zero md) then
          if negb (Bool.eqb (is_neg wx) (is_neg md)) then fadd md wx else md
        else FFin 0).

(** [x // y] (CPython's [_float_div_mod], quotient part). *)
Definition float_floor_div (vx wx : float) : result float :=
  if is_zero wx then Raise ZeroDivisionError
  else
    let md := fmod vx wx in
    let dv := fdiv (fsub vx md) wx in
    let dv :=
      if negb (is_zero md) && negb (Bool.eqb (is_neg wx) (is_neg md))
      then fsub dv (FFin 1) else dv in
    Ok (if negb (is_zero dv) then
          let fl := ffloor dv in
          if fgt (fsub dv fl) (FFin (1 # 2)) then fadd fl (FFin 1) else fl
        else FFin 0).

(** ** The hardware's floats

    The same number as a primitive binary64 float of the kernel, used to
    compare the operations above with the machine's arithmetic. *)
Definition of_prim (x : PrimFloat.float) : float :=
  match Prim2SF x with
  | S754_zero _ => FFin 0
  | S754_infinity s => FInf s
  | S754_nan => FNaN
  | S754_finite s m e =>
      FFin (Qred ((if s then - 1 else 1) * inject_Z (Zpos m) * pow2 e))
  end.

(** [abs(x)] *)
Definition fabs (x : float) : float :=
  match x with
  | FFin q => FFin (Qabs q)
  | FInf _ => FInf false
  | FNaN => FNaN
  end.

(** [x < y] *)
Definition flt (x y : float) : bool := fgt y x.

(** A decimal literal of the source text, [num / den] in exact terms: the
    nearest binary64 value. *)
Definition float_literal (num : Z) (den : positive) : float := rnd (num # den).

End F64.

Export F64.

(* ===================================================================== *)
(** * core/timecode.py                                                     *)
(* ===================================================================== *)

Module Timecode.

(** [(hours * 3600 + minutes * 60 + seconds) * fps + frames], then
    [int(round(...))]. *)
Definition total_frames (hours minutes seconds frames : Z) (fps : float)
  : result Z :=
  secs ← float_of_int (hours * 3600 + minutes * 60 + seconds);
  fr ← float_of_int frames;
  py_round (fadd (fmul secs fps) fr).

Definition timecode_to_frames (timecode : str) (fps : float) : result Z :=
  if bool_decide (timecode = []) || bool_decide (strip timecode = [])
  then Ok 0
  else
    let parts := str_split 58 (replace_char 59 58 timecode) in
    match parts with
    | [p0; p1; p2; p3] =>
        hours ← int_of_str p0; minutes ← int_of_str p1;
        seconds ← int_of_str p2; frames ← int_of_str p3;
        total_frames hours minutes seconds frames fps
    | [p0; p1; p2] =>
        minutes ← int_of_str p0; seconds ← int_of_str p1;
        frames ← int_of_str p2;
        total_frames 0 minutes seconds frames fps
    | [p0; p1] =>
        seconds ← int_of_str p0; frames ← int_of_str p1;
        total_frames 0 0 seconds frames fps
    | _ => Ok 0
    end.

Definition frames_to_timecode (frames : Z) (fps : float) : result str :=
  fr ← float_of_int frames;
  total_seconds ← truediv fr fps;
  h ← float_floor_div total_seconds (FFin 3600);
  hours ← int_of_float h;
  m0 ← float_rem total_seconds (FFin 3600);
  m ← float_floor_div m0 (FFin 60);
  minutes ← int_of_float m;
  s ← float_rem total_seconds (FFin 60);
  seconds ← int_of_float s;
  whole ← int_of_float total_seconds;
  whole_f ← float_of_int whole;
  remaining_frames ← py_round (fmul (fsub total_seconds whole_f) fps);
  Ok (format_02d hours ++ [58%N] ++ format_02d minutes ++ [58%N]
      ++ format_02d seconds ++ [58%N] ++ format_02d remaining_frames).

(** [timebase * 1000.0 / 1001.0] when NTSC, else [float(timebase)]. *)
Definition get_fps_from_rate (timebase : Z) (ntsc : bool) : result float :=
  tb ← float_of_int timebase;
  if ntsc then truediv (fmul tb (FFin 1000)) (FFin 1001) else Ok tb.

End Timecode.

Export Timecode.

(* ===================================================================== *)
(** * core/parser.py                                                       *)
(* ===================================================================== *)

Module Parser.

(** The required headers: "Speaker Name" and the Japanese column titles
    for in-point, out-point, transcript and colour selection, written as
    code points. *)
Definition H_SPEAKER : str := lit "Speaker Name".
Definition H_IN : str := [12452; 12531; 28857]%N.
Definition H_OUT : str := [12450; 12454; 12488; 28857]%N.
Definition H_TEXT : str := [25991; 23383; 36215; 12371; 12375]%N.
Definition H_COLOR : str := [33394; 36984; 25246]%N.

Definition TARGET_HEADERS : list str :=
  [H_SPEAKER; H_IN; H_OUT; H_TEXT; H_COLOR].

Record CsvRow : Type := mkCsvRow {
  speaker : str;
  in_timecode : str;
  out_timecode : str;
  transcript : str;
  color : str
}.

#[global] Instance CsvRow_eq_dec : EqDecision CsvRow.
Proof. solve_decision. Defined.

(** [self.color.upper().startswith("GAP") if self.color else False] *)
Definition is_gap (row : CsvRow) : bool :=
  if bool_decide (color row = []) then false
  else startswith (lit "GAP") (upper (color row)).

(** [color.split("_", 1)[1]]: what follows the first underscore. *)
Fixpoint after_underscore (s : str) : option str :=
  match s with
  | [] => None
  | c :: r => if (c =? 95)%N then Some r else after_underscore r
  end.

Definition gap_label (row : CsvRow) : option str :=
  if negb (is_gap row) then None
  else match after_underscore (color row) with
       | Some l => Some l
       | None => Some (color row)
       end.

(** What reading the opened file gives.  [csv.DictReader] takes its
    records from [csv.reader], one [next()] at a time, and the reader takes
    its lines from the text file, which decodes them as UTF-8 (dropping a
    byte order mark).  [records] are the records that come out, the header
    first, and [failure] tells how the reading ends after them: at the end
    of the text, or with the exception of the decoder, of the csv
    tokeniser or of the operating system.  The decoding and the tokenising
    themselves (quotes, delimiter, line ends) are the library's. *)
Inductive read_failure : Type :=
| NotUtf8              (* UnicodeDecodeError *)
| CsvSyntax            (* csv.Error *)
| ReadFails.           (* OSError *)

Definition read_exn (e : read_failure) : exn :=
  match e with
  | NotUtf8 => UnicodeDecodeError
  | CsvSyntax => CsvError
  | ReadFails => OSError
  end.

Record csv_file : Type := mkCsvFile {
  records : list (list str);
  failure : option read_failure
}.

(** The file system at a path, by what [Path.exists] and [Path.open] do
    there: [exists()] is false; [exists()] raises (a directory on the way
    that may not be searched); [exists()] is true and [open()] raises (a
    directory, a file that may not be read); the file opens.  The file
    system is taken not to change while the program runs. *)
Inductive path_state : Type :=
| Missing
| Inaccessible
| Unopenable
| Opened (f : csv_file).

(** The dict [DictReader] yields for one record: the named fields
    ([None] is the rest value of a header without a field) and the fields
    beyond the header, kept under the rest key. *)
Record raw_row : Type := mkRaw {
  named : gmap str (option str);
  extra : list str
}.

Definition dict_row (fieldnames row : list str) : raw_row :=
  let zipped :=
    fold_left (fun d kv => <[fst kv := Some (snd kv)]> d)
              (combine fieldnames row) (∅ : gmap str (option str)) in
  {| named := fold_left (fun d k => <[k := None]> d)
                        (drop (length row) fieldnames) zipped;
     extra := drop (length fieldnames) row |}.

(** [not raw] *)
Definition raw_is_empty (raw : raw_row) : bool :=
  bool_decide (named raw = ∅) && bool_decide (extra raw = []).

(** [(raw.get(key) or "").strip()] *)
Definition field (raw : raw_row) (key : str) : str :=
  strip (match named raw !! key with
         | Some (Some v) => v
         | _ => []
         end).

(** The body of the loop over the reader: [None] when the record is
    skipped. *)
Definition parse_record (raw : raw_row) : option CsvRow :=
  if raw_is_empty raw then None
  else
    let speaker := field raw H_SPEAKER in
    let in_tc := field raw H_IN in
    let out_tc := field raw H_OUT in
    let text := field raw H_TEXT in
    let color := field raw H_COLOR in
    if bool_decide (in_tc = []) && bool_decide (out_tc = [])
       && bool_decide (color = [])
    then None
    else Some (mkCsvRow speaker in_tc out_tc text color).

Definition missing_headers (fieldnames : list str) : list str :=
  List.filter (fun h => negb (bool_decide (h ∈ fieldnames))) TARGET_HEADERS.

(** The end of the reader's records: [StopIteration], or the exception
    the reading fails with. *)
Definition at_end {A : Type} (failure : option read_failure) (done : result A)
  : result A :=
  match failure with
  | None => done
  | Some e => Raise (read_exn e)
  end.

(** [for raw in reader]: [DictReader] passes over the records without any
    field and makes a dict of each other one; the loop body appends a row
    or goes on. *)
Fixpoint read_rows (fieldnames : list str) (records : list (list str))
    (failure : option read_failure) (rows : list CsvRow)
  : result (list CsvRow) :=
  match records with
  | [] => at_end failure (Ok rows)
  | record :: rest =>
      if bool_decide (record = []) then read_rows fieldnames rest failure rows
      else
        match parse_record (dict_row fieldnames record) with
        | Some row => read_rows fieldnames rest failure (rows ++ [row])
        | None => read_rows fieldnames rest failure rows
        end
  end.

Definition parse_csv (csv_path : path_state) : result (list CsvRow) :=
  match csv_path with
  | Missing => Raise FileNotFoundError
  | Inaccessible => Raise OSError
  | Unopenable => Raise OSError
  | Opened f =>
      match records f with
      | [] =>
          (* [reader.fieldnames] is None when [next(reader)] stops *)
          at_end (failure f) (Raise (CsvFormatError NoHeaders))
      | fieldnames :: data =>
          match missing_headers fieldnames with
          | [] => read_rows fieldnames data (failure f) []
          | missing => Raise (CsvFormatError (MissingHeaders missing))
          end
      end
  end.

End Parser.

Export Parser.

(* ===================================================================== *)
(** * core/segment.py                                                      *)
(* ===================================================================== *)

Module Seg.

Record Segment : Type := mkSegment {
  kind : str;                    (* "block" or "gap" *)
  start_frames : Z;
  end_frames : Z;
  seg_color : option str;
  seg_transcript : option str;
  raw_rows : list CsvRow
}.

#[global] Instance Segment_eq_dec : EqDecision Segment.
Proof. solve_decision. Defined.

Definition duration_frames (s : Segment) : Z :=
  Z.max 0 (end_frames s - start_frames s).

Definition seg_is_gap (s : Segment) : bool :=
  bool_decide (kind s = lit "gap").

Definition seg_gap_label (s : Segment) : option str :=
  match seg_color s with
  | Some c =>
      if negb (seg_is_gap s) || bool_decide (c = []) then None
      else match after_underscore c with
           | Some l => Some l
           | None => Some c
           end
  | None => None
  end.

(** Values an attribute of a [Segment] can hold. *)
Inductive pyobj : Type :=
| PNone
| PBool (b : bool)
| PInt (n : Z)
| PStr (s : str)
| PRows (rows : list CsvRow).

Definition of_opt_str (o : option str) : pyobj :=
  match o with Some s => PStr s | None => PNone end.

(** Attribute lookup on a [Segment]: the six dataclass fields and the
    three properties; any other name raises [AttributeError]. *)
Definition getattr (s : Segment) (name : string) : result pyobj :=
  if String.eqb name "kind" then Ok (PStr (kind s))
  else if String.eqb name "start_frames" then Ok (PInt (start_frames s))
  else if String.eqb name "end_frames" then Ok (PInt (end_frames s))
  else if String.eqb name "color" then Ok (of_opt_str (seg_color s))
  else if String.eqb name "transcript" then Ok (of_opt_str (seg_transcript s))
  else if String.eqb name "raw_rows" then Ok (PRows (raw_rows s))
  else if String.eqb name "duration_frames" then Ok (PInt (duration_frames s))
  else if String.eqb name "is_gap" then Ok (PBool (seg_is_gap s))
  else if String.eqb name "gap_label" then Ok (of_opt_str (seg_gap_label s))
  else Raise (AttributeError name).

(** A warning is the text [f"{w_text}: {w_row}"]. *)
Record warning : Type := mkWarning {
  w_text : string;
  w_row : CsvRow
}.

(** The local variables of [build_segments]. *)
Record state : Type := mkState {
  segments : list Segment;
  warnings : list warning;
  current_color : option str;
  current_block : option Segment
}.

Definition init : state := mkState [] [] None None.

Definition warn (st : state) (text : string) (row : CsvRow) : state :=
  mkState (segments st) (warnings st ++ [mkWarning text row])
          (current_color st) (current_block st).

Definition emit (st : state) (s : Segment) : state :=
  mkState (segments st ++ [s]) (warnings st)
          (current_color st) (current_block st).

(** Lines 70-73: save the open block, if any. *)
Definition close_block (st : state) : state :=
  match current_block st with
  | Some b => mkState (segments st ++ [b]) (warnings st) None None
  | None => st
  end.

Definition gap_segment (row : CsvRow) (start end_ : Z) : Segment :=
  mkSegment (lit "gap") start end_ (Some (color row))
            (Some (transcript row)) [row].

Definition block_segment (row : CsvRow) (in_frames out_frames : Z) : Segment :=
  mkSegment (lit "block") in_frames out_frames (Some (color row))
            (Some (transcript row)) [row].

(** [current_block.end_frames = out_frames; current_block.raw_rows.append(row)] *)
Definition extend (b : Segment) (row : CsvRow) (out_frames : Z) : Segment :=
  mkSegment (kind b) (start_frames b) out_frames (seg_color b)
            (seg_transcript b) (raw_rows b ++ [row]).

Definition missing (s : str) : bool := bool_decide (s = []).

(** One iteration of the loop over the rows. *)
Definition step (fps : float) (st : state) (row : CsvRow) : result state :=
  let color := color row in
  if is_gap row then
    let st := close_block st in
    if missing (in_timecode row) || missing (out_timecode row) then
      Ok (warn st "GAP row missing timecodes" row)
    else
      start ← timecode_to_frames (in_timecode row) fps;
      end_ ← timecode_to_frames (out_timecode row) fps;
      if end_ <=? start then Ok (warn st "GAP out point <= in point" row)
      else Ok (emit st (gap_segment row start end_))
  else if missing (in_timecode row) || missing (out_timecode row)
          || missing color then
    Ok (warn st "Block row missing required fields" row)
  else
    in_frames ← timecode_to_frames (in_timecode row) fps;
    out_frames ← timecode_to_frames (out_timecode row) fps;
    if out_frames <=? in_frames then Ok (warn st "Out point <= in point" row)
    else if negb (bool_decide (current_color st = Some color)) then
      let segs := match current_block st with
                  | Some b => segments st ++ [b]
                  | None => segments st
                  end in
      Ok (mkState segs (warnings st) (Some color)
                  (Some (block_segment row in_frames out_frames)))
    else
      match current_block st with
      | None => Raise AssertionError
      | Some b =>
          Ok (mkState (segments st) (warnings st) (current_color st)
                      (Some (extend b row out_frames)))
      end.

Fixpoint run (fps : float) (st : state) (rows : list CsvRow) : result state :=
  match rows with
  | [] => Ok st
  | row :: rest => st' ← step fps st row; run fps st' rest
  end.

(** Lines 131-135: flush the last block and return. *)
Definition finish (st : state) : list Segment * list warning :=
  (match current_block st with
   | Some b => segments st ++ [b]
   | None => segments st
   end, warnings st).

Definition build_segments (rows : list CsvRow) (fps : float)
  : result (list Segment * list warning) :=
  st ← run fps init rows; Ok (finish st).

End Seg.

Export Seg.

(* ===================================================================== *)
(** * The parsed template (xml.etree.ElementTree)                          *)
(* ===================================================================== *)

Module Xml.

(** An [Element]: tag, attributes, text (None when the element holds no
    character data) and children in document order. *)
#[local] Set Warnings "-register-all".
Inductive element : Type :=
| Element (tag : str) (attrib : list (str * str)) (text : option str)
          (children : list element).

Definition tag (e : element) : str :=
  match e with Element t _ _ _ => t end.
Definition attrib (e : element) : list (str * str) :=
  match e with Element _ a _ _ => a end.
Definition text (e : element) : option str :=
  match e with Element _ _ x _ => x end.
Definition children (e : element) : list element :=
  match e with Element _ _ _ c => c end.

(** [elem.find(name)] for a plain tag name: the first child of that tag. *)
Definition find (name : str) (e : element) : option element :=
  List.find (fun c => bool_decide (tag c = name)) (children e).

(** [elem.findall(name)] for a plain tag name: the children of that tag. *)
Definition findall (name : str) (e : element) : list element :=
  List.filter (fun c => bool_decide (tag c = name)) (children e).

(** [elem.get(key)] *)
Definition get (key : str) (e : element) : option str :=
  match List.find (fun kv => bool_decide (fst kv = key)) (attrib e) with
  | Some kv => Some (snd kv)
  | None => None
  end.

(** The elements below [e] in document order ([e.iter()] without [e]). *)
Fixpoint descendants (e : element) : list element :=
  match e with
  | Element _ _ _ cs =>
      (fix below (l : list element) : list element :=
         match l with
         | [] => []
         | c :: rest => c :: descendants c ++ below rest
         end) cs
  end.

(** [elem.findall(".//" + name)] *)
Definition findall_below (name : str) (e : element) : list element :=
  List.filter (fun c => bool_decide (tag c = name)) (descendants e).

(** The text of an element that was found and whose text is not empty
    ([x is not None and x.text]). *)
Definition truthy_text (o : option element) : option str :=
  match o with
  | Some e => match text e with
              | Some (c :: t) => Some (c :: t)
              | _ => None
              end
  | None => None
  end.

End Xml.

(* ===================================================================== *)
(** * writers/premiere.py                                                  *)
(* ===================================================================== *)

Module Premiere.

Definition VALID_LABELS : list str :=
  List.map lit
    ["Violet"; "Rose"; "Mango"; "Yellow"; "Lavender"; "Caribbean";
     "Tan"; "Forest"; "Blue"; "Purple"; "Teal"; "Brown"; "Gray";
     "Iris"; "Cerulean"; "Magenta"]%string.

Definition LEGACY_COLOR_MAP : gmap str str :=
  list_to_map
    (List.map (fun kv => (lit (fst kv), lit (snd kv)))
       [("rose", "Rose"); ("pink", "Rose"); ("cyan", "Caribbean");
        ("blue", "Blue"); ("mint", "Mango"); ("green", "Forest");
        ("yellow", "Yellow"); ("orange", "Mango"); ("red", "Rose");
        ("purple", "Purple"); ("brown", "Brown"); ("gray", "Gray");
        ("lavender", "Lavender"); ("tan", "Tan"); ("teal", "Teal");
        ("magenta", "Magenta"); ("violet", "Violet"); ("forest", "Forest");
        ("iris", "Iris"); ("cerulean", "Cerulean");
        ("caribbean", "Caribbean"); ("mango", "Mango")]%string).

Definition color_to_premiere_label (color : str) : str :=
  if bool_decide (color = []) || bool_decide (strip color = [])
  then lit "Caribbean"
  else if bool_decide (color ∈ VALID_LABELS) then color
  else default (lit "Caribbean") (LEGACY_COLOR_MAP !! lower color).

(** A media file info dict, by the keys the writer reads. *)
Record media_file : Type := mkMedia {
  mf_name : option str;
  mf_file_id : option str;
  mf_masterclipid : option str
}.

(** [mf.get("name", "")] *)
Definition name_or_empty (mf : media_file) : str := default [] (mf_name mf).

(** Lines 70-101.  [lower] stands for [str.lower] on arbitrary text
    (Unicode case mapping), which the case-insensitive pass applies to
    both names. *)
Definition find_media_file (lower : str -> str)
    (media_files : list media_file)
    (file_name : option str) (track_idx : Z) : result media_file :=
  let by_index :=
    getitem media_files
            (Z.min track_idx (Z.of_nat (length media_files) - 1)) in
  match file_name with
  | Some (c :: n) =>
      let file_name := c :: n in
      match List.find (fun mf => bool_decide (mf_name mf = Some file_name))
                      media_files with
      | Some mf => Ok mf
      | None =>
          let file_name_lower := lower file_name in
          match List.find (fun mf => bool_decide
                             (lower (name_or_empty mf) = file_name_lower))
                          media_files with
          | Some mf => Ok mf
          | None =>
              match List.find (fun mf => contains file_name (name_or_empty mf))
                              media_files with
              | Some mf => Ok mf
              | None => by_index
              end
          end
      end
  | _ => by_index
  end.

Definition PPRO_TICKS_PER_SECOND : Z := 254016000000.

(** core/timecode.py: [int((frames / fps) * PPRO_TICKS_PER_SECOND)] *)
Definition frames_to_ppro_ticks (frames : Z) (fps : float) : result Z :=
  fr ← float_of_int frames;
  seconds ← truediv fr fps;
  ticks ← float_of_int PPRO_TICKS_PER_SECOND;
  int_of_float (fmul seconds ticks).

(** A value read from the media file, or the text built from the track
    number when the key is absent. *)
Inductive track_text : Type :=
| FromFile (s : str)
| TrackDefault (track_number : nat).

(** The children of a generated clip item that the loop overwrites; the
    rest of the element is the clone of the track's first template clip. *)
Record clipitem : Type := mkClip {
  ci_id : Z;                       (* "clipitem-<n>" *)
  ci_masterclipid : track_text;
  ci_name : track_text;
  ci_start : Z;
  ci_end : Z;
  ci_in : Z;
  ci_out : Z;
  ci_ticks_in : Z;
  ci_ticks_out : Z;
  ci_file_id : option str;
  ci_file_body : bool;             (* the file's subtree is copied in *)
  ci_source_channel : option Z;    (* audio clips only *)
  ci_label : str
}.

(** The variables the track loops update. *)
Record wstate : Type := mkW {
  timeline_position : Z;
  next_clip_num : Z;
  max_timeline_end : Z;
  used_file_ids : gset str;
  clips : list clipitem
}.

Definition as_file_name (o : pyobj) : option str :=
  match o with PStr s => Some s | _ => None end.

Definition text_or (o : option str) (track_idx : nat) : track_text :=
  match o with Some s => FromFile s | None => TrackDefault (track_idx + 1) end.

(** The timing children of a clip: start, end, in, out. *)
Definition clip_times (timeline_position : Z) (seg : Segment) : Z * Z * Z * Z :=
  (timeline_position, timeline_position + duration_frames seg,
   start_frames seg, start_frames seg + duration_frames seg).

(** The body of [for seg in segments] (lines 362-429 for a video track,
    457-533 for an audio track, which adds the source channel). *)
Definition clip_step (lower : str -> str) (gap_frames : Z) (fps : float)
    (media_files : list media_file) (track_idx : nat)
    (source_channel : option Z) (st : wstate) (seg : Segment)
  : result wstate :=
  if seg_is_gap seg then
    Ok (mkW (timeline_position st + duration_frames seg) (next_clip_num st)
            (max_timeline_end st) (used_file_ids st) (clips st))
  else
    let pos := timeline_position st + gap_frames in
    let start_frames := start_frames seg in
    let duration_frames := duration_frames seg in
    file_name ← getattr seg "file_name";
    file_info ← find_media_file lower media_files (as_file_name file_name)
                  (Z.of_nat track_idx);
    let '(c_start, c_end, c_in, c_out) := clip_times pos seg in
    ticks_in ← frames_to_ppro_ticks start_frames fps;
    ticks_out ← frames_to_ppro_ticks (start_frames + duration_frames) fps;
    let file_id :=
      match mf_file_id file_info with
      | Some (c :: i) => Some (c :: i)
      | _ => None
      end in
    let fresh :=
      match file_id with
      | Some i => bool_decide (i ∉ used_file_ids st)
      | None => false
      end in
    let used :=
      match file_id with
      | Some i => {[ i ]} ∪ used_file_ids st
      | None => used_file_ids st
      end in
    let clip :=
      mkClip (next_clip_num st)
             (text_or (mf_masterclipid file_info) track_idx)
             (text_or (mf_name file_info) track_idx)
             c_start c_end c_in c_out ticks_in ticks_out
             file_id fresh source_channel
             (color_to_premiere_label (default [] (seg_color seg))) in
    let pos := pos + duration_frames in
    Ok (mkW pos (next_clip_num st + 1)
            (Z.max (max_timeline_end st) pos) used (clips st ++ [clip])).

Fixpoint track_loop (lower : str -> str) (gap_frames : Z) (fps : float)
    (media_files : list media_file) (track_idx : nat)
    (source_channel : option Z) (st : wstate) (segs : list Segment)
  : result wstate :=
  match segs with
  | [] => Ok st
  | seg :: rest =>
      st' ← clip_step lower gap_frames fps media_files track_idx
              source_channel st seg;
      track_loop lower gap_frames fps media_files track_idx source_channel
                 st' rest
  end.

(** A track of the written document.  A template track without a
    [clipitem] child is copied as it is, with everything below it (lines
    346-352).  Any other template track is built anew: its attributes, the
    clip items generated for the segments, then copies of its children
    other than clip items (lines 354-436). *)
Inductive track : Type :=
| Copied (template_track : Xml.element)
| Rebuilt (template_track : Xml.element) (generated : list clipitem).

(** One pass over the template tracks of a medium.  Every rebuilt track
    restarts the cursor at 0. *)
Fixpoint tracks_loop (lower : str -> str) (audio : bool) (gap_frames : Z)
    (fps : float) (media_files : list media_file) (segs : list Segment)
    (track_idx : nat) (tracks : list Xml.element) (st : wstate)
    (out : list track)
  : result (wstate * list track) :=
  match tracks with
  | [] => Ok (st, out)
  | template_track :: rest =>
      match Xml.findall (lit "clipitem") template_track with
      | [] =>
          tracks_loop lower audio gap_frames fps media_files segs
                      (S track_idx) rest st (out ++ [Copied template_track])
      | default_clipitem :: _ =>
          let channel :=
            if audio then Some (if Nat.even track_idx then 1 else 2)
            else None in
          st' ← track_loop lower gap_frames fps media_files track_idx channel
                  (mkW 0 (next_clip_num st) (max_timeline_end st)
                       (used_file_ids st) [])
                  segs;
          tracks_loop lower audio gap_frames fps media_files segs
                      (S track_idx) rest st'
                      (out ++ [Rebuilt template_track (clips st')])
      end
  end.

(** What the writer reads from the template project, once it is parsed.
    (The template path is given as [None] when nothing exists there.) *)
Record template : Type := mkTemplate {
  t_media_files : list media_file;   (* extract_media_files *)
  t_has_sequence : bool;
  t_timebase : Z;                    (* 30 when the rate block is absent *)
  t_ntsc : bool;                     (* True when absent *)
  t_max_clip_num : Z;                (* highest "clipitem-<n>" *)
  t_video_tracks : list Xml.element; (* template_video.findall("track") *)
  t_audio_tracks : list Xml.element  (* template_audio.findall("track") *)
}.

Record xmeml : Type := mkXmeml {
  x_duration : Z;
  x_video : list track;
  x_audio : list track
}.

(** Lines 225-557.  [write_xml] stands for the last step (lines 552-554):
    the document is serialised by [_prettify_xml] and written to the
    output path, with what that raises.  The function returns the path of
    the file; the model returns the document written there. *)
Definition generate_premiere_xml (lower : str -> str)
    (csv_path : path_state) (template_xml : option template)
    (write_xml : xmeml -> result unit) (gap_seconds : float)
  : result xmeml :=
  match csv_path, template_xml with
  | Missing, _ => Raise FileNotFoundError
  | Inaccessible, _ => Raise OSError
  | _, None => Raise FileNotFoundError
  | _, Some t =>
      if bool_decide (t_media_files t = []) then Raise ValueError
      else if negb (t_has_sequence t) then Raise ValueError
      else
        fps ← get_fps_from_rate (t_timebase t) (t_ntsc t);
        gap_frames ← py_round (fmul fps gap_seconds);
        rows ← parse_csv csv_path;
        built ← build_segments rows fps;
        let segs := fst built in
        v ← tracks_loop lower false gap_frames fps (t_media_files t) segs 0
              (t_video_tracks t)
              (mkW 0 (t_max_clip_num t + 1) 0 ∅ []) [];
        a ← tracks_loop lower true gap_frames fps (t_media_files t) segs 0
              (t_audio_tracks t) (fst v) [];
        let doc := mkXmeml (max_timeline_end (fst a)) (snd v) (snd a) in
        _ ← write_xml doc;
        Ok doc
  end.

(** Lines 245-261: the rate of the template's sequence, 30 and NTSC where
    the template does not say.  ([str.upper] is compared with "TRUE": no
    code point outside a-z has an upper case made of the letters of
    "TRUE", so [Py.upper] decides the comparison exactly.) *)
Definition template_rate (template_root : Xml.element) : result (Z * bool) :=
  match Xml.find (lit "sequence") template_root with
  | None => Raise ValueError
  | Some template_sequence =>
      match Xml.find (lit "rate") template_sequence with
      | None => Ok (30, true)
      | Some template_rate =>
          timebase ←
            match Xml.truthy_text (Xml.find (lit "timebase") template_rate) with
            | Some tb => int_of_str tb
            | None => Ok 30
            end;
          let ntsc :=
            match Xml.truthy_text (Xml.find (lit "ntsc") template_rate) with
            | Some n => bool_decide (upper (strip n) = lit "TRUE")
            | None => true
            end in
          Ok (timebase, ntsc)
      end
  end.

(** Line 263. *)
Definition template_fps (template_root : Xml.element) : result float :=
  rate ← template_rate template_root;
  get_fps_from_rate (fst rate) (snd rate).

(** A media file info dict of [extract_media_files], with every key it
    can hold. *)
Record file_info : Type := mkFileInfo {
  fi_name : str;
  fi_pathurl : option str;
  fi_element : Xml.element;
  fi_source_duration : option Z;
  fi_file_id : option str;
  fi_masterclipid : option str
}.

(** The keys the writer reads later. *)
Definition as_media_file (fi : file_info) : media_file :=
  mkMedia (Some (fi_name fi)) (fi_file_id fi) (fi_masterclipid fi).

(** The body of the loop over the clip items (lines 150-199).  Two library
    calls are left open: [find_file_by_id i] stands for
    [root.find(f".//media/file[@id='{i}']")], with what it returns or
    raises, and [isdigit] for [str.isdigit]. *)
Definition extract_step
    (find_file_by_id : str -> result (option Xml.element))
    (isdigit : str -> bool)
    (acc : list file_info * gset str) (clipitem : Xml.element)
  : result (list file_info * gset str) :=
  let '(media_files, seen_names) := acc in
  match Xml.find (lit "file") clipitem with
  | None => Ok acc
  | Some file_elem =>
      let name_elem := Xml.find (lit "name") file_elem in
      let pathurl_elem := Xml.find (lit "pathurl") file_elem in
      let file_id := Xml.get (lit "id") file_elem in
      full_file_elem ←
        match file_id with
        | Some (c :: i) =>
            found ← find_file_by_id (c :: i);
            Ok (default file_elem found)
        | _ => Ok file_elem
        end;
      let name_elem :=
        match name_elem with
        | None => Xml.find (lit "name") full_file_elem
        | Some e => Some e
        end in
      let pathurl_elem :=
        match pathurl_elem with
        | None => Xml.find (lit "pathurl") full_file_elem
        | Some e => Some e
        end in
      match name_elem, pathurl_elem with
      | Some name_elem, Some pathurl_elem =>
          match Xml.text name_elem with
          | None => Ok acc
          | Some name =>
              if bool_decide (name ∈ seen_names) then Ok acc
              else
                source_duration ←
                  match Xml.truthy_text
                          (Xml.find (lit "duration") full_file_elem) with
                  | Some d =>
                      if isdigit d then Some <$> int_of_str d else Ok None
                  | None => Ok None
                  end;
                let file_id :=
                  match file_id with
                  | None => Xml.get (lit "id") full_file_elem
                  | Some i => Some i
                  end in
                let file_id :=
                  match file_id with
                  | Some (c :: i) => Some (c :: i)
                  | _ => None
                  end in
                let masterclipid :=
                  Xml.truthy_text (Xml.find (lit "masterclipid") clipitem) in
                Ok (media_files
                    ++ [mkFileInfo name (Xml.text pathurl_elem) full_file_elem
                                   source_duration file_id masterclipid],
                    {[ name ]} ∪ seen_names)
          end
      | _, _ => Ok acc
      end
  end.

Fixpoint extract_loop
    (find_file_by_id : str -> result (option Xml.element))
    (isdigit : str -> bool)
    (acc : list file_info * gset str) (clipitems : list Xml.element)
  : result (list file_info * gset str) :=
  match clipitems with
  | [] => Ok acc
  | clipitem :: rest =>
      acc' ← extract_step find_file_by_id isdigit acc clipitem;
      extract_loop find_file_by_id isdigit acc' rest
  end.

(** Lines 135-201, on the parsed template. *)
Definition extract_media_files
    (find_file_by_id : str -> result (option Xml.element))
    (isdigit : str -> bool) (root : Xml.element) : result (list file_info) :=
  fst <$> extract_loop find_file_by_id isdigit ([], ∅)
            (Xml.findall_below (lit "clipitem") root).

End Premiere.

Export Premiere.

(* ===================================================================== *)
(** * writers/davinci.py                                                   *)
(* ===================================================================== *)

Module Davinci.

Definition DAVINCI_COLORS : list str :=
  List.map lit
    ["orange"; "yellow"; "green"; "cyan"; "blue"; "purple"; "pink"; "red";
     "maroon"; "rose"; "lavender"; "sand"; "sepia"; "mint"; "olive";
     "violet"; "peach"]%string.

Definition PREMIERE_TO_DAVINCI : gmap str str :=
  list_to_map
    (List.map (fun kv => (lit (fst kv), lit (snd kv)))
       [("Violet", "violet"); ("Rose", "rose"); ("Mango", "orange");
        ("Yellow", "yellow"); ("Lavender", "lavender");
        ("Caribbean", "cyan"); ("Tan", "sand"); ("Forest", "green");
        ("Blue", "blue"); ("Purple", "purple"); ("Teal", "cyan");
        ("Brown", "sepia"); ("Gray", "sand"); ("Iris", "violet");
        ("Cerulean", "blue"); ("Magenta", "pink")]%string).

Definition COLOR_TO_DAVINCI : gmap str str :=
  list_to_map
    (List.map (fun kv => (lit (fst kv), lit (snd kv)))
       [("violet", "violet"); ("rose", "rose"); ("pink", "pink");
        ("cyan", "cyan"); ("blue", "blue"); ("mint", "mint");
        ("green", "green"); ("yellow", "yellow"); ("orange", "orange");
        ("red", "red"); ("purple", "purple"); ("brown", "sepia");
        ("gray", "sand"); ("lavender", "lavender"); ("tan", "sand");
        ("teal", "cyan"); ("magenta", "pink"); ("forest", "green");
        ("iris", "violet"); ("cerulean", "blue"); ("caribbean", "cyan");
        ("mango", "orange"); ("peach", "peach"); ("olive", "olive");
        ("maroon", "maroon"); ("sand", "sand"); ("sepia", "sepia")]%string).

Definition color_to_davinci (color : str) : str :=
  if bool_decide (color = []) || bool_decide (strip color = [])
  then lit "blue"
  else
    match PREMIERE_TO_DAVINCI !! color with
    | Some c => c
    | None =>
        let color_lower := lower color in
        match COLOR_TO_DAVINCI !! color_lower with
        | Some c => c
        | None =>
            if bool_decide (color_lower ∈ DAVINCI_COLORS) then color_lower
            else lit "blue"
        end
    end.

(** An entry of [timeline_positions]. *)
Record pos_info : Type := mkPos {
  p_start : Z;
  p_duration : Z;
  p_source_start : Z;
  p_color : option str
}.

(** Lines 215-231: the cursor and the list of positions. *)
Fixpoint layout (gap_frames : Z) (segs : list Segment)
    (timeline_position : Z) (timeline_positions : list pos_info)
  : list pos_info * Z :=
  match segs with
  | [] => (timeline_positions, timeline_position)
  | seg :: rest =>
      if seg_is_gap seg then
        layout gap_frames rest (timeline_position + duration_frames seg)
               timeline_positions
      else
        let pos := timeline_position + gap_frames in
        layout gap_frames rest (pos + duration_frames seg)
               (timeline_positions
                ++ [mkPos pos (duration_frames seg) (start_frames seg)
                          (seg_color seg)])
  end.

(** The children of the spine.  Durations and starts are frame counts;
    the document holds their [_frames_to_rational] text. *)
Inductive spine_elem : Type :=
| SGap (duration : Z)
| SClip (clip_index : nat) (duration : Z) (start : Z) (keyword : str).

(** Lines 285-331.  [prev] is [timeline_positions[clip_index - 2]], absent
    for the first clip. *)
Fixpoint spine_from (prev : option pos_info) (clip_index : nat)
    (positions : list pos_info) : list spine_elem :=
  match positions with
  | [] => []
  | p :: rest =>
      let gap :=
        match prev with
        | None => if 0 <? p_start p then [SGap (p_start p)] else []
        | Some q =>
            let gap_duration := p_start p - (p_start q + p_duration q) in
            if 0 <? gap_duration then [SGap gap_duration] else []
        end in
      gap ++ SClip clip_index (p_duration p) (p_source_start p)
                   (color_to_davinci (default [] (p_color p)))
          :: spine_from (Some p) (S clip_index) rest
  end.

(** What [extract_media_info] reads from the template (timebase 24 and
    no NTSC when the rate block is absent). *)
Record media_info : Type := mkInfo {
  timebase : Z;
  ntsc : bool
}.

Record fcpxml : Type := mkFcpxml {
  sequence_duration : Z;
  asset_duration : Z;
  spine : list spine_elem
}.

Definition generate_davinci_xml (csv_path : path_state)
    (template_xml : option media_info) (gap_seconds : float) : result fcpxml :=
  match csv_path, template_xml with
  | Missing, _ => Raise FileNotFoundError
  | Inaccessible, _ => Raise OSError
  | _, None => Raise FileNotFoundError
  | _, Some info =>
      fps ← get_fps_from_rate (timebase info) (ntsc info);
      gap_frames ← py_round (fmul fps gap_seconds);
      rows ← parse_csv csv_path;
      built ← build_segments rows fps;
      let '(timeline_positions, total_duration) :=
        layout gap_frames (fst built) 0 [] in
      Ok (mkFcpxml total_duration (total_duration + 10000)
                   (spine_from None 1 timeline_positions))
  end.

(** [abs(fps - rate) < 0.01] *)
Definition near_rate (fps rate : float) : bool :=
  flt (fabs (fsub fps rate)) (float_literal 1 100).

(** Lines 102-125: the FCPXML rational time of a frame count. *)
Definition _frames_to_rational (frames : Z) (fps : float) : result str :=
  if near_rate fps (float_literal 23976 1000) then
    num ← str_of_int (frames * 1001); Ok (num ++ lit "/24000s")
  else if near_rate fps (float_literal 2997 100) then
    num ← str_of_int (frames * 1001); Ok (num ++ lit "/30000s")
  else if near_rate fps (float_literal 5994 100) then
    num ← str_of_int (frames * 1001); Ok (num ++ lit "/60000s")
  else
    timebase ← py_round fps;
    num ← str_of_int frames;
    den ← str_of_int timebase;
    Ok (num ++ lit "/" ++ den ++ lit "s").

(** The dict [extract_media_info] returns. *)
Record media_info_dict : Type := mkInfoDict {
  i_timebase : Z;
  i_ntsc : bool;
  i_media_name : str;
  i_fps : float
}.

(** Lines 128-163, on the parsed template and the stem of its path. *)
Definition extract_media_info (root : Xml.element) (stem : str)
  : result media_info_dict :=
  info ←
    match Xml.find (lit "sequence") root with
    | None => Ok (24, false, stem)
    | Some sequence =>
        rate ←
          match Xml.find (lit "rate") sequence with
          | None => Ok (24, false)
          | Some rate =>
              tb ←
                match Xml.truthy_text (Xml.find (lit "timebase") rate) with
                | Some t => int_of_str t
                | None => Ok 24
                end;
              let ntsc :=
                match Xml.truthy_text (Xml.find (lit "ntsc") rate) with
                | Some n => bool_decide (upper (strip n) = lit "TRUE")
                | None => false
                end in
              Ok (tb, ntsc)
          end;
        let name :=
          match Xml.truthy_text (Xml.find (lit "name") sequence) with
          | Some n => n
          | None => stem
          end in
        Ok (fst rate, snd rate, name)
    end;
  let '(timebase, ntsc, media_name) := info in
  fps ← get_fps_from_rate timebase ntsc;
  Ok (mkInfoDict timebase ntsc media_name fps).

End Davinci.

Export Davinci.

(* ===================================================================== *)
(** * cli.py                                                               *)
(* ===================================================================== *)

Module Cli.

(** The choices of [--format]. *)
Inductive output_format : Type :=
| FormatPremiere
| FormatDavinci.

(** The namespace [parse_args] returns, as far as [main] uses it: the two
    paths with what is found there, the output path by what writing the
    document to it does, the format and the gap. *)
Record args : Type := mkArgs {
  csv_file : path_state;
  template_xml : option template;
  output : xmeml -> result unit;
  format : output_format;
  gap : float
}.

(** What [parser.parse_args()] does with the command line (line 56): it
    prints the usage and leaves with status 2, prints the help or the
    version and leaves with status 0, or returns the namespace. *)
Inductive command_line : Type :=
| UsageError
| HelpOrVersion
| Parsed (a : args).

(** Lines 56-86.  The result is the status [main] returns; the
    [SystemExit] of the argument parser and the exception of the first
    [exists()] are outside the [try] and go through.  What is printed is
    left out. *)
Definition main (lower : str -> str) (argv : command_line) : result Z :=
  match argv with
  | UsageError => Raise (SystemExit 2)
  | HelpOrVersion => Raise (SystemExit 0)
  | Parsed a =>
      match csv_file a with
      | Missing => Ok 1
      | Inaccessible => Raise OSError
      | _ =>
          match template_xml a with
          | None => Ok 1
          | Some _ =>
              match format a with
              | FormatPremiere =>
                  match generate_premiere_xml lower (csv_file a)
                          (template_xml a) (output a) (gap a) with
                  | Ok _ => Ok 0
                  | Raise _ => Ok 1
                  end
              | FormatDavinci => Ok 1
              end
          end
      end
  end.

End Cli.

(* ===================================================================== *)
(** * Scenarios used by the examples                                       *)
(* ===================================================================== *)

Module Scenario.

Definition row (speaker_ color_ in_ out_ : string) : CsvRow :=
  mkCsvRow (lit speaker_) (lit in_) (lit out_) (lit "text") (lit color_).

Definition record (speaker_ color_ in_ out_ : string) : list str :=
  [lit speaker_; lit in_; lit out_; lit "text"; lit color_].

(** Two Violet rows, a Rose row and a GAP row, one after the other. *)
Definition violet_violet_rose : list CsvRow :=
  [row "Tamaru" "Violet" "00:00:00:00" "00:00:05:00";
   row "Tamaru" "Violet" "00:00:05:00" "00:00:10:00";
   row "Tamaru" "Rose" "00:00:10:00" "00:00:15:00"].

Definition end_to_end_csv : path_state :=
  Opened (mkCsvFile
    [TARGET_HEADERS;
     record "Tamaru" "Violet" "00:00:00:00" "00:00:05:00";
     record "Tamaru" "Violet" "00:00:05:00" "00:00:10:00";
     record "Nakajima" "Rose" "00:00:10:00" "00:00:15:00";
     record "" "GAP_1" "00:00:15:00" "00:00:17:00"] None).

(** Two rows of one colour, the second one earlier in the source than
    the first. *)
Definition out_of_order : list CsvRow :=
  [row "Tamaru" "Violet" "00:00:10:00" "00:00:15:00";
   row "Tamaru" "Violet" "00:00:00:00" "00:00:02:00"].

Definition out_of_order_csv : path_state :=
  Opened (mkCsvFile
    [TARGET_HEADERS;
     record "Tamaru" "Violet" "00:00:10:00" "00:00:15:00";
     record "Tamaru" "Violet" "00:00:00:00" "00:00:02:00"] None).

(** A file whose bytes are not UTF-8 (a CSV saved as Shift-JIS): the
    decoder raises before the reader has a record. *)
Definition shift_jis_csv : path_state := Opened (mkCsvFile [] (Some NotUtf8)).

(** A file without any record, not even a header. *)
Definition empty_csv : path_state := Opened (mkCsvFile [] None).

(** A template track with one clip item, and one without any. *)
Definition populated_track : Xml.element :=
  Xml.Element (lit "track") [] None
    [Xml.Element (lit "clipitem") [(lit "id", lit "clipitem-1")] None [];
     Xml.Element (lit "enabled") [] (Some (lit "TRUE")) []].

Definition bare_track : Xml.element :=
  Xml.Element (lit "track") [] None
    [Xml.Element (lit "enabled") [] (Some (lit "TRUE")) []].

Definition two_file_template : template :=
  mkTemplate [mkMedia (Some (lit "A.mov")) (Some (lit "file-1")) None;
              mkMedia (Some (lit "B.mov")) (Some (lit "file-2")) None]
             true 30 false 2 [populated_track; populated_track]
             [populated_track; bare_track].

(** [str.lower] on the names of the examples, which are ASCII. *)
Definition ascii_lower : str -> str := lower.

(** Writing the document to a path that can be written. *)
Definition writable (doc : xmeml) : result unit := Ok tt.

Definition inverted_block : Segment :=
  mkSegment (lit "block") 300 60 (Some (lit "Violet")) (Some (lit "text")) [].

(** A template whose sequence has a rate block, and one whose sequence
    has none. *)
Definition leaf (name text_ : string) : Xml.element :=
  Xml.Element (lit name) [] (Some (lit text_)) [].

Definition template_with_rate (timebase_ ntsc_ : string) : Xml.element :=
  Xml.Element (lit "xmeml") [] None
    [Xml.Element (lit "sequence") [] None
       [leaf "name" "Interview";
        Xml.Element (lit "rate") [] None
          [leaf "timebase" timebase_; leaf "ntsc" ntsc_]]].

Definition template_without_rate : Xml.element :=
  Xml.Element (lit "xmeml") [] None
    [Xml.Element (lit "sequence") [] None [leaf "name" "Interview"]].

(** A template with three clip items on two files; the second clip item
    names its file by reference only. *)
Definition media_template : Xml.element :=
  Xml.Element (lit "xmeml") [] None
    [Xml.Element (lit "clipitem") [] None
       [Xml.Element (lit "file") [(lit "id", lit "file-1")] None
          [leaf "name" "A.mov"; leaf "pathurl" "file:///A.mov";
           leaf "duration" "900"];
        leaf "masterclipid" "masterclip-1"];
     Xml.Element (lit "clipitem") [] None
       [Xml.Element (lit "file") [(lit "id", lit "file-1")] None []];
     Xml.Element (lit "clipitem") [] None
       [Xml.Element (lit "file") [(lit "id", lit "file-2")] None
          [leaf "name" "B.mov"; leaf "pathurl" "file:///B.mov"]]].

(** The lookup by id in a template that keeps no file under a [media]
    element, and a digit test for ASCII text. *)
Definition no_media_file (file_id : str) : result (option Xml.element) :=
  Ok None.

Definition ascii_isdigit (s : str) : bool :=
  negb (bool_decide (s = [])) && forallb is_digit s.

End Scenario.

(* ===================================================================== *)
(** * Notions used in the statements                                       *)
(* ===================================================================== *)

(** ** Segments and rows *)

(** [blocks] and [gaps] of lines 206-207. *)
Definition blocks (segs : list Segment) : list Segment :=
  List.filter (fun s => negb (seg_is_gap s)) segs.
Definition gaps (segs : list Segment) : list Segment :=
  List.filter seg_is_gap segs.

Definition sum_durations (segs : list Segment) : Z :=
  fold_right (fun s acc => duration_frames s + acc) 0 segs.

Definition is_clip (e : spine_elem) : bool :=
  match e with SClip _ _ _ _ => true | SGap _ => false end.

(** The frame count of a timecode that parses (0 stands in otherwise). *)
Definition frames_of (fps : float) (tc : str) : Z :=
  match timecode_to_frames tc fps with
  | Ok n => n
  | Raise _ => 0
  end.

(** A row the builder admits into a block: not a GAP row, both timecodes
    and the colour present, both timecodes parsed, out after in. *)
Definition block_row_ok (fps : float) (row : CsvRow) : bool :=
  negb (is_gap row) && negb (missing (in_timecode row))
  && negb (missing (out_timecode row)) && negb (missing (color row))
  && match timecode_to_frames (in_timecode row) fps,
           timecode_to_frames (out_timecode row) fps with
     | Ok i, Ok o => i <? o
     | _, _ => false
     end.

(** A GAP row the builder turns into a gap segment. *)
Definition gap_row_ok (fps : float) (row : CsvRow) : bool :=
  is_gap row && negb (missing (in_timecode row))
  && negb (missing (out_timecode row))
  && match timecode_to_frames (in_timecode row) fps,
           timecode_to_frames (out_timecode row) fps with
     | Ok i, Ok o => i <? o
     | _, _ => false
     end.

(** The state with [segs] and [warns] put in front of what it has. *)
Definition shift (segs : list Segment) (warns : list warning) (st : state)
  : state :=
  mkState (segs ++ segments st) (warns ++ warnings st)
          (current_color st) (current_block st).

(** Colour and block are set and reset together. *)
Definition consistent (st : state) : Prop :=
  match current_color st, current_block st with
  | None, None => True
  | Some c, Some b => seg_color b = Some c ∧ c <> []
  | _, _ => False
  end.

(** What the row checks do guarantee: a returned segment starts at its
    first row's in-point, ends at its last row's out-point, and that last
    row has its out-point after its in-point; a gap segment has one row. *)
Definition seg_rows_ok (fps : float) (s : Segment) : Prop :=
  exists first final,
    head (raw_rows s) = Some first ∧ last (raw_rows s) = Some final
    ∧ start_frames s = frames_of fps (in_timecode first)
    ∧ end_frames s = frames_of fps (out_timecode final)
    ∧ frames_of fps (in_timecode final) < end_frames s
    ∧ (seg_is_gap s = true -> raw_rows s = [first]).

Definition state_rows_ok (fps : float) (st : state) : Prop :=
  Forall (seg_rows_ok fps) (segments st)
  ∧ forall b, current_block st = Some b ->
              seg_rows_ok fps b ∧ seg_is_gap b = false.

(** ** Records of the CSV file *)

(** A record with every required field trimmed, and the test for a blank
    one (no in-point, no out-point, no colour). *)
Definition trimmed_row (fieldnames record : list str) : CsvRow :=
  let raw := dict_row fieldnames record in
  mkCsvRow (field raw H_SPEAKER) (field raw H_IN) (field raw H_OUT)
           (field raw H_TEXT) (field raw H_COLOR).

Definition blank_row (row : CsvRow) : bool :=
  bool_decide (in_timecode row = []) && bool_decide (out_timecode row = [])
  && bool_decide (color row = []).

Definition insert_field (d : gmap str (option str)) (kv : str * str) :=
  <[fst kv := Some (snd kv)]> d.
Definition insert_rest (d : gmap str (option str)) (k : str) :=
  <[k := None]> d.

(** ** Timecode text and floats *)

(** The value of a string of decimal digits, and the strings made of
    digits only. *)
Definition digits_value (ds : str) (acc : Z) : Z :=
  fold_left (fun a c => a * 10 + Z.of_N (c - 48)) ds acc.

Definition all_digits (ds : str) : Prop := Forall (fun c => is_digit c = true) ds.

(** The text [frames_to_timecode] builds from its four fields. *)
Definition timecode_text (hours minutes seconds frames : Z) : str :=
  format_02d hours ++ [58%N] ++ format_02d minutes ++ [58%N]
  ++ format_02d seconds ++ [58%N] ++ format_02d frames.

(** A float that is not below zero. *)
Definition fl_nonneg (x : float) : Prop :=
  match x with
  | FFin q => (0 <= q)%Q
  | FInf negative => negative = false
  | FNaN => True
  end.

(** ** The builder's treatment of a row *)

(** A row whose required fields are present, so that the builder parses
    its timecodes. *)
Definition row_complete (row : CsvRow) : bool :=
  if is_gap row
  then negb (missing (in_timecode row) || missing (out_timecode row))
  else negb (missing (in_timecode row) || missing (out_timecode row)
             || missing (color row)).

(** A row the builder gets past: incomplete, or both timecodes parse. *)
Definition row_parses (fps : float) (row : CsvRow) : bool :=
  negb (row_complete row)
  || (is_ok (timecode_to_frames (in_timecode row) fps)
      && is_ok (timecode_to_frames (out_timecode row) fps)).

(** A row that ends up in a segment. *)
Definition row_accepted (fps : float) (row : CsvRow) : bool :=
  block_row_ok fps row || gap_row_ok fps row.

(** The warning the builder writes for a row it does not accept. *)
Definition warning_for (row : CsvRow) : warning :=
  if is_gap row then
    if missing (in_timecode row) || missing (out_timecode row)
    then mkWarning "GAP row missing timecodes" row
    else mkWarning "GAP out point <= in point" row
  else
    if missing (in_timecode row) || missing (out_timecode row)
       || missing (color row)
    then mkWarning "Block row missing required fields" row
    else mkWarning "Out point <= in point" row.

(** The rows of all segments of a state, the open block last. *)
Definition all_rows (st : state) : list CsvRow :=
  concat (List.map raw_rows (fst (finish st))).

(** ** The shape of the segments *)

(** A gap segment as the builder makes it: one GAP row, which gives the
    colour, the transcript and the label, and an end after the start. *)
Definition gap_shape (s : Segment) : Prop :=
  exists row,
    raw_rows s = [row] ∧ is_gap row = true ∧ kind s = lit "gap"
    ∧ seg_color s = Some (color row)
    ∧ seg_transcript s = Some (transcript row)
    ∧ start_frames s < end_frames s
    ∧ seg_gap_label s = gap_label row.

(** A block segment as the builder makes it: at least one row, none of
    them a GAP row, all of the colour of the first, whose transcript is
    the block's. *)
Definition block_shape (s : Segment) : Prop :=
  exists first rest,
    raw_rows s = first :: rest ∧ kind s = lit "block"
    ∧ seg_color s = Some (color first) ∧ color first <> []
    ∧ seg_transcript s = Some (transcript first)
    ∧ Forall (fun r => color r = color first ∧ is_gap r = false) (raw_rows s).

Definition state_shape (st : state) : Prop :=
  consistent st
  ∧ Forall (fun s => gap_shape s ∨ block_shape s) (segments st)
  ∧ forall b, current_block st = Some b -> block_shape b.

(** ** The spine of the FCPXML document *)

(** The duration of a spine element, the length of a spine, and the
    offsets at which its clips start when the elements are laid end to
    end from [at]. *)
Definition elem_duration (e : spine_elem) : Z :=
  match e with SGap d => d | SClip _ d _ _ => d end.

Definition spine_duration (es : list spine_elem) : Z :=
  fold_right (fun e acc => elem_duration e + acc) 0 es.

Fixpoint clip_offsets (at_ : Z) (es : list spine_elem) : list Z :=
  match es with
  | [] => []
  | SGap d :: rest => clip_offsets (at_ + d) rest
  | SClip _ d _ _ :: rest => at_ :: clip_offsets (at_ + d) rest
  end.

(** The clip the writer makes for a block, and a list numbered from
    [first]. *)
Definition clip_of_block (clip_index : nat) (b : Segment) : spine_elem :=
  SClip clip_index (duration_frames b) (start_frames b)
        (color_to_davinci (default [] (seg_color b))).

Fixpoint numbered {A B} (f : nat -> A -> B) (first : nat) (l : list A)
  : list B :=
  match l with
  | [] => []
  | a :: rest => f first a :: numbered f (S first) rest
  end.

(** Positions in timeline order that do not overlap, from [prev_end] on. *)
Fixpoint well_spaced (prev_end : Z) (ps : list pos_info) : Prop :=
  match ps with
  | [] => True
  | p :: rest =>
      prev_end <= p_start p ∧ 0 <= p_duration p
      ∧ well_spaced (p_start p + p_duration p) rest
  end.

(** Where the last position ends ([prev_end] when there is none). *)
Fixpoint positions_end (prev_end : Z) (ps : list pos_info) : Z :=
  match ps with
  | [] => prev_end
  | p :: rest => positions_end (p_start p + p_duration p) rest
  end.

(** ** Rational times *)

(** The text ["<num>/<den>s"]. *)
Definition rational_text (num den : Z) : result str :=
  n ← str_of_int num;
  d ← str_of_int den;
  Ok (n ++ lit "/" ++ d ++ lit "s").

(** The branch _frames_to_rational takes at a rate: the denominator of an
    NTSC form, or the rounded rate. *)
Definition rational_branch (fps : float) : result (bool * Z) :=
  if near_rate fps (float_literal 23976 1000) then Ok (true, 24000)
  else if near_rate fps (float_literal 2997 100) then Ok (true, 30000)
  else if near_rate fps (float_literal 5994 100) then Ok (true, 60000)
  else timebase ← py_round fps; Ok (false, timebase).

(** What the branch should be for a template rate. *)
Definition template_branch (timebase : Z) (ntsc : bool) : bool * Z :=
  if ntsc && ((timebase =? 24) || (timebase =? 30) || (timebase =? 60))
  then (true, timebase * 1000)
  else (false, timebase).

Definition branch_check (k : nat) : bool :=
  let timebase := Z.of_nat k in
  forallb (fun ntsc =>
             match get_fps_from_rate timebase ntsc with
             | Ok fps =>
                 match rational_branch fps with
                 | Ok b => bool_decide (b = template_branch timebase ntsc)
                 | Raise _ => false
                 end
             | Raise _ => false
             end) [true; false].

(** ** Tracks of the XMEML document *)

(** A template track with a [clipitem] child: the writer builds it anew
    and runs the segment loop for it. *)
Definition populated (template_track : Xml.element) : Prop :=
  Xml.findall (lit "clipitem") template_track <> [].

(** What the writer makes of a template track when the segment loop
    generates no clip item for it. *)
Definition without_clips (template_track : Xml.element) : track :=
  match Xml.findall (lit "clipitem") template_track with
  | [] => Copied template_track
  | _ :: _ => Rebuilt template_track []
  end.

(* ===================================================================== *)
(** * Proofs                                                               *)
(* ===================================================================== *)

(** Closes a decidable goal by evaluation. *)
Ltac by_compute :=
  lazymatch goal with
  | |- ?P => apply (bool_decide_unpack P); vm_compute; exact I
  end.

(** ** Colour mapping *)

Lemma list_to_map_values (l : list (str * str)) (ok : list str) :
  Forall (fun kv => snd kv ∈ ok) l ->
  forall k v, (list_to_map l : gmap str str) !! k = Some v -> v ∈ ok.
Proof.
  intros Hall k v Hl. apply elem_of_list_to_map_2 in Hl.
  rewrite Forall_forall in Hall. exact (Hall _ Hl).
Qed.

Lemma legacy_map_values k v :
  LEGACY_COLOR_MAP !! k = Some v -> v ∈ VALID_LABELS.
Proof. apply list_to_map_values. by_compute. Qed.

Lemma premiere_to_davinci_values k v :
  PREMIERE_TO_DAVINCI !! k = Some v -> v ∈ DAVINCI_COLORS.
Proof. apply list_to_map_values. by_compute. Qed.

Lemma color_to_davinci_values k v :
  COLOR_TO_DAVINCI !! k = Some v -> v ∈ DAVINCI_COLORS.
Proof. apply list_to_map_values. by_compute. Qed.

Lemma color_to_premiere_label_valid color :
  color_to_premiere_label color ∈ VALID_LABELS.
Proof.
  unfold color_to_premiere_label.
  destruct (_ || _); [by_compute|].
  case_bool_decide as Hin; [exact Hin|].
  destruct (LEGACY_COLOR_MAP !! lower color) as [v|] eqn:E; simpl.
  - eapply legacy_map_values, E.
  - by_compute.
Qed.

Lemma color_to_davinci_valid color :
  color_to_davinci color ∈ DAVINCI_COLORS.
Proof.
  unfold color_to_davinci.
  destruct (_ || _); [by_compute|].
  destruct (PREMIERE_TO_DAVINCI !! color) as [v|] eqn:E1.
  { eapply premiere_to_davinci_values, E1. }
  destruct (COLOR_TO_DAVINCI !! lower color) as [v|] eqn:E2.
  { eapply color_to_davinci_values, E2. }
  case_bool_decide as Hin; [exact Hin | by_compute].
Qed.

(** C9.  Both colour mappings are total functions into their closed
    vocabularies: for every string, [color_to_premiere_label] returns one
    of the 16 Premiere labels and [color_to_davinci] one of the 17 DaVinci
    colours, so the result is never empty or unmapped; blank input and
    unknown words give the fixed defaults "Caribbean" and "blue". *)
Theorem color_mapping_total (color : str) :
  color_to_premiere_label color ∈ VALID_LABELS
  ∧ color_to_davinci color ∈ DAVINCI_COLORS
  ∧ color_to_premiere_label color ≠ []
  ∧ color_to_davinci color ≠ []
  ∧ length VALID_LABELS = 16%nat
  ∧ length DAVINCI_COLORS = 17%nat
  ∧ NoDup VALID_LABELS ∧ NoDup DAVINCI_COLORS
  ∧ color_to_premiere_label [] = lit "Caribbean"
  ∧ color_to_davinci [] = lit "blue"
  ∧ (strip color = [] ->
     color_to_premiere_label color = lit "Caribbean"
     ∧ color_to_davinci color = lit "blue")
  ∧ (color ∉ VALID_LABELS -> LEGACY_COLOR_MAP !! lower color = None ->
     color_to_premiere_label color = lit "Caribbean")
  ∧ (PREMIERE_TO_DAVINCI !! color = None ->
     COLOR_TO_DAVINCI !! lower color = None ->
     lower color ∉ DAVINCI_COLORS ->
     color_to_davinci color = lit "blue").
Proof.
  pose proof (color_to_premiere_label_valid color) as Hp.
  pose proof (color_to_davinci_valid color) as Hd.
  assert (Hne : (([] : str) ∉ VALID_LABELS) /\ (([] : str) ∉ DAVINCI_COLORS))
    by (split; by_compute).
  split_and!; try done.
  - intros E. rewrite E in Hp. tauto.
  - intros E. rewrite E in Hd. tauto.
  - by_compute.
  - by_compute.
  - intros Hs. unfold color_to_premiere_label, color_to_davinci.
    rewrite (bool_decide_eq_true_2 _ Hs), orb_true_r. done.
  - intros Hn Hl. unfold color_to_premiere_label.
    destruct (_ || _); [done|].
    rewrite (bool_decide_eq_false_2 _ Hn), Hl. done.
  - intros H1 H2 H3. unfold color_to_davinci.
    destruct (_ || _); [done|].
    rewrite H1, H2, (bool_decide_eq_false_2 _ H3). done.
Qed.

Lemma color_mapping_total_witness :
  color_to_premiere_label (lit "chartreuse") = lit "Caribbean"
  ∧ color_to_davinci (lit "chartreuse") = lit "blue"
  ∧ color_to_premiere_label (lit "  ") = lit "Caribbean".
Proof.
  pose proof (color_mapping_total (lit "chartreuse")) as H.
  destruct H as (_ & _ & _ & _ & _ & _ & _ & _ & _ & _ & _ & Hp & Hd).
  pose proof (color_mapping_total (lit "  ")) as H.
  destruct H as (_ & _ & _ & _ & _ & _ & _ & _ & _ & _ & Hb & _).
  split_and!.
  - apply Hp; [by_compute | vm_compute; reflexivity].
  - apply Hd; [vm_compute; reflexivity | vm_compute; reflexivity | by_compute].
  - apply Hb. vm_compute; reflexivity.
Defined.

(** ** Segment durations *)

Lemma duration_frames_nonneg s : 0 <= duration_frames s.
Proof. unfold duration_frames. lia. Qed.

(** ** The missing [file_name] attribute *)

Lemma Segment_has_no_file_name s :
  getattr s "file_name" = Raise (AttributeError "file_name").
Proof. reflexivity. Qed.

(** C2.  A [Segment] has no [file_name] attribute: reading it raises
    [AttributeError], so the XMEML writer's per-clip step fails on every
    block segment before any media file is resolved, although
    [find_media_file] itself resolves by name and falls back to the clamped
    track index. *)
Theorem premiere_clip_step_attribute_error
    (lower : str -> str)
    (gap_frames : Z) (fps : float) (media_files : list media_file)
    (track_idx : nat) (channel : option Z) (st : wstate) (seg : Segment) :
  seg_is_gap seg = false ->
  clip_step lower gap_frames fps media_files track_idx channel st seg
  = Raise (AttributeError "file_name").
Proof. intros Hb. unfold clip_step. rewrite Hb. reflexivity. Qed.

Lemma premiere_clip_step_attribute_error_witness :
  clip_step Scenario.ascii_lower 30 (FFin 30) (t_media_files Scenario.two_file_template)
            0 None (mkW 0 3 0 ∅ [])
            (block_segment (Scenario.row "Tamaru" "Violet" "00:00:00:00" "00:00:05:00") 0 150)
  = Raise (AttributeError "file_name").
Proof.
  apply premiere_clip_step_attribute_error. reflexivity.
Defined.

(** The whole XMEML conversion fails on the end-to-end scenario. *)
Example premiere_end_to_end_fails :
  generate_premiere_xml Scenario.ascii_lower Scenario.end_to_end_csv
    (Some Scenario.two_file_template) Scenario.writable (FFin 1)
  = Raise (AttributeError "file_name").
Proof. vm_compute. reflexivity. Qed.

(** The lookup the writer was meant to do: by name, else by clamped track
    index. *)
Example find_media_file_by_track_index :
  let files := t_media_files Scenario.two_file_template in
  (mf_name <$> find_media_file Scenario.ascii_lower files None 0) = Ok (Some (lit "A.mov"))
  ∧ (mf_name <$> find_media_file Scenario.ascii_lower files None 1) = Ok (Some (lit "B.mov"))
  ∧ (mf_name <$> find_media_file Scenario.ascii_lower files None 7) = Ok (Some (lit "B.mov"))
  ∧ (mf_name <$> find_media_file Scenario.ascii_lower files (Some (lit "b.MOV")) 0)
    = Ok (Some (lit "B.mov")).
Proof. vm_compute. done. Qed.

(** ** A block that ends before it starts, in the two writers *)

(** C10.  A block segment with [end_frames <= start_frames] has
    [duration_frames] 0, so the timing lines of the XMEML writer would give
    its clip an end equal to its start and an out equal to its in; but the
    per-clip step of that writer never gets there: it raises
    [AttributeError] on [seg.file_name] before it writes anything for the
    segment.  The FCPXML writer does lay the segment out as an interval of
    length 0 right after the pause. *)
Theorem premiere_raises_on_inverted_block
    (lower : str -> str)
    (gap_frames : Z) (fps : float) (media_files : list media_file)
    (track_idx : nat) (channel : option Z) (st : wstate) (seg : Segment)
    (cursor : Z) :
  seg_is_gap seg = false ->
  end_frames seg <= start_frames seg ->
  duration_frames seg = 0
  ∧ (let pos := timeline_position st + gap_frames in
     clip_times pos seg = (pos, pos, start_frames seg, start_frames seg))
  ∧ clip_step lower gap_frames fps media_files track_idx channel st seg
    = Raise (AttributeError "file_name")
  ∧ layout gap_frames [seg] cursor []
    = ([mkPos (cursor + gap_frames) 0 (start_frames seg) (seg_color seg)],
       cursor + gap_frames).
Proof.
  intros Hb Hle.
  assert (Hd : duration_frames seg = 0) by (unfold duration_frames; lia).
  split_and!.
  - exact Hd.
  - unfold clip_times. rewrite Hd, !Z.add_0_r. reflexivity.
  - unfold clip_step. rewrite Hb. reflexivity.
  - simpl. rewrite Hb, Hd, Z.add_0_r. reflexivity.
Qed.

Lemma premiere_raises_on_inverted_block_witness :
  duration_frames Scenario.inverted_block = 0
  ∧ clip_times 130 Scenario.inverted_block = (130, 130, 300, 300)
  ∧ clip_step Scenario.ascii_lower 30 (FFin 30) (t_media_files Scenario.two_file_template)
              0 None (mkW 100 3 0 ∅ []) Scenario.inverted_block
    = Raise (AttributeError "file_name")
  ∧ layout 30 [Scenario.inverted_block] 100 []
    = ([mkPos 130 0 300 (Some (lit "Violet"))], 130).
Proof.
  apply (premiere_raises_on_inverted_block Scenario.ascii_lower 30 (FFin 30)
           (t_media_files Scenario.two_file_template) 0 None
           (mkW 100 3 0 ∅ []) Scenario.inverted_block 100).
  - reflexivity.
  - vm_compute. discriminate.
Defined.

(** The two rows of one colour that go back in time, as a CSV file: the
    XMEML conversion raises, the FCPXML conversion writes one clip of
    length 0. *)
Example inverted_block_in_both_writers :
  generate_premiere_xml Scenario.ascii_lower Scenario.out_of_order_csv
    (Some Scenario.two_file_template) Scenario.writable (FFin 1)
  = Raise (AttributeError "file_name")
  ∧ generate_davinci_xml Scenario.out_of_order_csv (Some (mkInfo 30 false))
      (FFin 1)
    = Ok (mkFcpxml 30 10030 [SGap 30; SClip 1 0 300 (lit "violet")]).
Proof. split; vm_compute; reflexivity. Qed.

(** ** The FCPXML cursor *)

Lemma layout_spec gap_frames segs : forall pos acc,
  layout gap_frames segs pos acc =
    (acc ++ fst (layout gap_frames segs pos []),
     pos + sum_durations (blocks segs)
         + gap_frames * Z.of_nat (length (blocks segs))
         + sum_durations (gaps segs)).
Proof.
  induction segs as [|s rest IH]; intros pos acc; simpl.
  - rewrite app_nil_r. f_equal. lia.
  - unfold blocks, gaps in *. simpl. destruct (seg_is_gap s); simpl.
    + rewrite IH. f_equal. lia.
    + rewrite IH. rewrite (IH _ [_]). simpl. rewrite <- app_assoc. f_equal. lia.
Qed.

Lemma layout_length gap_frames segs : forall pos,
  length (fst (layout gap_frames segs pos [])) = length (blocks segs).
Proof.
  induction segs as [|s rest IH]; intros pos; simpl; [reflexivity|].
  unfold blocks in *. simpl. destruct (seg_is_gap s); simpl.
  - apply IH.
  - rewrite layout_spec. simpl. f_equal. apply IH.
Qed.

Lemma spine_clip_count positions : forall prev idx,
  length (List.filter is_clip (spine_from prev idx positions)) = length positions.
Proof.
  induction positions as [|p rest IH]; intros prev idx; simpl; [reflexivity|].
  rewrite List.filter_app. simpl.
  rewrite length_app. simpl. rewrite IH.
  destruct prev; simpl; repeat case_match; simpl; lia.
Qed.

(** C5 (as the code has it).  The FCPXML writer moves its cursor by the
    duration of every gap segment and by [gap_frames] plus the block's
    duration for every block segment, the pause coming before the block;
    the sequence duration is the cursor's end value, that is the sum of the
    block durations plus [gap_frames] for every block (the first one too)
    plus the sum of the CSV gap durations; the spine has one clip per block
    segment. *)
Theorem davinci_duration_is_cursor_end
    (csv_path : path_state) (template_xml : option media_info)
    (gap_seconds : float) (doc : fcpxml) :
  generate_davinci_xml csv_path template_xml gap_seconds = Ok doc ->
  exists info fps gap_frames rows segs warns,
    template_xml = Some info
    ∧ get_fps_from_rate (timebase info) (ntsc info) = Ok fps
    ∧ py_round (fmul fps gap_seconds) = Ok gap_frames
    ∧ parse_csv csv_path = Ok rows
    ∧ build_segments rows fps = Ok (segs, warns)
    ∧ sequence_duration doc = snd (layout gap_frames segs 0 [])
    ∧ sequence_duration doc =
        sum_durations (blocks segs)
        + gap_frames * Z.of_nat (length (blocks segs))
        + sum_durations (gaps segs)
    ∧ length (List.filter is_clip (spine doc)) = length (blocks segs)
    ∧ (forall s rest pos acc, seg_is_gap s = true ->
         layout gap_frames (s :: rest) pos acc =
         layout gap_frames rest (pos + duration_frames s) acc)
    ∧ (forall s rest pos acc, seg_is_gap s = false ->
         layout gap_frames (s :: rest) pos acc =
         layout gap_frames rest (pos + gap_frames + duration_frames s)
           (acc ++ [mkPos (pos + gap_frames) (duration_frames s)
                          (start_frames s) (seg_color s)])).
Proof.
  unfold generate_davinci_xml. intros H.
  destruct template_xml as [info|]; [|destruct csv_path; discriminate].
  destruct csv_path as [| | |f]; try discriminate.
  { destruct (get_fps_from_rate _ _); [|discriminate].
    cbn [mbind result_bind] in H.
    destruct (py_round _); [cbn in H|]; discriminate. }
  destruct (get_fps_from_rate _ _) as [fps|] eqn:Efps; [|discriminate].
  cbn [mbind result_bind] in H.
  destruct (py_round _) as [gap_frames|] eqn:Egap; [|discriminate].
  cbn [mbind result_bind] in H.
  destruct (parse_csv _) as [rows|] eqn:Erows; [|discriminate].
  cbn [mbind result_bind] in H.
  destruct (build_segments _ _) as [[segs warns]|] eqn:Eb; [|discriminate].
  cbn [mbind result_bind fst] in H.
  rewrite layout_spec in H. simpl in H. injection H as <-.
  exists info, fps, gap_frames, rows, segs, warns. cbn [sequence_duration spine].
  split_and!; [done | done | done | done | done | | | | | ].
  - rewrite layout_spec. simpl. lia.
  - lia.
  - rewrite spine_clip_count. apply layout_length.
  - intros s rest pos acc Hg. simpl. rewrite Hg. reflexivity.
  - intros s rest pos acc Hg. simpl. rewrite Hg. reflexivity.
Qed.

Lemma davinci_duration_is_cursor_end_witness :
  let doc :=
    mkFcpxml 570 10570
      [SGap 30; SClip 1 300 0 (lit "violet");
       SGap 30; SClip 2 150 300 (lit "rose")] in
  generate_davinci_xml Scenario.end_to_end_csv (Some (mkInfo 30 false)) (FFin 1)
  = Ok doc
  ∧ exists info fps gap_frames rows segs warns,
      Some (mkInfo 30 false) = Some info
      ∧ get_fps_from_rate (timebase info) (ntsc info) = Ok fps
      ∧ py_round (fmul fps (FFin 1)) = Ok gap_frames
      ∧ parse_csv Scenario.end_to_end_csv = Ok rows
      ∧ build_segments rows fps = Ok (segs, warns)
      ∧ sequence_duration doc = snd (layout gap_frames segs 0 [])
      ∧ sequence_duration doc =
          sum_durations (blocks segs)
          + gap_frames * Z.of_nat (length (blocks segs))
          + sum_durations (gaps segs)
      ∧ length (List.filter is_clip (spine doc)) = length (blocks segs)
      ∧ (forall s rest pos acc, seg_is_gap s = true ->
           layout gap_frames (s :: rest) pos acc =
           layout gap_frames rest (pos + duration_frames s) acc)
      ∧ (forall s rest pos acc, seg_is_gap s = false ->
           layout gap_frames (s :: rest) pos acc =
           layout gap_frames rest (pos + gap_frames + duration_frames s)
             (acc ++ [mkPos (pos + gap_frames) (duration_frames s)
                            (start_frames s) (seg_color s)])).
Proof.
  split; [vm_compute; reflexivity|].
  apply (davinci_duration_is_cursor_end Scenario.end_to_end_csv
           (Some (mkInfo 30 false)) (FFin 1)).
  vm_compute. reflexivity.
Defined.

(** The end-to-end scenario: two merged Violet rows, a Rose row and a GAP
    row at 30 fps with a pause of one second.  The duration is 570 frames:
    450 of blocks, two pauses of 30 and the CSV gap of 60; it is neither
    450 plus one pause per boundary between blocks (480) nor 450 plus one
    pause per block (510). *)
Lemma davinci_scenario_duration_not_blocks_plus_boundaries :
  exists doc segs warns,
    generate_davinci_xml Scenario.end_to_end_csv (Some (mkInfo 30 false)) (FFin 1)
    = Ok doc
    ∧ (rows ← parse_csv Scenario.end_to_end_csv; build_segments rows (FFin 30))
      = Ok (segs, warns)
    ∧ length (blocks segs) = 2%nat
    ∧ sequence_duration doc
      <> sum_durations (blocks segs) + 30 * (Z.of_nat (length (blocks segs)) - 1)
    ∧ sequence_duration doc
      <> sum_durations (blocks segs) + 30 * Z.of_nat (length (blocks segs)).
Proof.
  do 3 eexists. split_and!; try (vm_compute; reflexivity); vm_compute; discriminate.
Qed.

(** ** Blocks whose rows go back in time *)

(** C1 (the code at the failing input).  Two rows of one colour, the second
    with earlier timecodes: each row passes its own check, the block keeps
    the first row's in-point and takes the second row's out-point, and the
    builder returns a block with [end_frames < start_frames] and no
    warning. *)
Theorem build_segments_keeps_inverted_block :
  exists seg,
    build_segments Scenario.out_of_order (FFin 30) = Ok ([seg], [])
    ∧ kind seg = lit "block"
    ∧ start_frames seg = 300 ∧ end_frames seg = 60
    ∧ end_frames seg <= start_frames seg
    ∧ raw_rows seg = Scenario.out_of_order.
Proof.
  eexists. split; [vm_compute; reflexivity|].
  vm_compute. split_and!; done.
Qed.

(** ** The segment builder as a state machine *)

Lemma last_map_default {A B : Type} (f : A -> B) (l : list A) (d : A) :
  List.last (List.map f l) (f d) = f (List.last l d).
Proof.
  induction l as [|a l IH]; [reflexivity|].
  destruct l as [|b l]; [reflexivity|]. exact IH.
Qed.

Lemma last_cons_default {A : Type} (l : list A) (a d d' : A) :
  List.last (a :: l) d = List.last (a :: l) d'.
Proof.
  revert a. induction l as [|b l IH]; intros a; [reflexivity|].
  change (List.last (b :: l) d = List.last (b :: l) d'). apply IH.
Qed.

Section Builder.

Variable fps : float.

Lemma run_app st rows1 rows2 :
  run fps st (rows1 ++ rows2) = (st' ← run fps st rows1; run fps st' rows2).
Proof using Type.
  revert st. induction rows1 as [|r rows1 IH]; intros st; simpl; [reflexivity|].
  destruct (step fps st r) as [st1|e]; simpl; [apply IH | reflexivity].
Qed.

Lemma step_shift segs warns st row :
  step fps (shift segs warns st) row = (shift segs warns <$> step fps st row).
Proof using Type.
  unfold step, close_block, warn, emit, shift. destruct st as [sg ws cc cb].
  cbn [segments warnings current_color current_block].
  destruct (is_gap row).
  - destruct cb as [b|]; cbn [segments warnings current_color current_block];
      destruct (missing _ || missing _); cbn;
      rewrite <- ?app_assoc; try reflexivity;
      destruct (timecode_to_frames (in_timecode row) fps); cbn; try reflexivity;
      destruct (timecode_to_frames (out_timecode row) fps); cbn; try reflexivity;
      destruct (_ <=? _); cbn; rewrite <- ?app_assoc; reflexivity.
  - destruct (missing _ || missing _ || missing _); cbn;
      rewrite <- ?app_assoc; try reflexivity.
    destruct (timecode_to_frames (in_timecode row) fps); cbn; try reflexivity.
    destruct (timecode_to_frames (out_timecode row) fps); cbn; try reflexivity.
    destruct (_ <=? _); cbn; rewrite <- ?app_assoc; try reflexivity.
    destruct (negb _); cbn.
    + destruct cb; rewrite <- ?app_assoc; reflexivity.
    + destruct cb; reflexivity.
Qed.

Lemma run_shift segs warns rows : forall st,
  run fps (shift segs warns st) rows = (shift segs warns <$> run fps st rows).
Proof using Type.
  induction rows as [|r rows IH]; intros st; simpl; [reflexivity|].
  rewrite step_shift. destruct (step fps st r) as [st1|e]; cbn; [apply IH | reflexivity].
Qed.

Lemma step_consistent st row st' :
  consistent st -> step fps st row = Ok st' -> consistent st'.
Proof using Type.
  unfold step, consistent, close_block, warn, emit.
  destruct st as [sg ws cc cb]. cbn [segments warnings current_color current_block].
  intros Hc Hs.
  destruct (is_gap row).
  - destruct cb as [b|]; cbn [segments warnings current_color current_block] in Hs.
    + destruct (missing _ || missing _); [injection Hs as <-; exact I|].
      destruct (timecode_to_frames (in_timecode row) fps); [|discriminate].
      destruct (timecode_to_frames (out_timecode row) fps); [|discriminate].
      cbn in Hs. destruct (_ <=? _); injection Hs as <-; exact I.
    + destruct (missing _ || missing _); [injection Hs as <-; exact Hc|].
      destruct (timecode_to_frames (in_timecode row) fps); [|discriminate].
      destruct (timecode_to_frames (out_timecode row) fps); [|discriminate].
      cbn in Hs. destruct (_ <=? _); injection Hs as <-; exact Hc.
  - destruct (missing (in_timecode row) || missing (out_timecode row)) eqn:Em;
      cbn [orb] in Hs.
    { injection Hs as <-. exact Hc. }
    destruct (missing (color row)) eqn:Ec; [injection Hs as <-; exact Hc|].
    destruct (timecode_to_frames (in_timecode row) fps); [|discriminate].
    destruct (timecode_to_frames (out_timecode row) fps); [|discriminate].
    cbn in Hs. destruct (_ <=? _); [injection Hs as <-; exact Hc|].
    destruct (negb _).
    + injection Hs as <-. cbn. split; [reflexivity|].
      unfold missing in Ec. apply bool_decide_eq_false_1 in Ec. exact Ec.
    + destruct cb as [b|]; [|discriminate]. injection Hs as <-. cbn.
      destruct cc; [exact Hc | contradiction].
Qed.

Lemma run_consistent rows : forall st st',
  consistent st -> run fps st rows = Ok st' -> consistent st'.
Proof using Type.
  induction rows as [|r rows IH]; intros st st' Hc Hr; simpl in Hr.
  - injection Hr as <-. exact Hc.
  - destruct (step fps st r) as [st1|e] eqn:Es; [|discriminate].
    eapply IH; [eapply step_consistent; eassumption | exact Hr].
Qed.

Lemma init_consistent : consistent init.
Proof using Type. exact I. Qed.

(** What a valid GAP row does to a consistent state. *)
Lemma step_gap_row st row :
  gap_row_ok fps row = true -> consistent st ->
  step fps st row =
    Ok (mkState (fst (finish st)
                 ++ [gap_segment row (frames_of fps (in_timecode row))
                                     (frames_of fps (out_timecode row))])
                (warnings st) None None).
Proof using Type.
  unfold gap_row_ok, step, frames_of, finish, close_block, emit, consistent.
  intros Hok Hc.
  destruct (is_gap row); [|discriminate].
  destruct (missing (in_timecode row)); [discriminate|].
  destruct (missing (out_timecode row)); [discriminate|].
  destruct (timecode_to_frames (in_timecode row) fps) as [i|]; [|discriminate].
  destruct (timecode_to_frames (out_timecode row) fps) as [o|]; [|discriminate].
  cbn in Hok. apply Z.ltb_lt in Hok.
  destruct st as [sg ws cc cb]. cbn in *.
  destruct cb as [b|]; cbn.
  - destruct (Z.leb_spec o i); [lia|]. reflexivity.
  - destruct cc; [contradiction|].
    destruct (Z.leb_spec o i); [lia|]. reflexivity.
Qed.

(** What a valid block row does, by the colour of the open block. *)
Lemma step_block_row_new st row :
  block_row_ok fps row = true -> current_color st <> Some (color row) ->
  step fps st row =
    Ok (mkState (fst (finish st)) (warnings st) (Some (color row))
          (Some (block_segment row (frames_of fps (in_timecode row))
                                   (frames_of fps (out_timecode row))))).
Proof using Type.
  unfold block_row_ok, step, frames_of, finish.
  intros Hok Hc.
  destruct (is_gap row); [discriminate|].
  destruct (missing (in_timecode row)); [discriminate|].
  destruct (missing (out_timecode row)); [discriminate|].
  destruct (missing (color row)); [discriminate|].
  destruct (timecode_to_frames (in_timecode row) fps) as [i|]; [|discriminate].
  destruct (timecode_to_frames (out_timecode row) fps) as [o|]; [|discriminate].
  cbn in Hok. apply Z.ltb_lt in Hok. cbn.
  destruct (Z.leb_spec o i); [lia|].
  rewrite (bool_decide_eq_false_2 _ Hc). cbn.
  destruct (current_block st); reflexivity.
Qed.

Lemma step_block_row_same segs warns b row :
  block_row_ok fps row = true ->
  step fps (mkState segs warns (Some (color row)) (Some b)) row =
    Ok (mkState segs warns (Some (color row))
          (Some (extend b row (frames_of fps (out_timecode row))))).
Proof using Type.
  unfold block_row_ok, step, frames_of.
  intros Hok.
  destruct (is_gap row); [discriminate|].
  destruct (missing (in_timecode row)); [discriminate|].
  destruct (missing (out_timecode row)); [discriminate|].
  destruct (missing (color row)); [discriminate|].
  destruct (timecode_to_frames (in_timecode row) fps) as [i|]; [|discriminate].
  destruct (timecode_to_frames (out_timecode row) fps) as [o|]; [|discriminate].
  cbn in Hok. apply Z.ltb_lt in Hok. cbn.
  destruct (Z.leb_spec o i); [lia|].
  rewrite bool_decide_eq_true_2 by reflexivity. reflexivity.
Qed.

(** A run of admitted rows of the open block's colour extends that block
    row by row. *)
(** A row that is not a GAP row and is not admitted (a field is missing,
    or the out-point is not after the in-point) only adds its warning:
    the open block and its colour stay as they are. *)
Lemma step_block_row_skipped st row :
  is_gap row = false -> row_parses fps row = true ->
  block_row_ok fps row = false ->
  step fps st row
  = Ok (mkState (segments st) (warnings st ++ [warning_for row])
                (current_color st) (current_block st)).
Proof.
  unfold row_parses, row_complete, block_row_ok, step, warning_for, warn.
  intros Hg. rewrite Hg. cbn [negb andb].
  destruct (missing (in_timecode row) || missing (out_timecode row)
            || missing (color row)) eqn:Em; [reflexivity|].
  rewrite <- !negb_orb, Em. cbn [negb andb orb].
  destruct (timecode_to_frames (in_timecode row) fps) as [i|];
    [|discriminate].
  destruct (timecode_to_frames (out_timecode row) fps) as [o|];
    [|discriminate].
  cbn [mbind result_bind]. intros _ Hlt.
  rewrite Z.leb_antisym, Hlt. reflexivity.
Qed.

Lemma run_same_color c rest : forall segs warns b,
  Forall (fun r => block_row_ok fps r = true ∧ color r = c) rest ->
  run fps (mkState segs warns (Some c) (Some b)) rest =
    Ok (mkState segs warns (Some c)
          (Some (mkSegment (kind b) (start_frames b)
                   (List.last (List.map (fun r => frames_of fps (out_timecode r)) rest)
                              (end_frames b))
                   (seg_color b) (seg_transcript b) (raw_rows b ++ rest)))).
Proof using Type.
  induction rest as [|r rest IH]; intros segs warns b Hall.
  - simpl. rewrite app_nil_r. destruct b; reflexivity.
  - apply Forall_cons in Hall as [[Hok Hcol] Hall].
    cbn [run]. subst c. rewrite step_block_row_same by exact Hok.
    cbn [mbind result_bind]. rewrite IH by exact Hall.
    cbn [extend kind start_frames end_frames seg_color seg_transcript raw_rows].
    rewrite <- app_assoc. cbn [List.map app].
    do 4 f_equal.
    destruct rest as [|r' rest']; [reflexivity|].
    cbn [List.map].
    change (List.last (frames_of fps (out_timecode r) :: ?x :: ?l) ?d)
      with (List.last (x :: l) d).
    apply last_cons_default.
Qed.

End Builder.

Lemma finish_shift segs warns st :
  finish (shift segs warns st)
  = (segs ++ fst (finish st), warns ++ snd (finish st)).
Proof.
  unfold finish, shift. cbn.
  destruct (current_block st); rewrite <- ?app_assoc; reflexivity.
Qed.

Lemma build_segments_run rows fps segs warns :
  build_segments rows fps = Ok (segs, warns) ->
  exists st, run fps init rows = Ok st ∧ finish st = (segs, warns)
             ∧ consistent st.
Proof.
  unfold build_segments. intros H.
  destruct (run fps init rows) as [st|] eqn:Er; [|discriminate].
  cbn [mbind result_bind] in H. exists st.
  split_and!; [reflexivity | congruence | ].
  eapply run_consistent; [apply init_consistent | exact Er].
Qed.

Lemma upper_char_is (c k : N) :
  (65 <= k <= 90)%N ->
  (k =? upper_char c)%N = true <-> c = k ∨ c = (k + 32)%N.
Proof.
  intros Hk. unfold upper_char. rewrite N.eqb_eq.
  destruct ((97 <=? c)%N && (c <=? 122)%N) eqn:E.
  - apply andb_prop in E as [E1 E2].
    apply N.leb_le in E1. apply N.leb_le in E2. lia.
  - apply andb_false_iff in E as [E | E]; apply N.leb_gt in E; lia.
Qed.

(** [is_gap] reads the first three code points only. *)
Lemma is_gap_prefix row :
  is_gap row = true <->
  exists c1 c2 c3 rest,
    color row = c1 :: c2 :: c3 :: rest
    ∧ (c1 = 71 ∨ c1 = 103)%N ∧ (c2 = 65 ∨ c2 = 97)%N ∧ (c3 = 80 ∨ c3 = 112)%N.
Proof.
  unfold is_gap. change (lit "GAP") with [71; 65; 80]%N.
  destruct (color row) as [|c1 [|c2 [|c3 rest]]].
  - rewrite bool_decide_eq_true_2 by reflexivity.
    split; [discriminate | intros (?&?&?&?&?&?); discriminate].
  - rewrite bool_decide_eq_false_2 by discriminate.
    cbn [upper List.map startswith]. rewrite andb_false_r.
    split; [discriminate | intros (?&?&?&?&?&?); discriminate].
  - rewrite bool_decide_eq_false_2 by discriminate.
    cbn [upper List.map startswith]. rewrite !andb_false_r.
    split; [discriminate | intros (?&?&?&?&?&?); discriminate].
  - rewrite bool_decide_eq_false_2 by discriminate.
    cbn [upper List.map startswith]. rewrite andb_true_r, !andb_true_iff.
    rewrite !upper_char_is by lia.
    split.
    + intros (H1 & H2 & H3). exists c1, c2, c3, rest. done.
    + intros (d1 & d2 & d3 & r & E & H1 & H2 & H3).
      injection E as -> -> -> ->. done.
Qed.

(** C6.  A GAP row (colour starting with "GAP" in any case) with both
    timecodes present and out after in closes and emits any open block and
    then emits a gap segment holding exactly that row; the rows after it
    are built as if they were the whole input, so the gap merges with no
    block before or after it, whatever the colours. *)
Theorem gap_row_is_standalone
    (fps : float) (pre post : list CsvRow) (row : CsvRow)
    (segs_pre : list Segment) (warns_pre : list warning) (s e : Z) :
  is_gap row = true ->
  in_timecode row <> [] -> out_timecode row <> [] ->
  timecode_to_frames (in_timecode row) fps = Ok s ->
  timecode_to_frames (out_timecode row) fps = Ok e ->
  s < e ->
  build_segments pre fps = Ok (segs_pre, warns_pre) ->
  build_segments (pre ++ row :: post) fps =
    (r ← build_segments post fps;
     Ok (segs_pre
         ++ mkSegment (lit "gap") s e (Some (color row))
                      (Some (transcript row)) [row]
         :: fst r,
         warns_pre ++ snd r)).
Proof.
  intros Hg Hi Ho Es Ee Hlt Hpre.
  destruct (build_segments_run _ _ _ _ Hpre) as (st & Hrun & Hfin & Hc).
  assert (Hok : gap_row_ok fps row = true).
  { unfold gap_row_ok, missing. rewrite Hg, Es, Ee.
    rewrite !bool_decide_eq_false_2 by assumption. cbn. apply Z.ltb_lt, Hlt. }
  unfold build_segments. rewrite run_app, Hrun. cbn [mbind result_bind run].
  rewrite (step_gap_row fps st row Hok Hc). cbn [mbind result_bind].
  unfold frames_of. rewrite Es, Ee, Hfin. cbn [fst].
  pose proof (run_shift fps (segs_pre ++ [gap_segment row s e]) (warnings st)
                post init) as Hs.
  unfold shift in Hs at 1. cbn in Hs. rewrite !app_nil_r in Hs. rewrite Hs.
  destruct (run fps init post) as [st'|err];
    cbn [mbind result_bind fmap result_fmap]; [|reflexivity].
  rewrite finish_shift, <- app_assoc.
  replace (warnings st) with warns_pre; [reflexivity|].
  unfold finish in Hfin. injection Hfin as _ <-. reflexivity.
Qed.

Lemma gap_row_is_standalone_witness :
  build_segments
    (Scenario.violet_violet_rose
     ++ Scenario.row "" "gap_1" "00:00:15:00" "00:00:17:00"
     :: [Scenario.row "Tamaru" "Rose" "00:00:17:00" "00:00:20:00"])
    (FFin 30)
  = (r ← build_segments
           [Scenario.row "Tamaru" "Rose" "00:00:17:00" "00:00:20:00"] (FFin 30);
     Ok (fst (finish
                (mkState
                   [mkSegment (lit "block") 0 300 (Some (lit "Violet"))
                              (Some (lit "text"))
                              (firstn 2 Scenario.violet_violet_rose)]
                   [] (Some (lit "Rose"))
                   (Some (mkSegment (lit "block") 300 450 (Some (lit "Rose"))
                                    (Some (lit "text"))
                                    (skipn 2 Scenario.violet_violet_rose)))))
         ++ mkSegment (lit "gap") 450 510 (Some (lit "gap_1"))
                      (Some (lit "text"))
                      [Scenario.row "" "gap_1" "00:00:15:00" "00:00:17:00"]
         :: fst r,
         [] ++ snd r)).
Proof.
  apply (gap_row_is_standalone (FFin 30) Scenario.violet_violet_rose
           [Scenario.row "Tamaru" "Rose" "00:00:17:00" "00:00:20:00"]
           (Scenario.row "" "gap_1" "00:00:15:00" "00:00:17:00")
           _ [] 450 510).
  - reflexivity.
  - discriminate.
  - discriminate.
  - vm_compute. reflexivity.
  - vm_compute. reflexivity.
  - lia.
  - vm_compute. reflexivity.
Defined.

(** C4.  A run of consecutive admitted block rows of one colour [c],
    entered in a state whose open colour is not [c], closes the open block
    (if any) and becomes one block from the first row's in-point to the
    last row's out-point with every row of the run recorded; an admitted
    row of another colour then closes that block and opens a new one.  The
    speaker plays no part: the rows' speakers are not constrained.  A row
    that is not admitted (not a GAP row; a field is missing or the
    out-point is not after the in-point) leaves the block open, whatever
    its colour, and only adds its warning. *)
Theorem equal_colors_merge_into_one_block
    (fps : float) (st : state) (c : str) (r0 : CsvRow) (rest : list CsvRow) :
  Forall (fun r => block_row_ok fps r = true ∧ color r = c) (r0 :: rest) ->
  current_color st <> Some c ->
  let merged :=
    mkSegment (lit "block")
      (frames_of fps (in_timecode r0))
      (frames_of fps (out_timecode (List.last rest r0)))
      (Some c) (Some (transcript r0)) (r0 :: rest) in
  run fps st (r0 :: rest)
  = Ok (mkState (fst (finish st)) (warnings st) (Some c) (Some merged))
  ∧ (forall r', block_row_ok fps r' = true -> color r' <> c ->
       run fps st (r0 :: rest ++ [r'])
       = Ok (mkState (fst (finish st) ++ [merged]) (warnings st)
               (Some (color r'))
               (Some (block_segment r' (frames_of fps (in_timecode r'))
                                       (frames_of fps (out_timecode r'))))))
  ∧ (forall r', is_gap r' = false -> row_parses fps r' = true ->
       block_row_ok fps r' = false ->
       run fps st (r0 :: rest ++ [r'])
       = Ok (mkState (fst (finish st)) (warnings st ++ [warning_for r'])
               (Some c) (Some merged)))
  ∧ (st = init -> build_segments (r0 :: rest) fps = Ok ([merged], [])).
Proof.
  intros Hall Hc merged.
  apply Forall_cons in Hall as [[Hok0 Hc0] Hall].
  assert (Hrun : run fps st (r0 :: rest)
                 = Ok (mkState (fst (finish st)) (warnings st) (Some c)
                               (Some merged))).
  { cbn [run]. subst c. rewrite step_block_row_new by assumption.
    cbn [mbind result_bind]. rewrite (run_same_color fps _ rest) by exact Hall.
    subst merged. cbn. do 4 f_equal.
    destruct rest as [|r1 rest]; [reflexivity|].
    rewrite <- (last_map_default (fun r => frames_of fps (out_timecode r))).
    cbn [List.map]. apply last_cons_default. }
  split_and!.
  - exact Hrun.
  - intros r' Hok' Hne.
    change (r0 :: rest ++ [r']) with ((r0 :: rest) ++ [r']).
    rewrite run_app, Hrun. cbn [mbind result_bind run].
    rewrite step_block_row_new; [reflexivity | exact Hok' | cbn; congruence].
  - intros r' Hg Hp Hno.
    change (r0 :: rest ++ [r']) with ((r0 :: rest) ++ [r']).
    rewrite run_app, Hrun. cbn [mbind result_bind run].
    rewrite step_block_row_skipped by assumption. reflexivity.
  - intros ->. unfold build_segments. rewrite Hrun. reflexivity.
Qed.

Lemma equal_colors_merge_into_one_block_witness :
  build_segments (firstn 2 Scenario.violet_violet_rose) (FFin 30)
  = Ok ([mkSegment (lit "block") 0 300 (Some (lit "Violet"))
                   (Some (lit "text")) (firstn 2 Scenario.violet_violet_rose)],
        []).
Proof.
  pose proof (equal_colors_merge_into_one_block (FFin 30) init (lit "Violet")
                (Scenario.row "Tamaru" "Violet" "00:00:00:00" "00:00:05:00")
                [Scenario.row "Tamaru" "Violet" "00:00:05:00" "00:00:10:00"])
    as H.
  destruct H as (_ & _ & _ & H).
  - repeat constructor; vm_compute; reflexivity.
  - discriminate.
  - exact (H eq_refl).
Defined.

(** A Rose row whose out-point is before its in-point, between two Violet
    rows: its colour differs from the open block's, yet it closes nothing
    and starts nothing.  The two Violet rows end up in one block and the
    Rose row in a warning. *)
Lemma color_change_in_skipped_row_closes_nothing :
  let v1 := Scenario.row "Tamaru" "Violet" "00:00:00:00" "00:00:05:00" in
  let rose := Scenario.row "Nakajima" "Rose" "00:00:09:00" "00:00:08:00" in
  let v2 := Scenario.row "Tamaru" "Violet" "00:00:05:00" "00:00:10:00" in
  color rose <> color v1
  ∧ is_gap rose = false
  ∧ build_segments [v1; rose; v2] (FFin 30)
    = Ok ([mkSegment (lit "block") 0 300 (Some (lit "Violet"))
                     (Some (lit "text")) [v1; v2]],
          [mkWarning "Out point <= in point" rose]).
Proof.
  intros v1 rose v2. split_and!.
  - vm_compute. discriminate.
  - vm_compute. reflexivity.
  - vm_compute. reflexivity.
Qed.

(** The example of the specification: three rows, two blocks. *)
Example violet_violet_rose_two_blocks :
  build_segments Scenario.violet_violet_rose (FFin 30)
  = Ok ([mkSegment (lit "block") 0 300 (Some (lit "Violet"))
                   (Some (lit "text")) (firstn 2 Scenario.violet_violet_rose);
         mkSegment (lit "block") 300 450 (Some (lit "Rose"))
                   (Some (lit "text")) (skipn 2 Scenario.violet_violet_rose)],
        []).
Proof. vm_compute. reflexivity. Qed.

(** ** What the row checks guarantee *)

Lemma step_rows_ok fps st row st' :
  state_rows_ok fps st -> step fps st row = Ok st' -> state_rows_ok fps st'.
Proof.
  intros [Hsegs Hcur] Hstep.
  assert (Hfin : Forall (seg_rows_ok fps) (fst (finish st))).
  { unfold finish. cbn. destruct (current_block st) as [b|]; [|exact Hsegs].
    apply Forall_app. split; [exact Hsegs|].
    constructor; [apply (Hcur b eq_refl) | constructor]. }
  unfold step in Hstep.
  destruct (is_gap row) eqn:Eg.
  - assert (Hclose : state_rows_ok fps (close_block st)).
    { unfold close_block. destruct (current_block st) as [b|] eqn:Eb.
      - split; [|intros b' E; discriminate]. cbn.
        unfold finish in Hfin. rewrite Eb in Hfin. exact Hfin.
      - split; [exact Hsegs | intros b' E; congruence]. }
    destruct Hclose as [Hs' Hc'].
    destruct (missing _ || missing _).
    { injection Hstep as <-. split; [exact Hs' | exact Hc']. }
    destruct (timecode_to_frames (in_timecode row) fps) as [i|] eqn:Ei;
      [|discriminate].
    destruct (timecode_to_frames (out_timecode row) fps) as [o|] eqn:Eo;
      [|discriminate].
    cbn [mbind result_bind] in Hstep.
    destruct (Z.leb_spec o i); injection Hstep as <-.
    + split; [exact Hs' | exact Hc'].
    + split; [|exact Hc']. cbn [emit segments].
      apply Forall_app. split; [exact Hs'|]. constructor; [|constructor].
      exists row, row. unfold frames_of. cbn. rewrite Ei, Eo.
      split_and!; try reflexivity. lia.
  - destruct (missing _ || missing _ || missing _).
    { injection Hstep as <-. split; [exact Hsegs | exact Hcur]. }
    destruct (timecode_to_frames (in_timecode row) fps) as [i|] eqn:Ei;
      [|discriminate].
    destruct (timecode_to_frames (out_timecode row) fps) as [o|] eqn:Eo;
      [|discriminate].
    cbn [mbind result_bind] in Hstep.
    destruct (Z.leb_spec o i).
    { injection Hstep as <-. split; [exact Hsegs | exact Hcur]. }
    destruct (negb _).
    + injection Hstep as <-. split; [exact Hfin|].
      cbn. intros b E. injection E as <-. split; [|reflexivity].
      exists row, row. unfold frames_of. cbn. rewrite Ei, Eo.
      split_and!; try reflexivity. lia.
    + destruct (current_block st) as [b|] eqn:Eb; [|discriminate].
      injection Hstep as <-. split; [exact Hsegs|].
      cbn. intros b' E. injection E as <-.
      destruct (Hcur b eq_refl) as [(first & final & H1 & H2 & H3 & H4 & H5 & H6) Hb].
      split; [|exact Hb].
      exists first, row. unfold extend, frames_of. cbn. rewrite Ei, Eo.
      split_and!.
      * destruct (raw_rows b); [discriminate | exact H1].
      * apply last_snoc.
      * exact H3.
      * reflexivity.
      * lia.
      * unfold seg_is_gap in *. cbn. rewrite Hb. discriminate.
Qed.

Lemma run_rows_ok fps rows : forall st st',
  state_rows_ok fps st -> run fps st rows = Ok st' -> state_rows_ok fps st'.
Proof.
  induction rows as [|r rows IH]; intros st st' Hok Hrun; cbn in Hrun.
  - injection Hrun as <-. exact Hok.
  - destruct (step fps st r) as [st1|] eqn:Es; [|discriminate].
    eapply IH; [eapply step_rows_ok; eassumption | exact Hrun].
Qed.

(** Every gap segment and every block of a single row has its end after
    its start; a block of several rows need not (see
    [build_segments_keeps_inverted_block]). *)
Lemma build_segments_rows_ok fps rows segs warns :
  build_segments rows fps = Ok (segs, warns) ->
  Forall (seg_rows_ok fps) segs
  ∧ Forall (fun s => (seg_is_gap s = true ∨ length (raw_rows s) = 1%nat) ->
                     start_frames s < end_frames s) segs.
Proof.
  intros H. destruct (build_segments_run _ _ _ _ H) as (st & Hrun & Hfin & _).
  assert (Hok : state_rows_ok fps st).
  { eapply run_rows_ok; [|exact Hrun]. split; [constructor | discriminate]. }
  assert (Hall : Forall (seg_rows_ok fps) segs).
  { destruct Hok as [Hs Hc]. unfold finish in Hfin.
    destruct (current_block st) as [b|]; injection Hfin as <- _; [|exact Hs].
    apply Forall_app. split; [exact Hs|].
    constructor; [apply (Hc b eq_refl) | constructor]. }
  split; [exact Hall|].
  eapply Forall_impl; [exact Hall|].
  intros s (first & final & H1 & H2 & H3 & H4 & H5 & H6) Hone.
  assert (E : raw_rows s = [first]).
  { destruct Hone as [Hg | Hl]; [exact (H6 Hg)|].
    destruct (raw_rows s) as [|a [|b l]]; try discriminate.
    cbn in H1. congruence. }
  rewrite E in H2. cbn in H2. injection H2 as <-. lia.
Qed.

(** ** The CSV parser *)

Lemma fold_insert_field_notin (l : list (str * str)) : forall m k,
  k ∉ List.map fst l -> fold_left insert_field l m !! k = m !! k.
Proof.
  induction l as [|[k' v'] l IH]; intros m k Hk; [reflexivity|].
  cbn [fold_left List.map] in *. apply not_elem_of_cons in Hk as [Hne Hk].
  rewrite IH by exact Hk. unfold insert_field. cbn [fst snd].
  apply lookup_insert_ne. cbn in Hne. congruence.
Qed.

Lemma fold_insert_field_in (l : list (str * str)) : forall m k v,
  NoDup (List.map fst l) -> (k, v) ∈ l ->
  fold_left insert_field l m !! k = Some (Some v).
Proof.
  induction l as [|[k' v'] l IH]; intros m k v Hnd Hin.
  - apply elem_of_nil in Hin. contradiction.
  - cbn [fold_left List.map] in *. apply NoDup_cons in Hnd as [Hk' Hnd].
    apply elem_of_cons in Hin as [E | Hin].
    + injection E as -> ->. rewrite fold_insert_field_notin by exact Hk'.
      apply lookup_insert_eq.
    + apply IH; assumption.
Qed.

Lemma fold_insert_rest_notin (l : list str) : forall m k,
  k ∉ l -> fold_left insert_rest l m !! k = m !! k.
Proof.
  induction l as [|k' l IH]; intros m k Hk; [reflexivity|].
  cbn [fold_left]. apply not_elem_of_cons in Hk as [Hne Hk].
  rewrite IH by exact Hk. apply lookup_insert_ne. congruence.
Qed.

Lemma fold_insert_rest_in (l : list str) : forall m k,
  k ∈ l -> fold_left insert_rest l m !! k = Some None.
Proof.
  induction l as [|k' l IH]; intros m k Hin.
  - apply elem_of_nil in Hin. contradiction.
  - cbn [fold_left]. destruct (decide (k ∈ l)) as [Hl | Hl].
    + apply IH, Hl.
    + apply elem_of_cons in Hin as [-> | Hin]; [|contradiction].
      rewrite fold_insert_rest_notin by exact Hl. apply lookup_insert_eq.
Qed.

Lemma fold_insert_field_nonempty (l : list (str * str)) : forall m,
  m <> ∅ ∨ l <> [] -> fold_left insert_field l m <> ∅.
Proof.
  induction l as [|kv l IH]; intros m H.
  - destruct H as [H | H]; [exact H | contradiction].
  - cbn [fold_left]. apply IH. left. apply insert_non_empty.
Qed.

Lemma fold_insert_rest_nonempty (l : list str) : forall m,
  m <> ∅ -> fold_left insert_rest l m <> ∅.
Proof.
  induction l as [|k l IH]; intros m H; [exact H|].
  cbn [fold_left]. apply IH, insert_non_empty.
Qed.

Lemma dict_row_not_empty fieldnames record :
  record <> [] -> raw_is_empty (dict_row fieldnames record) = false.
Proof.
  intros Hr. unfold raw_is_empty, dict_row. cbn [named extra].
  destruct fieldnames as [|h hs].
  - rewrite (bool_decide_eq_false_2 (drop _ _ = [])); [apply andb_false_r|].
    cbn. exact Hr.
  - destruct record as [|x xs]; [contradiction|].
    rewrite bool_decide_eq_false_2; [reflexivity|].
    apply (fold_insert_rest_nonempty _ _).
    apply (fold_insert_field_nonempty ((h, x) :: combine hs xs)).
    right. discriminate.
Qed.


Lemma combine_fst_take {A B} (l : list A) (k : list B) :
  List.map fst (combine l k) = take (length k) l.
Proof.
  revert k. induction l as [|a l IH]; intros [|b k]; cbn; try reflexivity.
  f_equal. apply IH.
Qed.

Lemma combine_lookup {A B} (l : list A) (k : list B) i a b :
  l !! i = Some a -> k !! i = Some b -> (a, b) ∈ combine l k.
Proof.
  revert k i. induction l as [|a' l IH]; intros [|b' k] [|i] Ha Hb; try discriminate.
  - cbn in *. injection Ha as ->. injection Hb as ->. apply list_elem_of_here.
  - cbn in *. apply list_elem_of_further. eapply IH; eassumption.
Qed.

Lemma field_is_trimmed_column fieldnames record (i : nat) h :
  NoDup fieldnames -> fieldnames !! i = Some h ->
  field (dict_row fieldnames record) h = strip (default [] (record !! i)).
Proof.
  intros Hnd Hi. unfold field, dict_row. cbn [named].
  change (fun d kv => <[fst kv := Some (snd kv)]> d) with insert_field.
  change (fun d k => <[k := None]> d) with insert_rest.
  rewrite <- (take_drop (length record) fieldnames) in Hnd.
  apply NoDup_app in Hnd as (Hnd1 & Hdisj & Hnd2).
  destruct (record !! i) as [x|] eqn:Er; cbn [default].
  - assert (Hlt : (i < length record)%nat) by (eapply lookup_lt_Some; eassumption).
    assert (Hin : h ∈ take (length record) fieldnames).
    { apply list_elem_of_lookup. exists i. rewrite lookup_take_lt by exact Hlt. exact Hi. }
    rewrite fold_insert_rest_notin by (apply Hdisj, Hin).
    rewrite (fold_insert_field_in _ _ h x); [reflexivity| |].
    + rewrite combine_fst_take. exact Hnd1.
    + eapply combine_lookup; eassumption.
  - apply lookup_ge_None in Er.
    rewrite fold_insert_rest_in; [reflexivity|].
    apply list_elem_of_lookup. exists (i - length record)%nat.
    rewrite lookup_drop. rewrite <- Hi. f_equal. lia.
Qed.

Lemma parse_record_trimmed fieldnames record :
  record <> [] ->
  parse_record (dict_row fieldnames record)
  = if blank_row (trimmed_row fieldnames record) then None
    else Some (trimmed_row fieldnames record).
Proof.
  intros Hr. unfold parse_record. rewrite dict_row_not_empty by exact Hr.
  reflexivity.
Qed.

Lemma read_rows_spec fieldnames failure (recs : list (list str)) :
  forall rows,
  read_rows fieldnames recs failure rows
  = at_end failure
      (Ok (rows
           ++ List.filter (fun row => negb (blank_row row))
                (List.map (trimmed_row fieldnames)
                   (List.filter (fun r => negb (bool_decide (r = [])))
                                recs)))).
Proof.
  induction recs as [|r recs IH]; intros rows; cbn [read_rows].
  - cbn. rewrite app_nil_r. reflexivity.
  - cbn [List.filter]. case_bool_decide as Hr; cbn [negb].
    + apply IH.
    + rewrite parse_record_trimmed by exact Hr. cbn [List.map List.filter].
      destruct (blank_row (trimmed_row fieldnames r)); cbn [negb].
      * apply IH.
      * rewrite IH, <- app_assoc. reflexivity.
Qed.

Lemma missing_headers_spec fieldnames h :
  h ∈ missing_headers fieldnames <-> h ∈ TARGET_HEADERS ∧ h ∉ fieldnames.
Proof.
  unfold missing_headers. rewrite (list_elem_of_In (List.filter _ _) h).
  rewrite List.filter_In, <- list_elem_of_In.
  rewrite negb_true_iff, bool_decide_eq_false. reflexivity.
Qed.

Lemma missing_headers_nil fieldnames :
  missing_headers fieldnames = [] <-> (forall h, h ∈ TARGET_HEADERS -> h ∈ fieldnames).
Proof.
  split.
  - intros E h Hh. destruct (decide (h ∈ fieldnames)) as [|Hn]; [assumption|].
    assert (Hm : h ∈ missing_headers fieldnames) by (apply missing_headers_spec; done).
    rewrite E in Hm. apply elem_of_nil in Hm. contradiction.
  - intros Hall. destruct (missing_headers fieldnames) as [|h l] eqn:E; [reflexivity|].
    assert (Hm : h ∈ missing_headers fieldnames) by (rewrite E; apply list_elem_of_here).
    apply missing_headers_spec in Hm as [Ht Hn]. contradiction (Hn (Hall h Ht)).
Qed.

(** C7 (as the code has it).  [parse_csv] raises [FileNotFoundError]
    exactly when the file does not exist.  When the path cannot be
    examined or opened it passes on the [OSError].  For a file that opens
    and holds no record at all it raises a [CsvFormatError] that says the
    file is empty or has no headers; for a file whose first record lacks a
    required header it raises a [CsvFormatError] naming the missing
    headers, exactly then, and the names are the absent required headers.
    With every required header present it returns exactly when the file
    is read to its end, and then the non-empty data records in input
    order, every field trimmed, leaving out exactly the rows with no
    in-point, no out-point and no colour.  When the reading fails (the
    bytes are not UTF-8, the csv reader or the operating system raises)
    before the first record or, with every header present, at any later
    point, that exception is passed on. *)
Theorem parse_csv_outcomes (csv_path : path_state) :
  (parse_csv csv_path = Raise FileNotFoundError <-> csv_path = Missing)
  ∧ (csv_path = Inaccessible ∨ csv_path = Unopenable ->
     parse_csv csv_path = Raise OSError)
  ∧ (parse_csv csv_path = Raise (CsvFormatError NoHeaders)
     <-> csv_path = Opened (mkCsvFile [] None))
  ∧ (forall names,
       parse_csv csv_path = Raise (CsvFormatError (MissingHeaders names))
       <-> exists fieldnames data failure,
             csv_path = Opened (mkCsvFile (fieldnames :: data) failure)
             ∧ names = missing_headers fieldnames
             ∧ (exists h, h ∈ TARGET_HEADERS ∧ h ∉ fieldnames))
  ∧ (forall fieldnames h,
       h ∈ missing_headers fieldnames <-> h ∈ TARGET_HEADERS ∧ h ∉ fieldnames)
  ∧ (forall fieldnames data,
       csv_path = Opened (mkCsvFile (fieldnames :: data) None) ->
       (forall h, h ∈ TARGET_HEADERS -> h ∈ fieldnames) ->
       parse_csv csv_path
       = Ok (List.filter (fun row => negb (blank_row row))
               (List.map (trimmed_row fieldnames)
                  (List.filter (fun r => negb (bool_decide (r = [])))
                               data))))
  ∧ (forall rows,
       parse_csv csv_path = Ok rows ->
       exists fieldnames data,
         csv_path = Opened (mkCsvFile (fieldnames :: data) None)
         ∧ forall h, h ∈ TARGET_HEADERS -> h ∈ fieldnames)
  ∧ (forall recs e,
       csv_path = Opened (mkCsvFile recs (Some e)) ->
       (forall fieldnames h,
          head recs = Some fieldnames -> h ∈ TARGET_HEADERS ->
          h ∈ fieldnames) ->
       parse_csv csv_path = Raise (read_exn e))
  ∧ (forall fieldnames record (i : nat) h,
       NoDup fieldnames -> fieldnames !! i = Some h ->
       field (dict_row fieldnames record) h
       = strip (default [] (record !! i))).
Proof.
  assert (Hlib : forall e (x : exn),
            (x = FileNotFoundError ∨ (exists m, x = CsvFormatError m)) ->
            Raise (A := list CsvRow) (read_exn e) <> Raise x).
  { intros e x Hx E. injection E as E.
    destruct e; destruct Hx as [-> | [m ->]]; discriminate. }
  assert (Hopen : forall fieldnames data failure,
            parse_csv (Opened (mkCsvFile (fieldnames :: data) failure))
            = match missing_headers fieldnames with
              | [] => at_end failure
                        (Ok (List.filter (fun row => negb (blank_row row))
                               (List.map (trimmed_row fieldnames)
                                  (List.filter
                                     (fun r => negb (bool_decide (r = [])))
                                     data))))
              | m :: ms => Raise (CsvFormatError (MissingHeaders (m :: ms)))
              end).
  { intros fieldnames data fl. cbn [parse_csv records failure].
    destruct (missing_headers fieldnames); [|reflexivity].
    rewrite read_rows_spec. reflexivity. }
  split_and!.
  - destruct csv_path as [| | |[[|fieldnames data] failure]];
      try (split; [discriminate | discriminate]); [done | |].
    + split; [|discriminate]. cbn. destruct failure as [e|]; cbn; [|discriminate].
      intros E. exfalso. eapply Hlib; [|exact E]. auto.
    + split; [|discriminate]. rewrite Hopen.
      destruct (missing_headers fieldnames); [|discriminate].
      destruct failure as [e|]; cbn; [|discriminate].
      intros E. exfalso. eapply Hlib; [|exact E]. auto.
  - intros [-> | ->]; reflexivity.
  - destruct csv_path as [| | |[[|fieldnames data] failure]];
      try (split; [discriminate | discriminate]).
    + cbn. destruct failure as [e|]; cbn; [|done].
      split; [|discriminate].
      intros E. exfalso. eapply Hlib; [|exact E]. eauto.
    + split; [|discriminate]. rewrite Hopen.
      destruct (missing_headers fieldnames); [|discriminate].
      destruct failure as [e|]; cbn; [|discriminate].
      intros E. exfalso. eapply Hlib; [|exact E]. eauto.
  - intros names.
    destruct csv_path as [| | |[[|fieldnames data] failure]];
      try (split; [discriminate | intros (? & ? & ? & E & _); discriminate]).
    + split; [|intros (? & ? & ? & E & _); discriminate].
      cbn. destruct failure as [e|]; cbn; [|discriminate].
      intros E. exfalso. eapply Hlib; [|exact E]. eauto.
    + rewrite Hopen. destruct (missing_headers fieldnames) as [|m ms] eqn:Em.
      * split.
        -- destruct failure as [e|]; cbn; [|discriminate].
           intros E. exfalso. eapply Hlib; [|exact E]. eauto.
        -- intros (hs & d & fl & E & _ & h & Ht & Hn).
           injection E as <- <- <-.
           contradiction Hn. eapply missing_headers_nil; eassumption.
      * split.
        -- intros E. injection E as <-. exists fieldnames, data, failure.
           split_and!; [done | done |].
           exists m. apply missing_headers_spec. rewrite Em.
           apply list_elem_of_here.
        -- intros (hs & d & fl & E & -> & _). injection E as <- <- <-.
           rewrite Em. reflexivity.
  - apply missing_headers_spec.
  - intros fieldnames data -> Hall. rewrite Hopen.
    apply missing_headers_nil in Hall. rewrite Hall. reflexivity.
  - intros rows.
    destruct csv_path as [| | |[[|fieldnames data] failure]]; try discriminate.
    + cbn. destruct failure; discriminate.
    + rewrite Hopen. destruct (missing_headers fieldnames) eqn:Em;
        [|discriminate].
      destruct failure as [e|]; cbn; [discriminate|]. intros _.
      exists fieldnames, data. split; [reflexivity|].
      apply missing_headers_nil, Em.
  - intros recs e -> Hall. destruct recs as [|fieldnames data];
      [reflexivity|].
    rewrite Hopen.
    assert (Hm : missing_headers fieldnames = []).
    { apply missing_headers_nil. intros h Hh. exact (Hall _ _ eq_refl Hh). }
    rewrite Hm. reflexivity.
  - apply field_is_trimmed_column.
Qed.

Lemma parse_csv_outcomes_witness :
  parse_csv Scenario.end_to_end_csv
  = Ok [Scenario.row "Tamaru" "Violet" "00:00:00:00" "00:00:05:00";
        Scenario.row "Tamaru" "Violet" "00:00:05:00" "00:00:10:00";
        Scenario.row "Nakajima" "Rose" "00:00:10:00" "00:00:15:00";
        Scenario.row "" "GAP_1" "00:00:15:00" "00:00:17:00"]
  ∧ parse_csv Scenario.shift_jis_csv = Raise UnicodeDecodeError.
Proof.
  split.
  - destruct (parse_csv_outcomes Scenario.end_to_end_csv)
      as (_ & _ & _ & _ & _ & H & _).
    rewrite (H TARGET_HEADERS _ eq_refl); [vm_compute; reflexivity|].
    intros h Hh. exact Hh.
  - destruct (parse_csv_outcomes Scenario.shift_jis_csv)
      as (_ & _ & _ & _ & _ & _ & _ & H & _).
    apply (H [] NotUtf8 eq_refl). intros fieldnames h Hhd. discriminate.
Defined.

(** A file without any record exists and has none of the required headers,
    yet the error names no header, and no rows are returned. *)
Lemma parse_csv_empty_file_names_no_header :
  (exists f, Scenario.empty_csv = Opened f
             ∧ forall h, h ∈ TARGET_HEADERS ->
                         h ∉ default [] (head (records f)))
  ∧ parse_csv Scenario.empty_csv = Raise (CsvFormatError NoHeaders)
  ∧ (forall names,
       parse_csv Scenario.empty_csv <> Raise (CsvFormatError (MissingHeaders names)))
  ∧ parse_csv Scenario.empty_csv <> Raise FileNotFoundError
  ∧ (forall rows, parse_csv Scenario.empty_csv <> Ok rows).
Proof.
  split_and!; try discriminate; try reflexivity.
  eexists. split; [reflexivity|]. intros h _ Hin. cbn in Hin.
  apply elem_of_nil in Hin. exact Hin.
Qed.

(** ** Binary64 rounding *)

Section RoundingFacts.

Local Open Scope Q_scope.

Lemma pow2_pos e : 0 < pow2 e.
Proof. apply Qpower_0_lt. reflexivity. Qed.

Lemma pow2_add a b : pow2 (a + b) == pow2 a * pow2 b.
Proof. apply Qpower_plus. discriminate. Qed.

Lemma pow2_inject e : (0 <= e)%Z -> pow2 e == inject_Z (2 ^ e).
Proof. intros H. unfold pow2. rewrite Zpower_Qpower by exact H. reflexivity. Qed.

Lemma pow2_le a b : (a <= b)%Z -> pow2 a <= pow2 b.
Proof. intros H. apply Qpower_le_compat_l; [exact H | discriminate]. Qed.

Lemma pow2_lt a b : (a < b)%Z -> pow2 a < pow2 b.
Proof. intros H. apply Qpower_lt_compat_l; [exact H | reflexivity]. Qed.

Lemma pow2_lt_inv a b : pow2 a < pow2 b -> (a < b)%Z.
Proof. intros H. eapply Qpower_lt_compat_l_inv; [exact H | reflexivity]. Qed.

Lemma pow2_succ a : pow2 (a + 1) == 2 * pow2 a.
Proof. rewrite pow2_add. change (pow2 1) with 2. ring. Qed.

Lemma pow2_opp a : pow2 (- a) == / pow2 a.
Proof. apply Qpower_opp. Qed.

Lemma Qmake_as_div (n : Z) (d : positive) :
  n # d == inject_Z n / inject_Z (Zpos d).
Proof. apply Qmake_Qdiv. Qed.

Lemma ilog2_spec a : 0 < a -> pow2 (ilog2 a) <= a ∧ a < pow2 (ilog2 a + 1).
Proof.
  intros Ha. destruct a as [n d]. unfold ilog2. cbn [Qnum Qden].
  assert (Hn : (0 < n)%Z).
  { unfold Qlt in Ha. cbn in Ha. lia. }
  set (ln := Z.log2 n). set (ld := Z.log2 (Zpos d)).
  destruct (Z.log2_spec n Hn) as [Hn1 Hn2]. fold ln in Hn1, Hn2.
  destruct (Z.log2_spec (Zpos d) eq_refl) as [Hd1 Hd2]. fold ld in Hd1, Hd2.
  assert (Hln : (0 <= ln)%Z) by apply Z.log2_nonneg.
  assert (Hld : (0 <= ld)%Z) by apply Z.log2_nonneg.
  assert (Pn1 : pow2 ln <= inject_Z n).
  { rewrite pow2_inject by exact Hln. rewrite <- Zle_Qle. exact Hn1. }
  assert (Pn2 : inject_Z n < pow2 (ln + 1)).
  { rewrite pow2_inject by lia. rewrite <- Zlt_Qlt.
    replace (ln + 1)%Z with (Z.succ ln) by lia. exact Hn2. }
  assert (Pd1 : pow2 ld <= inject_Z (Zpos d)).
  { rewrite pow2_inject by exact Hld. rewrite <- Zle_Qle. exact Hd1. }
  assert (Pd2 : inject_Z (Zpos d) < pow2 (ld + 1)).
  { rewrite pow2_inject by lia. rewrite <- Zlt_Qlt.
    replace (ld + 1)%Z with (Z.succ ld) by lia. exact Hd2. }
  assert (Hd : 0 < inject_Z (Zpos d)) by reflexivity.
  pose proof (pow2_pos ld) as Pld. pose proof (pow2_pos ln) as Pln.
  assert (Eq : n # d == inject_Z n / inject_Z (Zpos d)) by apply Qmake_Qdiv.
  assert (Up : n # d < pow2 (ln - ld + 1)).
  { rewrite Eq. apply Qlt_shift_div_r; [exact Hd|].
    eapply Qlt_le_trans; [exact Pn2|].
    replace (ln + 1)%Z with ((ln - ld + 1) + ld)%Z by lia.
    rewrite pow2_add. apply Qmult_le_l; [apply pow2_pos | exact Pd1]. }
  assert (Lo : pow2 (ln - ld - 1) < n # d).
  { rewrite Eq. apply Qlt_shift_div_l; [exact Hd|].
    eapply Qlt_le_trans; [|exact Pn1].
    replace ln with ((ln - ld - 1) + (ld + 1))%Z at 2 by lia.
    rewrite pow2_add. apply Qmult_lt_l; [apply pow2_pos | exact Pd2]. }
  destruct (Qle_bool (pow2 (ln - ld)) (n # d)) eqn:E.
  - apply Qle_bool_iff in E. split; assumption.
  - assert (Hlt : n # d < pow2 (ln - ld)).
    { apply Qnot_le_lt. intros H. apply Qle_bool_iff in H. congruence. }
    replace (ln - ld - 1 + 1)%Z with (ln - ld)%Z by lia.
    split; [apply Qlt_le_weak, Lo | exact Hlt].
Qed.

Lemma ilog2_unique a l :
  pow2 l <= a -> a < pow2 (l + 1) -> ilog2 a = l.
Proof.
  intros H1 H2.
  assert (Ha : 0 < a) by (eapply Qlt_le_trans; [apply pow2_pos | exact H1]).
  destruct (ilog2_spec a Ha) as [S1 S2].
  assert (A : (l < ilog2 a + 1)%Z).
  { apply pow2_lt_inv. eapply Qle_lt_trans; eassumption. }
  assert (B : (ilog2 a < l + 1)%Z).
  { apply pow2_lt_inv. eapply Qle_lt_trans; eassumption. }
  lia.
Qed.


Lemma round_half_even_cases q :
  (round_half_even q = Qfloor q ∧ q - inject_Z (Qfloor q) <= 1 # 2)
  ∨ (round_half_even q = (Qfloor q + 1)%Z ∧ 1 # 2 <= q - inject_Z (Qfloor q)).
Proof.
  unfold round_half_even.
  destruct (Qcompare_spec (q - inject_Z (Qfloor q)) (1 # 2)) as [E | L | G].
  - destruct (Z.even (Qfloor q)); [left | right]; split;
      try reflexivity; rewrite E; apply Qle_refl.
  - left. split; [reflexivity | apply Qlt_le_weak, L].
  - right. split; [reflexivity | apply Qlt_le_weak, G].
Qed.

Lemma round_half_even_err q :
  Qabs (inject_Z (round_half_even q) - q) <= 1 # 2.
Proof.
  pose proof (Qfloor_le q) as Hlo. pose proof (Qlt_floor q) as Hhi.
  rewrite inject_Z_plus in Hhi. change (inject_Z 1) with 1 in Hhi.
  apply Qabs_Qle_condition.
  destruct (round_half_even_cases q) as [[-> H] | [-> H]].
  - split; lra.
  - rewrite inject_Z_plus. change (inject_Z 1) with 1. split; lra.
Qed.

Lemma inject_Z_close (a b : Z) :
  Qabs (inject_Z a - inject_Z b) < 1 -> a = b.
Proof.
  intros H. apply Qabs_Qlt_condition in H as [H1 H2].
  assert (A : inject_Z (a - b) < inject_Z 1).
  { unfold Zminus. rewrite inject_Z_plus, inject_Z_opp. exact H2. }
  assert (B : inject_Z (- 1) < inject_Z (a - b)).
  { unfold Zminus. rewrite inject_Z_plus, inject_Z_opp. exact H1. }
  rewrite <- Zlt_Qlt in A, B. lia.
Qed.

Lemma round_half_even_near q z :
  Qabs (q - inject_Z z) < 1 # 2 -> round_half_even q = z.
Proof.
  intros H. apply inject_Z_close.
  pose proof (round_half_even_err q) as E.
  apply Qabs_Qle_condition in E as [E1 E2].
  apply Qabs_Qlt_condition in H as [H1 H2].
  apply Qabs_Qlt_condition. split; lra.
Qed.

Lemma round_half_even_int q z : q == inject_Z z -> round_half_even q = z.
Proof.
  intros E. apply round_half_even_near. rewrite E.
  assert (Z0 : inject_Z z - inject_Z z == 0) by ring.
  rewrite Z0. reflexivity.
Qed.

Lemma round_half_even_nonneg q : 0 <= q -> (0 <= round_half_even q)%Z.
Proof.
  intros H.
  assert (F : (0 <= Qfloor q)%Z).
  { change 0%Z with (Qfloor 0). apply Qfloor_resp_le, H. }
  destruct (round_half_even_cases q) as [[-> _] | [-> _]]; lia.
Qed.

Lemma qzero_iff x : qzero x = true <-> x == 0.
Proof.
  unfold qzero, Qeq. cbn. rewrite Z.eqb_eq. lia.
Qed.

Lemma qneg_iff x : qneg x = true <-> x < 0.
Proof.
  unfold qneg, Qlt. cbn. rewrite Z.ltb_lt. lia.
Qed.

Lemma rnd_zero x : x == 0 -> rnd x = FFin 0.
Proof.
  intros E. unfold rnd. apply qzero_iff in E. rewrite E. reflexivity.
Qed.

Lemma Qred_inject_Z z : Qred (inject_Z z) = inject_Z z.
Proof.
  unfold Qred, inject_Z.
  pose proof (Z.ggcd_gcd z 1) as G.
  pose proof (Z.ggcd_correct_divisors z 1) as D.
  destruct (Z.ggcd z 1) as [g [a b]]. cbn in G, D.
  rewrite Z.gcd_1_r in G. subst g. destruct D as [D1 D2].
  rewrite Z.mul_1_l in D1, D2. subst a b. reflexivity.
Qed.

(** A positive number in the normal range is rounded with a relative
    error of at most [2 ^ -53]. *)
Lemma rnd_err x :
  pow2 (- 1022) <= x -> x < pow2 1023 ->
  exists y, rnd x = FFin y ∧ Qabs (y - x) <= x * pow2 (- 53).
Proof.
  intros Hlo Hhi.
  assert (Hx : 0 < x) by (eapply Qlt_le_trans; [apply pow2_pos | exact Hlo]).
  unfold rnd.
  destruct (qzero x) eqn:Ez.
  { apply qzero_iff in Ez. rewrite Ez in Hx. discriminate. }
  destruct (qneg x) eqn:En.
  { apply qneg_iff in En. lra. }
  assert (Ea : Qabs x == x) by (apply Qabs_pos; lra).
  set (l := ilog2 (Qabs x)).
  assert (Hpos : 0 < Qabs x) by (rewrite Ea; exact Hx).
  destruct (ilog2_spec (Qabs x) Hpos) as [L1 L2]. fold l in L1, L2.
  rewrite Ea in L1, L2.
  assert (Hl : (- 1022 <= l)%Z).
  { assert ((-1022 < l + 1)%Z); [|lia].
    apply pow2_lt_inv. eapply Qle_lt_trans; eassumption. }
  rewrite (Z.max_l (l - 52) (- 1074)) by lia.
  set (e := (l - 52)%Z).
  set (m := round_half_even (Qabs x / pow2 e)).
  pose proof (pow2_pos e) as Pe.
  assert (Herr : Qabs (inject_Z m * pow2 e - x) <= pow2 e * (1 # 2)).
  { pose proof (round_half_even_err (Qabs x / pow2 e)) as E. fold m in E.
    rewrite Ea in E.
    apply Qabs_Qle_condition in E as [E1 E2].
    assert (D : x / pow2 e * pow2 e == x) by (field; lra).
    apply Qabs_Qle_condition. split.
    - assert (T : (- (1 # 2)) * pow2 e <= (inject_Z m - x / pow2 e) * pow2 e).
      { apply Qmult_le_compat_r; lra. }
      lra.
    - assert (T : (inject_Z m - x / pow2 e) * pow2 e <= (1 # 2) * pow2 e).
      { apply Qmult_le_compat_r; lra. }
      lra. }
  assert (Hpe : pow2 e * (1 # 2) <= x * pow2 (- 53)).
  { assert (E1 : pow2 e * (1 # 2) == pow2 l * pow2 (- 53)).
    { unfold e. replace (l - 52)%Z with (l + - 53 + 1)%Z by lia.
      rewrite pow2_succ, pow2_add. ring. }
    rewrite E1. apply Qmult_le_compat_r; [exact L1 | apply Qlt_le_weak, pow2_pos]. }
  assert (Hsmall : pow2 (- 53) <= 1).
  { change 1 with (pow2 0). apply pow2_le. lia. }
  pose proof (pow2_pos (- 53)) as P53.
  assert (Hv : inject_Z m * pow2 e < pow2 1024).
  { apply Qabs_Qle_condition in Herr as [_ E2].
    assert (x * pow2 (- 53) <= x * 1) by (apply Qmult_le_l; [exact Hx | exact Hsmall]).
    assert (pow2 1024 == 2 * pow2 1023) by reflexivity.
    lra. }
  destruct (Qle_bool (pow2 1024) (inject_Z m * pow2 e)) eqn:Eo.
  { apply Qle_bool_iff in Eo. lra. }
  eexists. split; [reflexivity|].
  rewrite Qred_correct. eapply Qle_trans; eassumption.
Qed.

(** Integers below [2 ^ 53] in absolute value are representable. *)
Lemma rnd_int x z :
  x == inject_Z z -> (Z.abs z < 2 ^ 53)%Z -> rnd x = FFin (inject_Z z).
Proof.
  intros E Hz.
  destruct (Z.eq_dec z 0%Z) as [-> | Hnz]; [apply rnd_zero, E|].
  unfold rnd.
  destruct (qzero x) eqn:Ez.
  { apply qzero_iff in Ez. rewrite Ez in E.
    assert (0 = z)%Z by (apply inject_Z_injective; exact E). congruence. }
  assert (Ea : Qabs x == inject_Z (Z.abs z)).
  { rewrite E. reflexivity. }
  set (n := Z.abs z) in *.
  assert (Hn : (0 < n)%Z) by lia.
  set (l := Z.log2 n).
  destruct (Z.log2_spec n Hn) as [N1 N2]. fold l in N1, N2.
  assert (Hl0 : (0 <= l)%Z) by apply Z.log2_nonneg.
  assert (Hl : (l < 53)%Z).
  { apply (Z.pow_lt_mono_r_iff 2); lia. }
  assert (Elog : ilog2 (Qabs x) = l).
  { apply ilog2_unique; rewrite Ea.
    - rewrite pow2_inject by lia. rewrite <- Zle_Qle. exact N1.
    - rewrite pow2_inject by lia. rewrite <- Zlt_Qlt.
      replace (l + 1)%Z with (Z.succ l) by lia. exact N2. }
  rewrite Elog. rewrite (Z.max_l (l - 52) (- 1074)) by lia.
  set (e := (l - 52)%Z).
  assert (Ediv : Qabs x / pow2 e == inject_Z (n * 2 ^ (- e))).
  { rewrite Ea, inject_Z_mult. rewrite <- pow2_inject by lia.
    unfold Qdiv. rewrite pow2_opp. reflexivity. }
  rewrite (round_half_even_int _ _ Ediv).
  assert (Ev : inject_Z (n * 2 ^ (- e)) * pow2 e == inject_Z n).
  { rewrite inject_Z_mult. rewrite <- pow2_inject by lia.
    rewrite <- Qmult_assoc, <- pow2_add.
    replace (- e + e)%Z with 0%Z by lia. change (pow2 0) with 1. ring. }
  destruct (Qle_bool (pow2 1024) _) eqn:Eo.
  { apply Qle_bool_iff in Eo. rewrite Ev in Eo.
    rewrite pow2_inject in Eo by lia. rewrite <- Zle_Qle in Eo.
    assert (2 ^ 53 < 2 ^ 1024)%Z by (apply Z.pow_lt_mono_r; lia). lia. }
  f_equal. rewrite <- (Qred_inject_Z z). apply Qred_complete.
  destruct (qneg x) eqn:En.
  - apply qneg_iff in En. rewrite E in En.
    assert (z < 0)%Z by (rewrite Zlt_Qlt; exact En).
    rewrite Ev. unfold n. rewrite Z.abs_neq by lia.
    rewrite inject_Z_opp. ring.
  - assert (~ x < 0) by (intros C; apply qneg_iff in C; congruence).
    rewrite E in H.
    assert (0 <= z)%Z.
    { destruct (Z.lt_ge_cases z 0) as [C|C]; [|exact C].
      rewrite Zlt_Qlt in C. contradiction. }
    rewrite Ev. unfold n. rewrite Z.abs_eq by lia. reflexivity.
Qed.

End RoundingFacts.

(** ** The model against the machine's floats *)

(** Division, multiplication, addition and subtraction agree with the
    kernel's binary64 operations, also on ties, on subnormal results and at
    the overflow threshold. *)
Example machine_division :
  of_prim (3 / 2.5)%float = fdiv (FFin 3) (FFin (5 # 2))
  ∧ of_prim (30 * 1000 / 1001)%float
    = fdiv (fmul (FFin 30) (FFin 1000)) (FFin 1001)
  ∧ of_prim (123456 / (30 * 1000 / 1001))%float
    = fdiv (FFin 123456) (fdiv (fmul (FFin 30) (FFin 1000)) (FFin 1001))
  ∧ of_prim (0x1p-1074 / 3)%float = fdiv (FFin (pow2 (- 1074))) (FFin 3).
Proof. vm_compute. done. Qed.

Example machine_remainder_step :
  of_prim ((13 / 12.5 - 1) * 12.5)%float
  = fmul (fsub (fdiv (FFin 13) (FFin (25 # 2))) (FFin 1)) (FFin (25 # 2))
  ∧ of_prim ((3 / 2.5 - 1) * 2.5)%float
    = fmul (fsub (fdiv (FFin 3) (FFin (5 # 2))) (FFin 1)) (FFin (5 # 2)).
Proof. vm_compute. done. Qed.

Example machine_range_ends :
  of_prim (0x1.fffffffffffffp1023 + 0x1p970)%float
  = fadd (of_prim 0x1.fffffffffffffp1023%float) (FFin (pow2 970))
  ∧ of_prim (0x1.fffffffffffffp1023 + 0x1p969)%float
    = fadd (of_prim 0x1.fffffffffffffp1023%float) (FFin (pow2 969))
  ∧ of_prim (0x1p-1074 * 0.5)%float = fmul (FFin (pow2 (- 1074))) (FFin (1 # 2))
  ∧ of_prim (0x1p-1074 * 1.5)%float = fmul (FFin (pow2 (- 1074))) (FFin (3 # 2))
  ∧ of_prim (0x1p53 + 1)%float = fadd (FFin (pow2 53)) (FFin 1)
  ∧ of_prim (0x1p53 + 3)%float = fadd (FFin (pow2 53)) (FFin 3).
Proof. vm_compute. done. Qed.

(** ** Decimal text of integers *)

Lemma is_digit_range c : is_digit c = true <-> (48 <= c <= 57)%N.
Proof.
  unfold is_digit. rewrite andb_true_iff, !N.leb_le. reflexivity.
Qed.

Lemma int_body_all_digits ds :
  all_digits ds -> forall prev acc cnt,
  prev = true ∨ ds <> [] ->
  (cnt + N.of_nat (length ds) <= int_max_str_digits)%N ->
  int_body ds prev acc cnt = Some (digits_value ds acc).
Proof.
  induction 1 as [|c r Hc Hr IH]; intros prev acc cnt Hp Hlen.
  - destruct Hp as [-> | Hp]; [|contradiction]. cbn in *.
    rewrite N.add_0_r in Hlen. apply N.leb_le in Hlen. rewrite Hlen. reflexivity.
  - cbn [int_body]. rewrite Hc. cbn [digits_value fold_left].
    apply IH; [left; reflexivity|]. cbn [length] in Hlen. lia.
Qed.

Lemma dec_digits_spec fuel : forall n,
  (1 <= fuel)%nat -> 0 <= n < 2 ^ Z.of_nat fuel ->
  all_digits (dec_digits fuel n) ∧ dec_digits fuel n <> []
  ∧ (length (dec_digits fuel n) <= fuel)%nat
  ∧ digits_value (dec_digits fuel n) 0 = n.
Proof.
  induction fuel as [|k IH]; intros n Hf Hn; [lia|].
  cbn [dec_digits]. destruct (Z.ltb_spec n 10) as [Hlt | Hge].
  - split_and!.
    + constructor; [|constructor]. apply is_digit_range. lia.
    + discriminate.
    + cbn. lia.
    + cbn. rewrite N2Z.inj_sub by lia. rewrite N2Z.inj_add, Z2N.id by lia. lia.
  - assert (Hk : (1 <= k)%nat).
    { destruct k; [|lia]. cbn in Hn. lia. }
    assert (Hq : 0 <= n / 10 < 2 ^ Z.of_nat k).
    { split; [apply Z.div_pos; lia|].
      apply Z.div_lt_upper_bound; [lia|].
      rewrite Nat2Z.inj_succ, Z.pow_succ_r in Hn by lia. lia. }
    destruct (IH (n / 10) Hk Hq) as (A & B & C & D).
    pose proof (Z.mod_pos_bound n 10 ltac:(lia)) as Hm.
    split_and!.
    + apply Forall_app. split; [exact A|].
      constructor; [|constructor]. apply is_digit_range. lia.
    + intros E. apply app_eq_nil in E as [_ E]. discriminate.
    + rewrite length_app. cbn. lia.
    + unfold digits_value in *. rewrite fold_left_app, D. cbn.
      rewrite N2Z.inj_sub by lia. rewrite N2Z.inj_add, Z2N.id by lia.
      rewrite (Z.div_mod n 10) at 3 by lia. lia.
Qed.

Lemma str_of_nonneg_spec n :
  0 <= n ->
  all_digits (str_of_nonneg n) ∧ str_of_nonneg n <> []
  ∧ (Z.of_nat (length (str_of_nonneg n)) <= Z.log2 n + 1)
  ∧ digits_value (str_of_nonneg n) 0 = n.
Proof.
  intros Hn. unfold str_of_nonneg.
  assert (Hl : 0 <= Z.log2 n) by apply Z.log2_nonneg.
  assert (Hb : 0 <= n < 2 ^ Z.of_nat (S (Z.to_nat (Z.log2 n)))).
  { split; [exact Hn|]. rewrite Nat2Z.inj_succ, Z2Nat.id by exact Hl.
    destruct (Z.eq_dec n 0) as [-> | Hnz]; [reflexivity|].
    apply Z.log2_spec. lia. }
  destruct (dec_digits_spec (S (Z.to_nat (Z.log2 n))) n ltac:(lia) Hb)
    as (A & B & C & D).
  split_and!; [exact A | exact B | | exact D].
  apply Nat2Z.inj_le in C. rewrite Nat2Z.inj_succ, Z2Nat.id in C by exact Hl. lia.
Qed.

Lemma digits_value_zeros k ds :
  digits_value (repeat 48%N k ++ ds) 0 = digits_value ds 0.
Proof.
  unfold digits_value. rewrite fold_left_app. f_equal.
  induction k as [|k IH]; [reflexivity | exact IH].
Qed.

Lemma format_02d_spec n :
  0 <= n ->
  all_digits (format_02d n) ∧ format_02d n <> []
  ∧ (Z.of_nat (length (format_02d n)) <= Z.log2 n + 2)
  ∧ digits_value (format_02d n) 0 = n.
Proof.
  intros Hn. unfold format_02d. destruct (Z.ltb_spec n 0) as [|_]; [lia|].
  destruct (str_of_nonneg_spec n Hn) as (A & B & C & D).
  unfold zero_pad. split_and!.
  - apply Forall_app. split; [|exact A].
    apply Forall_forall. intros c Hc. apply list_elem_of_In, repeat_spec in Hc.
    subst c. reflexivity.
  - intros E. apply app_eq_nil in E as [_ E]. contradiction.
  - rewrite length_app, repeat_length. pose proof (Z.log2_nonneg n). lia.
  - rewrite digits_value_zeros. exact D.
Qed.

Lemma all_digits_ascii ds :
  all_digits ds -> List.map to_ascii_decimal ds = ds.
Proof.
  induction 1 as [|c r Hc Hr IH]; [reflexivity|].
  cbn [List.map]. rewrite IH. f_equal.
  apply is_digit_range in Hc. unfold to_ascii_decimal.
  destruct (N.ltb_spec c 127); [reflexivity | lia].
Qed.

(** [int()] reads back what the formatting wrote. *)
Lemma int_of_str_format_02d n :
  0 <= n < 2 ^ 4000 -> int_of_str (format_02d n) = Ok n.
Proof.
  intros Hn. destruct (format_02d_spec n ltac:(lia)) as (A & B & C & D).
  unfold int_of_str. rewrite (all_digits_ascii _ A).
  destruct (format_02d n) as [|c r] eqn:E; [contradiction|].
  pose proof A as A'. apply Forall_cons in A' as [Hc _].
  apply is_digit_range in Hc.
  assert (Hs : skip_c_space (c :: r) = c :: r).
  { cbn. unfold c_isspace.
    destruct (N.leb_spec 9 c), (N.leb_spec c 13), (N.eqb_spec c 32);
      cbn; try reflexivity; lia. }
  rewrite Hs.
  assert (Hsign : (let '(neg, a) :=
                     match c :: r with
                     | 45%N :: r0 => (true, r0)
                     | 43%N :: r0 => (false, r0)
                     | _ => (false, c :: r)
                     end in
                   match int_body a false 0 0 with
                   | Some v => Ok (if neg : bool then - v else v)
                   | None => Raise ValueError
                   end)
                  = match int_body (c :: r) false 0 0 with
                    | Some v => Ok v
                    | None => Raise ValueError
                    end).
  { destruct c as [|p]; [lia|].
    do 7 (destruct p as [p|p|]; try reflexivity; try lia). }
  rewrite Hsign.
  rewrite (int_body_all_digits _ A); [rewrite D; reflexivity | right; discriminate |].
  assert (Z.log2 n < 4000).
  { destruct (Z.eq_dec n 0) as [-> | Hnz]; [reflexivity|].
    apply Z.log2_lt_pow2; lia. }
  unfold int_max_str_digits. lia.
Qed.

(** ** The text of a formatted timecode *)

Lemma lstrip_keeps_nonspace s :
  Exists (fun c => isspace c = false) s -> lstrip s <> [].
Proof.
  induction 1 as [c r Hc | c r _ IH]; cbn.
  - rewrite Hc. discriminate.
  - destruct (isspace c); [exact IH | discriminate].
Qed.

Lemma digit_not_space c : is_digit c = true -> isspace c = false.
Proof.
  intros H. apply is_digit_range in H. unfold isspace.
  repeat match goal with
         | |- context [(?a <=? ?b)%N] => destruct (N.leb_spec a b); try lia
         | |- context [(?a =? ?b)%N] => destruct (N.eqb_spec a b); try lia
         end; reflexivity.
Qed.

Lemma str_split_digits d rest :
  all_digits d ->
  str_split 58 (d ++ 58%N :: rest) = d :: str_split 58 rest.
Proof.
  induction 1 as [|c r Hc Hr IH]; [reflexivity|].
  cbn [app str_split]. apply is_digit_range in Hc.
  destruct (N.eqb_spec c 58); [lia|]. rewrite IH. reflexivity.
Qed.

Lemma str_split_digits_last d :
  all_digits d -> str_split 58 d = [d].
Proof.
  induction 1 as [|c r Hc Hr IH]; [reflexivity|].
  cbn [str_split]. apply is_digit_range in Hc.
  destruct (N.eqb_spec c 58); [lia|]. rewrite IH. reflexivity.
Qed.

Lemma replace_char_absent a b s :
  Forall (fun c => c <> a) s -> replace_char a b s = s.
Proof.
  induction 1 as [|c r Hc Hr IH]; [reflexivity|].
  cbn. unfold replace_char in IH. rewrite IH.
  destruct (N.eqb_spec c a); [contradiction | reflexivity].
Qed.

Lemma digits_no_semicolon d : all_digits d -> Forall (fun c => c <> 59%N) d.
Proof.
  intros H. eapply Forall_impl; [exact H|].
  intros c Hc. apply is_digit_range in Hc. lia.
Qed.

(** Parsing the text of four formatted fields computes with those fields. *)
Lemma timecode_to_frames_text h m s f fps :
  0 <= h < 2 ^ 4000 -> 0 <= m < 2 ^ 4000 ->
  0 <= s < 2 ^ 4000 -> 0 <= f < 2 ^ 4000 ->
  timecode_to_frames (timecode_text h m s f) fps = total_frames h m s f fps.
Proof.
  intros Hh Hm Hs Hf.
  destruct (format_02d_spec h ltac:(lia)) as (Ah & Bh & _ & _).
  destruct (format_02d_spec m ltac:(lia)) as (Am & _ & _ & _).
  destruct (format_02d_spec s ltac:(lia)) as (As & _ & _ & _).
  destruct (format_02d_spec f ltac:(lia)) as (Af & _ & _ & _).
  unfold timecode_to_frames.
  assert (Hne : timecode_text h m s f <> []).
  { unfold timecode_text. destruct (format_02d h); [contradiction | discriminate]. }
  assert (Hex : Exists (fun c => isspace c = false) (timecode_text h m s f)).
  { unfold timecode_text. destruct (format_02d h) as [|c r]; [contradiction|].
    apply Exists_cons_hd. apply digit_not_space.
    apply Forall_cons in Ah as [Hc _]. exact Hc. }
  assert (Hstrip : strip (timecode_text h m s f) <> []).
  { unfold strip, rstrip. intros E.
    apply (f_equal (@rev N)) in E. rewrite rev_involutive in E. cbn in E.
    revert E. apply lstrip_keeps_nonspace.
    apply Exists_exists.
    assert (Hl : lstrip (timecode_text h m s f) = timecode_text h m s f).
    { unfold timecode_text. destruct (format_02d h) as [|c r]; [contradiction|].
      cbn. apply Forall_cons in Ah as [Hc _].
      rewrite (digit_not_space _ Hc). reflexivity. }
    rewrite Hl. apply Exists_exists in Hex as (c & Hin & Hc).
    exists c. split; [|exact Hc].
    apply list_elem_of_In. apply -> in_rev. apply list_elem_of_In. exact Hin. }
  rewrite (bool_decide_eq_false_2 _ Hne), (bool_decide_eq_false_2 _ Hstrip).
  cbn [orb].
  rewrite replace_char_absent.
  2:{ unfold timecode_text.
      repeat (apply Forall_app; split);
        try (apply digits_no_semicolon; assumption);
        repeat constructor; discriminate. }
  unfold timecode_text. cbn [app].
  rewrite !str_split_digits by assumption.
  rewrite str_split_digits_last by assumption.
  rewrite !int_of_str_format_02d by assumption.
  reflexivity.
Qed.

(** ** Exact float steps on integers *)

Section ExactSteps.

Local Open Scope Q_scope.

Lemma float_of_int_exact z :
  (Z.abs z < 2 ^ 53)%Z -> float_of_int z = Ok (FFin (inject_Z z)).
Proof.
  intros Hz. unfold float_of_int.
  rewrite (rnd_int (inject_Z z) z) by (reflexivity || exact Hz). reflexivity.
Qed.

Lemma qneg_nonneg x : 0 <= x -> qneg x = false.
Proof.
  intros H. destruct (qneg x) eqn:E; [|reflexivity].
  apply qneg_iff in E. lra.
Qed.

Lemma qzero_inject z : qzero (inject_Z z) = (z =? 0)%Z.
Proof. reflexivity. Qed.

Lemma Qfloor_unique x k :
  inject_Z k <= x -> x < inject_Z (k + 1) -> Qfloor x = k.
Proof.
  intros H1 H2.
  pose proof (Qfloor_le x) as F1. pose proof (Qlt_floor x) as F2.
  assert (A : inject_Z k < inject_Z (Qfloor x + 1)) by lra.
  assert (B : inject_Z (Qfloor x) < inject_Z (k + 1)) by lra.
  rewrite <- Zlt_Qlt in A, B. lia.
Qed.

Lemma Qfloor_div_int t W :
  (0 < W)%Z -> Qfloor (t / inject_Z W) = (Qfloor t / W)%Z.
Proof.
  intros HW. set (q := Qfloor t). set (k := (q / W)%Z).
  pose proof (Qfloor_le t) as F1. pose proof (Qlt_floor t) as F2.
  fold q in F1, F2.
  assert (HWq : 0 < inject_Z W) by (rewrite Zlt_Qlt in HW; exact HW).
  pose proof (Z.mul_div_le q W HW) as D1.
  pose proof (Z.mul_succ_div_gt q W HW) as D2. fold k in D1, D2.
  assert (A : inject_Z (W * k) <= inject_Z q) by (rewrite <- Zle_Qle; exact D1).
  assert (B : inject_Z (q + 1) <= inject_Z (W * Z.succ k)).
  { rewrite <- Zle_Qle. lia. }
  rewrite inject_Z_mult in A, B. rewrite inject_Z_plus in F2, B.
  apply Qfloor_unique.
  - apply Qle_shift_div_l; [exact HWq|]. lra.
  - apply Qlt_shift_div_r; [exact HWq|].
    replace (k + 1)%Z with (Z.succ k) by lia. lra.
Qed.

Lemma Qfloor_nonneg x : 0 <= x -> (0 <= Qfloor x)%Z.
Proof. intros H. change 0%Z with (Qfloor 0). apply Qfloor_resp_le, H. Qed.

(** C's [fmod] of a non-negative value by a positive whole number. *)
Lemma fmod_nonneg t W :
  0 <= t -> (0 < W)%Z ->
  exists md,
    fmod (FFin t) (FFin (inject_Z W)) = FFin md
    ∧ md == t - inject_Z (W * (Qfloor t / W))
    ∧ 0 <= md ∧ md < inject_Z W
    ∧ Qfloor md = (Qfloor t mod W)%Z.
Proof.
  intros Ht HW. unfold fmod. rewrite qzero_inject.
  destruct (Z.eqb_spec W 0) as [|_]; [lia|].
  assert (HWq : 0 < inject_Z W) by (rewrite Zlt_Qlt in HW; exact HW).
  assert (Hdiv : 0 <= t / inject_Z W).
  { apply Qle_shift_div_l; [exact HWq | lra]. }
  unfold qtrunc. rewrite (qneg_nonneg _ Hdiv). rewrite Qfloor_div_int by exact HW.
  eexists. split; [reflexivity|].
  set (q := Qfloor t). set (k := (q / W)%Z).
  pose proof (Qfloor_le t) as F1. pose proof (Qlt_floor t) as F2.
  fold q in F1, F2.
  pose proof (Z.mul_div_le q W HW) as D1.
  pose proof (Z.mul_succ_div_gt q W HW) as D2. fold k in D1, D2.
  assert (A : inject_Z (W * k) <= inject_Z q) by (rewrite <- Zle_Qle; exact D1).
  assert (B : inject_Z (q + 1) <= inject_Z (W * Z.succ k)).
  { rewrite <- Zle_Qle. lia. }
  assert (Ek : inject_Z (W * Z.succ k) == inject_Z (W * k) + inject_Z W).
  { rewrite <- inject_Z_plus. apply inject_Z_injective. lia. }
  rewrite inject_Z_plus in F2, B.
  assert (Ev : Qred (t - inject_Z W * inject_Z k) == t - inject_Z (W * k)).
  { rewrite Qred_correct, inject_Z_mult. reflexivity. }
  split_and!.
  - exact Ev.
  - rewrite Ev. lra.
  - rewrite Ev. lra.
  - rewrite Ev. apply Qfloor_unique.
    + assert (inject_Z (q mod W) == inject_Z q - inject_Z (W * k)).
      { unfold Qminus. rewrite <- inject_Z_opp, <- inject_Z_plus.
        apply inject_Z_injective. unfold k. rewrite Z.mod_eq by lia. lia. }
      lra.
    + assert (inject_Z (q mod W + 1) == inject_Z q + 1 - inject_Z (W * k)).
      { unfold Qminus. change 1 with (inject_Z 1).
        rewrite <- inject_Z_opp, <- !inject_Z_plus.
        apply inject_Z_injective. unfold k. rewrite Z.mod_eq by lia. lia. }
      change (inject_Z 1) with 1 in F2. lra.
Qed.

(** [x % W] for a non-negative [x] and a positive whole number [W]. *)
Lemma float_rem_nonneg t W :
  0 <= t -> (0 < W)%Z ->
  exists md,
    float_rem (FFin t) (FFin (inject_Z W)) = Ok (FFin md)
    ∧ 0 <= md ∧ md < inject_Z W
    ∧ Qfloor md = (Qfloor t mod W)%Z.
Proof.
  intros Ht HW. unfold float_rem. cbn [is_zero]. rewrite qzero_inject.
  destruct (Z.eqb_spec W 0) as [|_]; [lia|].
  destruct (fmod_nonneg t W Ht HW) as (md & -> & Ev & M1 & M2 & M3).
  cbn [is_zero is_neg]. rewrite (qneg_nonneg md M1).
  assert (Hn : qneg (inject_Z W) = false).
  { apply qneg_nonneg. rewrite Zlt_Qlt in HW. lra. }
  rewrite Hn. cbn [Bool.eqb negb].
  destruct (qzero md) eqn:Ez; cbn [negb].
  - exists 0. apply qzero_iff in Ez. rewrite Ez in M3.
    split_and!; [reflexivity | apply Qle_refl | | exact M3].
    rewrite Zlt_Qlt in HW; exact HW.
  - exists md. split_and!; try assumption. reflexivity.
Qed.

(** [x // W] for a non-negative [x] below [2 ^ 53] and a positive whole
    number [W]: the quotient is exact. *)
Lemma float_floor_div_nonneg t W :
  0 <= t -> (0 < W)%Z -> (Qfloor t < 2 ^ 53)%Z ->
  float_floor_div (FFin t) (FFin (inject_Z W))
  = Ok (FFin (inject_Z (Qfloor t / W))).
Proof.
  intros Ht HW Hb. unfold float_floor_div. cbn [is_zero]. rewrite qzero_inject.
  destruct (Z.eqb_spec W 0) as [|_]; [lia|].
  destruct (fmod_nonneg t W Ht HW) as (md & -> & Ev & M1 & M2 & M3).
  set (q := Qfloor t) in *. set (k := (q / W)%Z) in *.
  assert (Hq : (0 <= q)%Z) by (apply Qfloor_nonneg, Ht).
  assert (Hk : (0 <= k)%Z) by (apply Z.div_pos; lia).
  pose proof (Z.mul_div_le q W HW) as D1. fold k in D1.
  assert (Hwk : (Z.abs (W * k) < 2 ^ 53)%Z).
  { clearbody k q. nia. }
  assert (Hkq : (Z.abs k < 2 ^ 53)%Z).
  { clearbody k q. nia. }
  assert (Hsub : fsub (FFin t) (FFin md) = FFin (inject_Z (W * k))).
  { unfold fsub, fneg, fadd. apply rnd_int; [|exact Hwk].
    rewrite Qred_correct, Ev. ring. }
  rewrite Hsub.
  assert (Hdv : fdiv (FFin (inject_Z (W * k))) (FFin (inject_Z W))
                = FFin (inject_Z k)).
  { unfold fdiv. rewrite qzero_inject.
    destruct (Z.eqb_spec W 0) as [|_]; [lia|].
    apply rnd_int; [|exact Hkq].
    assert (HWq : 0 < inject_Z W) by (rewrite Zlt_Qlt in HW; exact HW).
    rewrite inject_Z_mult. field. lra. }
  rewrite Hdv.
  cbn [is_zero is_neg]. rewrite (qneg_nonneg md M1).
  assert (Hn : qneg (inject_Z W) = false).
  { apply qneg_nonneg. rewrite Zlt_Qlt in HW. lra. }
  rewrite Hn. cbn [Bool.eqb negb]. rewrite andb_false_r.
  cbn [is_zero]. rewrite qzero_inject.
  destruct (Z.eqb_spec k 0) as [-> | Hk0]; [reflexivity|].
  cbn [negb ffloor]. rewrite Qfloor_Z.
  assert (Hz : fsub (FFin (inject_Z k)) (FFin (inject_Z k)) = FFin 0).
  { unfold fsub, fneg, fadd. apply rnd_zero. rewrite Qred_correct. ring. }
  rewrite Hz. reflexivity.
Qed.

Lemma int_of_float_nonneg t :
  0 <= t -> int_of_float (FFin t) = Ok (Qfloor t).
Proof.
  intros Ht. unfold int_of_float, qtrunc. rewrite (qneg_nonneg t Ht). reflexivity.
Qed.

End ExactSteps.

(** ** Formatting a frame count at a whole-number rate *)

Section WholeRate.

Local Open Scope Q_scope.

Variables N F : Z.
Hypothesis HN : (0 <= N < 2 ^ 50)%Z.
Hypothesis HF : (1 <= F < 2 ^ 50)%Z.

Let q : Z := (N / F)%Z.
Let r : Z := (N mod F)%Z.
Let x : Q := inject_Z N / inject_Z F.
Let c : Q := pow2 (- 53).

Local Lemma whole_rate_facts :
  (0 <= q < 2 ^ 50)%Z ∧ (0 <= r < F)%Z ∧ N = (F * q + r)%Z
  ∧ 1 <= inject_Z F ∧ inject_Z F <= inject_Z (2 ^ 50)
  ∧ 0 <= inject_Z N ∧ inject_Z N <= inject_Z (2 ^ 50)
  ∧ x * inject_Z F == inject_Z N
  ∧ x == inject_Z q + inject_Z r / inject_Z F
  ∧ 0 <= x ∧ x <= inject_Z N.
Proof using HN HF.
  assert (Hq : (0 <= q < 2 ^ 50)%Z).
  { unfold q. split; [apply Z.div_pos; lia|].
    apply Z.div_lt_upper_bound; nia. }
  assert (Hr : (0 <= r < F)%Z) by (apply Z.mod_pos_bound; lia).
  assert (HNeq : N = (F * q + r)%Z) by (apply Z.div_mod; lia).
  assert (F1 : 1 <= inject_Z F).
  { change 1 with (inject_Z 1). rewrite <- Zle_Qle. lia. }
  assert (F2 : inject_Z F <= inject_Z (2 ^ 50)) by (rewrite <- Zle_Qle; lia).
  assert (N1 : 0 <= inject_Z N).
  { change 0 with (inject_Z 0). rewrite <- Zle_Qle. lia. }
  assert (N2 : inject_Z N <= inject_Z (2 ^ 50)) by (rewrite <- Zle_Qle; lia).
  assert (X1 : x * inject_Z F == inject_Z N) by (unfold x; field; lra).
  assert (X2 : x == inject_Z q + inject_Z r / inject_Z F).
  { unfold x. rewrite HNeq at 1. rewrite inject_Z_plus, inject_Z_mult.
    field. lra. }
  assert (X3 : 0 <= x).
  { unfold x. apply Qle_shift_div_l; lra. }
  assert (X4 : x <= inject_Z N).
  { unfold x. apply Qle_shift_div_r; [lra|].
    pose proof (Qmult_le_compat_r _ _ (inject_Z N) F1 N1). lra. }
  exact (conj Hq (conj Hr (conj HNeq (conj F1 (conj F2 (conj N1 (conj N2
           (conj X1 (conj X2 (conj X3 X4)))))))))).
Qed.

(** The quotient [frames / fps]: its floor is the whole quotient, and it is
    exact when the division leaves no remainder. *)
Lemma truediv_whole_rate :
  exists t,
    truediv (FFin (inject_Z N)) (FFin (inject_Z F)) = Ok (FFin t)
    ∧ 0 <= t ∧ Qfloor t = q
    ∧ ((r = 0%Z ∧ t == inject_Z q)
       ∨ ((1 <= r)%Z ∧ Qabs (t - x) <= x * c)).
Proof using HN HF.
  destruct whole_rate_facts
    as (Hq & Hr & HNeq & F1 & F2 & N1 & N2 & X1 & X2 & X3 & X4).
  unfold truediv, fdiv. cbn [is_zero]. rewrite qzero_inject.
  destruct (Z.eqb_spec F 0) as [|_]; [lia|]. fold x.
  assert (Hq0 : 0 <= inject_Z q).
  { change 0 with (inject_Z 0). rewrite <- Zle_Qle. lia. }
  destruct (Z.eq_dec r 0%Z) as [Hr0 | Hr0].
  - exists (inject_Z q). split_and!.
    + f_equal. apply rnd_int; [|lia].
      rewrite X2, Hr0. field. lra.
    + exact Hq0.
    + apply Qfloor_Z.
    + left. split; [exact Hr0 | reflexivity].
  - assert (Hr1 : (1 <= r)%Z) by lia.
    assert (R1 : 1 <= inject_Z r).
    { change 1 with (inject_Z 1). rewrite <- Zle_Qle. lia. }
    assert (R2 : inject_Z r <= inject_Z F - 1).
    { change 1 with (inject_Z 1).
      unfold Qminus. rewrite <- inject_Z_opp, <- inject_Z_plus, <- Zle_Qle. lia. }
    set (u := / inject_Z F).
    assert (U0 : 0 < u) by (apply Qinv_lt_0_compat; lra).
    assert (U1 : u * inject_Z F == 1) by (unfold u; field; lra).
    assert (Xu : x == inject_Z q + inject_Z r * u) by (rewrite X2; reflexivity).
    assert (Xn : x == inject_Z N * u) by reflexivity.
    assert (C1 : c == 1 # 9007199254740992) by reflexivity.
    assert (P50 : inject_Z (2 ^ 50) == 1125899906842624) by reflexivity.
    assert (P50' : pow2 (- 50) == 1 # 1125899906842624) by reflexivity.
    assert (Ulo : pow2 (- 50) <= u).
    { unfold u. apply Qle_shift_inv_l; [lra|]. rewrite P50'. lra. }
    assert (U0' : 0 <= u) by lra.
    assert (RU1 : u <= inject_Z r * u).
    { pose proof (Qmult_le_compat_r _ _ u R1 U0'). lra. }
    assert (RU2 : inject_Z r * u <= 1 - u).
    { pose proof (Qmult_le_compat_r _ _ u R2 U0'). lra. }
    assert (Hlo : pow2 (- 1022) <= x).
    { assert (pow2 (- 1022) <= pow2 (- 50)) by (apply pow2_le; lia).
      lra. }
    assert (Hhi : x < pow2 1023).
    { assert (pow2 50 <= pow2 1023) by (apply pow2_le; lia).
      assert (pow2 50 == inject_Z (2 ^ 50)) by reflexivity.
      assert (inject_Z N < inject_Z (2 ^ 50)) by (rewrite <- Zlt_Qlt; lia).
      lra. }
    destruct (rnd_err x Hlo Hhi) as (y & -> & Hy). fold c in Hy.
    assert (NC : inject_Z N * (1 # 9007199254740992) <= 1 # 8) by lra.
    assert (Err : x * c <= u * (1 # 8)).
    { rewrite Xn, C1. pose proof (Qmult_le_compat_r _ _ u NC U0'). lra. }
    pose proof Hy as Hy'. apply Qabs_Qle_condition in Hy' as [Y1 Y2].
    exists y. split_and!.
    + reflexivity.
    + lra.
    + apply Qfloor_unique; [lra|].
      rewrite inject_Z_plus. change (inject_Z 1) with 1. lra.
    + right. split; assumption.
Qed.

(** The frame remainder: [round((t - int(t)) * fps)] is [frames mod fps]. *)
Lemma remaining_frames_whole_rate t :
  0 <= t -> Qfloor t = q ->
  ((r = 0%Z ∧ t == inject_Z q) ∨ ((1 <= r)%Z ∧ Qabs (t - x) <= x * c)) ->
  py_round (fmul (fsub (FFin t) (FFin (inject_Z q))) (FFin (inject_Z F)))
  = Ok r.
Proof using HN HF.
  intros Ht Hfl Hcase.
  destruct whole_rate_facts
    as (Hq & Hr & HNeq & F1 & F2 & N1 & N2 & X1 & X2 & X3 & X4).
  assert (Esub : t + Qred (- inject_Z q) == t - inject_Z q).
  { rewrite Qred_correct. reflexivity. }
  unfold fsub, fneg, fadd.
  destruct Hcase as [[Hr0 Et] | [Hr1 Hy]].
  - rewrite (rnd_zero (t + Qred (- inject_Z q))) by (rewrite Esub, Et; ring).
    unfold fmul. rewrite (rnd_zero (0 * inject_Z F)) by ring.
    cbn [py_round]. rewrite (round_half_even_int 0 0) by reflexivity.
    congruence.
  - assert (R1 : 1 <= inject_Z r).
    { change 1 with (inject_Z 1). rewrite <- Zle_Qle. lia. }
    assert (R2 : inject_Z r <= inject_Z F - 1).
    { change 1 with (inject_Z 1).
      unfold Qminus. rewrite <- inject_Z_opp, <- inject_Z_plus, <- Zle_Qle. lia. }
    set (u := / inject_Z F).
    assert (U0 : 0 < u) by (apply Qinv_lt_0_compat; lra).
    assert (U1 : u * inject_Z F == 1) by (unfold u; field; lra).
    assert (Xu : x == inject_Z q + inject_Z r * u) by (rewrite X2; reflexivity).
    assert (Xn : x == inject_Z N * u) by reflexivity.
    assert (C1 : c == 1 # 9007199254740992) by reflexivity.
    assert (P50 : inject_Z (2 ^ 50) == 1125899906842624) by reflexivity.
    assert (P50' : pow2 (- 50) == 1 # 1125899906842624) by reflexivity.
    assert (Ulo : pow2 (- 50) <= u).
    { unfold u. apply Qle_shift_inv_l; [lra|]. rewrite P50'. lra. }
    assert (U0' : 0 <= u) by lra.
    assert (NC' : inject_Z N * (1 # 9007199254740992) <= 1 # 8) by lra.
    assert (Err : x * c <= u * (1 # 8)).
    { rewrite Xn, C1. pose proof (Qmult_le_compat_r _ _ u NC' U0'). lra. }
    apply Qabs_Qle_condition in Hy as [Y1 Y2].
    assert (RU1 : u <= inject_Z r * u).
    { pose proof (Qmult_le_compat_r _ _ u R1 U0'). lra. }
    assert (RU2 : inject_Z r * u <= 1 - u).
    { pose proof (Qmult_le_compat_r _ _ u R2 U0'). lra. }
    set (phi := t - inject_Z q) in *.
    assert (Phi1 : u * (7 # 8) <= phi) by (unfold phi; lra).
    assert (Phi2 : phi <= 1) by (unfold phi; lra).
    (* phi * F is within 1/8 of r *)
    assert (NQ : inject_Z N == inject_Z F * inject_Z q + inject_Z r).
    { rewrite HNeq at 1. rewrite inject_Z_plus, inject_Z_mult. reflexivity. }
    assert (A0 : phi * inject_Z F == inject_Z r + (t - x) * inject_Z F).
    { unfold phi. lra. }
    assert (NC : inject_Z N * c <= 1 # 8) by (rewrite C1; lra).
    assert (FC : inject_Z F * c <= 1 # 8) by (rewrite C1; lra).
    assert (XF : x * c * inject_Z F == inject_Z N * c).
    { rewrite <- X1. ring. }
    assert (F0 : 0 <= inject_Z F) by lra.
    assert (A1 : - (1 # 8) <= (t - x) * inject_Z F).
    { pose proof (Qmult_le_compat_r _ _ (inject_Z F) Y1 F0). lra. }
    assert (A2 : (t - x) * inject_Z F <= 1 # 8).
    { pose proof (Qmult_le_compat_r _ _ (inject_Z F) Y2 F0). lra. }
    assert (Hlo : pow2 (- 1022) <= t + Qred (- inject_Z q)).
    { rewrite Esub. fold phi.
      assert (pow2 (- 1022) <= pow2 (- 51)) by (apply pow2_le; lia).
      assert (pow2 (- 51) == pow2 (- 50) * (1 # 2)) by reflexivity.
      lra. }
    assert (Hhi : t + Qred (- inject_Z q) < pow2 1023).
    { rewrite Esub. fold phi.
      assert (pow2 0 <= pow2 1022) by (apply pow2_le; lia).
      assert (pow2 1023 == 2 * pow2 1022) by reflexivity.
      change (pow2 0) with 1 in *. lra. }
    destruct (rnd_err _ Hlo Hhi) as (d & -> & Hd).
    rewrite Esub in Hd. fold phi c in Hd.
    apply Qabs_Qle_condition in Hd as [D1 D2].
    unfold fmul.
    set (A := phi * inject_Z F) in *.
    assert (B0 : d * inject_Z F - A == (d - phi) * inject_Z F) by (unfold A; ring).
    assert (C0 : 0 <= c) by (rewrite C1; discriminate).
    assert (AC : A * c <= 1 # 8).
    { assert (AF : A <= inject_Z F) by lra.
      pose proof (Qmult_le_compat_r _ _ c AF C0). lra. }
    assert (Apos : 7 # 8 <= A) by lra.
    assert (PC : phi * c * inject_Z F == A * c) by (unfold A; ring).
    assert (B1 : - (1 # 8) <= d * inject_Z F - A).
    { pose proof (Qmult_le_compat_r _ _ (inject_Z F) D1 F0). lra. }
    assert (B2 : d * inject_Z F - A <= 1 # 8).
    { pose proof (Qmult_le_compat_r _ _ (inject_Z F) D2 F0). lra. }
    set (B := d * inject_Z F) in *.
    assert (Hlo2 : pow2 (- 1022) <= B).
    { assert (pow2 (- 1022) <= pow2 (- 1)) by (apply pow2_le; lia).
      change (pow2 (- 1)) with (1 # 2) in *. lra. }
    assert (Hhi2 : B < pow2 1023).
    { assert (pow2 51 <= pow2 1023) by (apply pow2_le; lia).
      assert (pow2 51 == 2 * inject_Z (2 ^ 50)) by reflexivity.
      lra. }
    destruct (rnd_err _ Hlo2 Hhi2) as (d2 & -> & Hd2). fold c in Hd2.
    apply Qabs_Qle_condition in Hd2 as [E1 E2].
    assert (BC : B * c <= 3 # 16).
    { assert (BF : B <= inject_Z F + 1) by lra.
      pose proof (Qmult_le_compat_r _ _ c BF C0). lra. }
    cbn [py_round]. f_equal. apply round_half_even_near.
    apply Qabs_Qlt_condition. split; lra.
Qed.

End WholeRate.

Section WholeRateFormat.

Local Open Scope Q_scope.

(** Parsing at a whole-number rate is exact while the numbers stay below
    [2 ^ 53]. *)
Lemma total_frames_whole_rate h m s f F :
  let secs := (h * 3600 + m * 60 + s)%Z in
  (Z.abs secs < 2 ^ 53)%Z -> (Z.abs f < 2 ^ 53)%Z ->
  (Z.abs (secs * F) < 2 ^ 53)%Z -> (Z.abs (secs * F + f) < 2 ^ 53)%Z ->
  total_frames h m s f (FFin (inject_Z F)) = Ok (secs * F + f)%Z.
Proof.
  intros secs H1 H2 H3 H4. unfold total_frames. fold secs.
  rewrite (float_of_int_exact secs H1). cbn [mbind result_bind].
  rewrite (float_of_int_exact f H2). cbn [mbind result_bind].
  unfold fmul.
  rewrite (rnd_int (inject_Z secs * inject_Z F) (secs * F))
    by (rewrite ?inject_Z_mult; reflexivity || exact H3).
  unfold fadd.
  rewrite (rnd_int (inject_Z (secs * F) + inject_Z f) (secs * F + f))
    by (rewrite ?inject_Z_plus; reflexivity || exact H4).
  cbn [py_round]. f_equal. apply round_half_even_int. reflexivity.
Qed.

(** The text [frames_to_timecode] writes at a whole-number rate. *)
Lemma frames_to_timecode_whole_rate N F :
  (0 <= N < 2 ^ 50)%Z -> (1 <= F < 2 ^ 50)%Z ->
  frames_to_timecode N (FFin (inject_Z F))
  = Ok (timecode_text (N / F / 3600) (N / F mod 3600 / 60) (N / F mod 60)
                      (N mod F)).
Proof.
  intros HN HF. unfold frames_to_timecode.
  rewrite float_of_int_exact by lia. cbn [mbind result_bind].
  destruct (truediv_whole_rate N F HN HF) as (t & -> & Ht & Hfl & Hcase).
  cbn [mbind result_bind].
  assert (Hq : (0 <= N / F < 2 ^ 50)%Z).
  { split; [apply Z.div_pos; lia|]. apply Z.div_lt_upper_bound; nia. }
  change (FFin 3600) with (FFin (inject_Z 3600)).
  change (FFin 60) with (FFin (inject_Z 60)).
  rewrite (float_floor_div_nonneg t 3600 Ht) by (rewrite ?Hfl; lia).
  cbn [mbind result_bind]. rewrite Hfl.
  assert (K0 : 0 <= inject_Z (N / F / 3600)).
  { change 0 with (inject_Z 0). rewrite <- Zle_Qle. apply Z.div_pos; lia. }
  rewrite (int_of_float_nonneg _ K0), Qfloor_Z. cbn [mbind result_bind].
  destruct (float_rem_nonneg t 3600 Ht ltac:(lia)) as (md1 & -> & M1 & _ & Hm1).
  cbn [mbind result_bind]. rewrite Hfl in Hm1.
  assert (Hmod : (0 <= N / F mod 3600 < 3600)%Z) by (apply Z.mod_pos_bound; lia).
  rewrite (float_floor_div_nonneg md1 60 M1) by (rewrite ?Hm1; lia).
  cbn [mbind result_bind]. rewrite Hm1.
  assert (K1 : 0 <= inject_Z (N / F mod 3600 / 60)).
  { change 0 with (inject_Z 0). rewrite <- Zle_Qle. apply Z.div_pos; lia. }
  rewrite (int_of_float_nonneg _ K1), Qfloor_Z. cbn [mbind result_bind].
  destruct (float_rem_nonneg t 60 Ht ltac:(lia)) as (md2 & -> & M2 & _ & Hm2).
  cbn [mbind result_bind]. rewrite Hfl in Hm2.
  rewrite (int_of_float_nonneg _ M2), Hm2. cbn [mbind result_bind].
  rewrite (int_of_float_nonneg _ Ht), Hfl. cbn [mbind result_bind].
  rewrite float_of_int_exact by lia. cbn [mbind result_bind].
  rewrite (remaining_frames_whole_rate N F HN HF t Ht Hfl Hcase).
  cbn [mbind result_bind]. reflexivity.
Qed.

End WholeRateFormat.

(** At a whole-number frame rate [1 <= fps < 2^50] every operation is exact
    and frame counts below [2^50] come back unchanged. *)
Lemma round_trip_whole_rate (tc : str) (F n : Z) :
  1 <= F < 2 ^ 50 ->
  timecode_to_frames tc (FFin (inject_Z F)) = Ok n ->
  0 <= n < 2 ^ 50 ->
  (text ← frames_to_timecode n (FFin (inject_Z F));
   timecode_to_frames text (FFin (inject_Z F))) = Ok n.
Proof.
  intros HF _ Hn.
  rewrite frames_to_timecode_whole_rate by assumption.
  cbn [mbind result_bind].
  assert (Hq : 0 <= n / F < 2 ^ 50).
  { split; [apply Z.div_pos; lia|]. apply Z.div_lt_upper_bound; nia. }
  assert (Hr : 0 <= n mod F < F) by (apply Z.mod_pos_bound; lia).
  assert (Hh : 0 <= n / F / 3600 <= n / F).
  { split; [apply Z.div_pos; lia|]. apply Z.div_le_upper_bound; lia. }
  assert (Hm : 0 <= n / F mod 3600 / 60 < 60).
  { pose proof (Z.mod_pos_bound (n / F) 3600 ltac:(lia)).
    split; [apply Z.div_pos; lia|]. apply Z.div_lt_upper_bound; lia. }
  assert (Hs : 0 <= n / F mod 60 < 60) by (apply Z.mod_pos_bound; lia).
  assert (Hbig : 2 ^ 50 < 2 ^ 4000) by (apply Z.pow_lt_mono_r; lia).
  rewrite timecode_to_frames_text by lia.
  assert (Esecs : n / F / 3600 * 3600 + n / F mod 3600 / 60 * 60 + n / F mod 60
                  = n / F).
  { generalize (n / F). intros k.
    pose proof (Z.div_mod k 3600 ltac:(lia)).
    pose proof (Z.div_mod (k mod 3600) 60 ltac:(lia)).
    assert (E : k mod 60 = k mod 3600 mod 60).
    { symmetry. apply Z.mod_mod_divide. exists 60. reflexivity. }
    lia. }
  pose proof (Z.div_mod n F ltac:(lia)) as En.
  pose proof (total_frames_whole_rate (n / F / 3600) (n / F mod 3600 / 60)
                (n / F mod 60) (n mod F) F) as T.
  cbv zeta in T. rewrite Esecs in T.
  rewrite T; [f_equal; lia | lia | lia | nia | nia].
Qed.

(** ** Rounding of any non-negative number *)

Section RoundingAbs.

Local Open Scope Q_scope.

(** Below the normal range the error is at most half the smallest
    subnormal. *)
Lemma rnd_err_abs x :
  0 <= x -> x < pow2 1023 ->
  exists y, rnd x = FFin y ∧ 0 <= y
            ∧ Qabs (y - x) <= x * pow2 (- 53) + pow2 (- 1075).
Proof.
  intros Hx0 Hhi.
  pose proof (pow2_pos (- 1075)) as Peta.
  pose proof (pow2_pos (- 53)) as P53.
  destruct (Qlt_le_dec 0 x) as [Hx | Hx'].
  2:{ assert (E : x == 0) by lra. exists 0. rewrite (rnd_zero x E).
      split_and!; [reflexivity | apply Qle_refl |].
      rewrite E. apply Qabs_Qle_condition. split; lra. }
  unfold rnd.
  destruct (qzero x) eqn:Ez.
  { apply qzero_iff in Ez. rewrite Ez in Hx. discriminate. }
  rewrite (qneg_nonneg x Hx0).
  assert (Ea : Qabs x == x) by (apply Qabs_pos; lra).
  set (l := ilog2 (Qabs x)).
  assert (Hpos : 0 < Qabs x) by (rewrite Ea; exact Hx).
  destruct (ilog2_spec (Qabs x) Hpos) as [L1 L2]. fold l in L1, L2.
  rewrite Ea in L1, L2.
  set (e := Z.max (l - 52) (- 1074)).
  set (m := round_half_even (Qabs x / pow2 e)).
  pose proof (pow2_pos e) as Pe.
  assert (Hm : (0 <= m)%Z).
  { apply round_half_even_nonneg. rewrite Ea.
    apply Qle_shift_div_l; [exact Pe | lra]. }
  assert (Hmq : 0 <= inject_Z m).
  { change 0 with (inject_Z 0). rewrite <- Zle_Qle. exact Hm. }
  assert (Herr : Qabs (inject_Z m * pow2 e - x) <= pow2 e * (1 # 2)).
  { pose proof (round_half_even_err (Qabs x / pow2 e)) as E. fold m in E.
    rewrite Ea in E.
    apply Qabs_Qle_condition in E as [E1 E2].
    assert (D : x / pow2 e * pow2 e == x) by (field; lra).
    apply Qabs_Qle_condition. split.
    - assert (T : (- (1 # 2)) * pow2 e <= (inject_Z m - x / pow2 e) * pow2 e).
      { apply Qmult_le_compat_r; lra. }
      lra.
    - assert (T : (inject_Z m - x / pow2 e) * pow2 e <= (1 # 2) * pow2 e).
      { apply Qmult_le_compat_r; lra. }
      lra. }
  assert (Hpe : pow2 e * (1 # 2) <= x * pow2 (- 53) + pow2 (- 1075)).
  { unfold e. destruct (Z.max_spec (l - 52) (- 1074)) as [[Hc ->] | [Hc ->]].
    - assert (E1 : pow2 (- 1074) * (1 # 2) == pow2 (- 1075)) by reflexivity.
      assert (0 <= x * pow2 (- 53)) by (apply Qmult_le_0_compat; lra).
      lra.
    - assert (E1 : pow2 (l - 52) * (1 # 2) == pow2 l * pow2 (- 53)).
      { replace (l - 52)%Z with (l + - 53 + 1)%Z by lia.
        rewrite pow2_succ, pow2_add. ring. }
      rewrite E1.
      assert (pow2 l * pow2 (- 53) <= x * pow2 (- 53)).
      { apply Qmult_le_compat_r; lra. }
      lra. }
  assert (Hsmall : x * pow2 (- 53) <= x * (1 # 2)).
  { apply Qmult_le_l; [exact Hx|]. discriminate. }
  assert (Heta : pow2 (- 1075) <= pow2 1023).
  { apply pow2_le. lia. }
  assert (Hv : inject_Z m * pow2 e < pow2 1024).
  { apply Qabs_Qle_condition in Herr as [_ E2].
    assert (pow2 1024 == 2 * pow2 1023) by reflexivity.
    assert (pow2 (- 1075) <= pow2 1022) by (apply pow2_le; lia).
    assert (pow2 1023 == 2 * pow2 1022) by reflexivity.
    lra. }
  destruct (Qle_bool (pow2 1024) (inject_Z m * pow2 e)) eqn:Eo.
  { apply Qle_bool_iff in Eo. lra. }
  eexists. split; [reflexivity|]. rewrite Qred_correct. split.
  - apply Qmult_le_0_compat; lra.
  - eapply Qle_trans; eassumption.
Qed.

End RoundingAbs.

(** ** The error budget of a round trip *)

Section RoundTripBudget.

Local Open Scope Q_scope.

Lemma Qabs_bounds a b : Qabs a <= b -> - b <= a ∧ a <= b.
Proof. intros H. apply Qabs_Qle_condition in H. exact H. Qed.

Lemma Qmult_bounds a b k :
  - b <= a -> a <= b -> 0 <= k -> - (b * k) <= a * k ∧ a * k <= b * k.
Proof.
  intros H1 H2 Hk. split.
  - pose proof (Qmult_le_compat_r _ _ k H1 Hk). lra.
  - pose proof (Qmult_le_compat_r _ _ k H2 Hk). lra.
Qed.

(** A whole number of [D]-ths, [D] odd, that lies within a half plus less
    than [1/(2D)] of zero lies within [(D - 1)/(2D)] of it. *)
Lemma odd_denominator_gap (b D : Z) (v : Q) :
  (1 <= D <= 1001)%Z -> Z.odd D = true ->
  v * inject_Z D == inject_Z b ->
  - ((1 # 2) + (1 # 4004)) <= v -> v <= (1 # 2) + (1 # 4004) ->
  - ((1 # 2) - (1 # 2002)) <= v ∧ v <= (1 # 2) - (1 # 2002).
Proof.
  intros HD Hodd Hb V1 V2.
  assert (D1 : 1 <= inject_Z D).
  { change 1 with (inject_Z 1). rewrite <- Zle_Qle. lia. }
  assert (D2 : inject_Z D <= 1001).
  { change 1001 with (inject_Z 1001). rewrite <- Zle_Qle. lia. }
  assert (D0 : 0 <= inject_Z D) by lra.
  destruct (Qmult_bounds v _ (inject_Z D) V1 V2 D0) as [B1 B2].
  rewrite Hb in B1, B2.
  assert (Hz : (- (D - 1) <= 2 * b <= D - 1)%Z).
  { assert (Hlt : (- (D + 1) < 2 * b < D + 1)%Z).
    { split; rewrite Zlt_Qlt; rewrite ?inject_Z_opp, ?inject_Z_plus,
        ?inject_Z_mult; change (inject_Z 2) with 2; change (inject_Z 1) with 1;
        lra. }
    apply Z.odd_spec in Hodd. destruct Hodd as [k Hk]. lia. }
  assert (Hq : - (inject_Z D - 1) <= 2 * inject_Z b
               ∧ 2 * inject_Z b <= inject_Z D - 1).
  { assert (E1 : inject_Z (D - 1) == inject_Z D - 1).
    { unfold Z.sub. rewrite inject_Z_plus. reflexivity. }
    assert (E2 : inject_Z (2 * b) == 2 * inject_Z b).
    { rewrite inject_Z_mult. reflexivity. }
    assert (Z1 : inject_Z (- (D - 1)) <= inject_Z (2 * b)).
    { rewrite <- Zle_Qle. lia. }
    assert (Z2 : inject_Z (2 * b) <= inject_Z (D - 1)).
    { rewrite <- Zle_Qle. lia. }
    rewrite inject_Z_opp in Z1. rewrite E1, E2 in Z1. rewrite E1, E2 in Z2.
    split; assumption. }
  destruct Hq as [Q1 Q2]. rewrite <- Hb in Q1, Q2.
  assert (Dpos : 0 < inject_Z D) by lra.
  split.
  - apply (Qmult_le_r _ _ (inject_Z D) Dpos). lra.
  - apply (Qmult_le_r _ _ (inject_Z D) Dpos). lra.
Qed.

(** The arithmetic of [frames_to_timecode] followed by [timecode_to_frames]
    at a rate within one rounding of [P / D], [D] odd and
    [1000/1001 <= P / D]: every rounding of
    the eight floating-point operations is given by its error bound, and
    the final sum lands within a half of the frame count. *)
Lemma round_trip_budget (N sigma rho D P : Z) (phi t d g p w eta : Q) :
  (1 <= D <= 1001)%Z -> Z.odd D = true ->
  (1000 * D <= 1001 * P)%Z -> (P <= 2 ^ 26)%Z ->
  (0 <= N < 2 ^ 32)%Z -> (0 <= sigma)%Z ->
  0 <= eta -> eta <= pow2 (- 60) ->
  Qabs (phi - inject_Z P / inject_Z D)
    <= inject_Z P / inject_Z D * pow2 (- 53) ->
  Qabs (t - inject_Z N / phi) <= inject_Z N / phi * pow2 (- 53) + eta ->
  inject_Z sigma <= t -> t < inject_Z sigma + 1 ->
  Qabs (d - (t - inject_Z sigma)) <= (t - inject_Z sigma) * pow2 (- 53) + eta ->
  Qabs (g - d * phi) <= d * phi * pow2 (- 53) + eta ->
  Qabs (inject_Z rho - g) <= 1 # 2 ->
  Qabs (p - inject_Z sigma * phi) <= inject_Z sigma * phi * pow2 (- 53) + eta ->
  Qabs (w - (p + inject_Z rho)) <= (p + inject_Z rho) * pow2 (- 53) + eta ->
  Qabs (w - inject_Z N) < 1 # 2.
Proof.
  intros HD Hodd HP HP' HN Hsig He0 He Hphi Ht Hs1 Hs2 Hd Hg Hrho Hp Hw.
  assert (C1 : pow2 (- 53) == 1 # 9007199254740992) by reflexivity.
  assert (C2 : pow2 (- 60) == 1 # 1152921504606846976) by reflexivity.
  rewrite C1 in *. rewrite C2 in He.
  set (Nq := inject_Z N) in *. set (Sq := inject_Z sigma) in *.
  set (Rq := inject_Z rho) in *. set (Dq := inject_Z D) in *.
  set (Pq := inject_Z P) in *.
  assert (D1 : 1 <= Dq).
  { unfold Dq. change 1 with (inject_Z 1). rewrite <- Zle_Qle. lia. }
  assert (D2 : Dq <= 1001).
  { unfold Dq. change 1001 with (inject_Z 1001). rewrite <- Zle_Qle. lia. }
  assert (P1 : 1000 * Dq <= 1001 * Pq).
  { unfold Dq, Pq. change 1000 with (inject_Z 1000).
    change 1001 with (inject_Z 1001).
    rewrite <- !inject_Z_mult, <- Zle_Qle. lia. }
  assert (P2 : Pq <= 67108864).
  { unfold Pq. change 67108864 with (inject_Z (2 ^ 26)).
    rewrite <- Zle_Qle. lia. }
  assert (N1 : 0 <= Nq).
  { unfold Nq. change 0 with (inject_Z 0). rewrite <- Zle_Qle. lia. }
  assert (N2 : Nq <= 4294967296).
  { unfold Nq. change 4294967296 with (inject_Z (2 ^ 32)).
    rewrite <- Zle_Qle. lia. }
  assert (S0 : 0 <= Sq).
  { unfold Sq. change 0 with (inject_Z 0). rewrite <- Zle_Qle. lia. }
  (* the rate *)
  assert (F0 : Pq / Dq * Dq == Pq) by (field; lra).
  assert (F1 : 1000 # 1001 <= Pq / Dq) by (apply Qle_shift_div_l; lra).
  assert (F2 : Pq / Dq <= 67108864) by (apply Qle_shift_div_r; lra).
  set (phi0 := Pq / Dq) in *.
  destruct (Qabs_bounds _ _ Hphi) as [Ph1 Ph2].
  assert (Phi1 : 99 # 100 <= phi) by lra.
  assert (Phi2 : phi <= 134217728) by lra.
  assert (Phi0 : 0 <= phi) by lra.
  (* the quotient *)
  assert (X1 : Nq / phi * phi == Nq) by (field; lra).
  assert (X0 : 0 <= Nq / phi) by (apply Qle_shift_div_l; lra).
  set (x := Nq / phi) in *.
  assert (X2 : x <= 2 * Nq).
  { pose proof (Qmult_le_compat_r _ _ x Phi1 X0). lra. }
  destruct (Qabs_bounds _ _ Ht) as [T1 T2].
  assert (T1' : - (x * (1 # 9007199254740992) + (1 # 1152921504606846976))
                <= t - x) by lra.
  assert (T2' : t - x
                <= x * (1 # 9007199254740992) + (1 # 1152921504606846976))
    by lra.
  destruct (Qmult_bounds _ _ phi T1' T2' Phi0) as [TF1 TF2].
  assert (TF : - (1 # 1048576) <= t * phi - Nq ∧ t * phi - Nq <= 1 # 1048576)
    by (split; lra).
  clear TF1 TF2 T1 T2 T1' T2' Ht.
  (* the fraction of a second *)
  set (u := t - Sq) in *.
  assert (U0 : 0 <= u) by (unfold u; lra).
  assert (U1 : u <= 1) by (unfold u; lra).
  assert (UF0 : 0 <= u * phi) by (apply Qmult_le_0_compat; assumption).
  assert (UF1 : u * phi <= phi).
  { pose proof (Qmult_le_compat_r _ _ phi U1 Phi0). lra. }
  assert (UF : u * phi == t * phi - Sq * phi) by (unfold u; ring).
  destruct (Qabs_bounds _ _ Hd) as [Hd1 Hd2].
  assert (Hd1' : - (1 # 4503599627370496) <= d - u) by lra.
  assert (Hd2' : d - u <= 1 # 4503599627370496) by lra.
  destruct (Qmult_bounds _ _ phi Hd1' Hd2' Phi0) as [DF1 DF2].
  assert (DF : d * phi - u * phi == (d - u) * phi) by ring.
  assert (DFb : - (1 # 33554432) <= d * phi - u * phi
                ∧ d * phi - u * phi <= 1 # 33554432) by (split; lra).
  clear DF1 DF2 Hd1 Hd2 Hd1' Hd2' Hd.
  destruct (Qabs_bounds _ _ Hg) as [Hg1 Hg2].
  set (y := Nq - Sq * phi).
  assert (GY : - (1 # 524288) <= g - y ∧ g - y <= 1 # 524288).
  { unfold y. split; lra. }
  (* the whole seconds *)
  assert (SF0 : 0 <= Sq * phi) by (apply Qmult_le_0_compat; assumption).
  assert (SF1 : Sq * phi <= Nq + 1) by lra.
  destruct (Qmult_bounds _ _ Sq Ph1 Ph2 S0) as [SP1 SP2].
  assert (SPe : (phi - phi0) * Sq == Sq * phi - Sq * phi0) by ring.
  assert (SP0 : Sq * phi0 <= 17179869184) by lra.
  set (y0 := Nq - Sq * phi0).
  assert (YY : - (1 # 524288) <= y - y0 ∧ y - y0 <= 1 # 524288).
  { unfold y, y0. split; lra. }
  (* the frame remainder *)
  destruct (Qabs_bounds _ _ Hrho) as [R1 R2].
  set (v := Rq - y0).
  assert (V1 : - ((1 # 2) + (1 # 4004)) <= v) by (unfold v; lra).
  assert (V2 : v <= (1 # 2) + (1 # 4004)) by (unfold v; lra).
  assert (Vb : v * Dq == inject_Z (D * rho - (D * N - P * sigma))).
  { assert (E : Sq * phi0 * Dq == Sq * Pq) by (rewrite <- F0; ring).
    unfold Z.sub.
    rewrite !inject_Z_plus, !inject_Z_opp, !inject_Z_plus, !inject_Z_opp,
      !inject_Z_mult.
    fold Dq Rq Nq Pq Sq. unfold v, y0. lra. }
  destruct (odd_denominator_gap _ D v HD Hodd Vb V1 V2) as [G1 G2].
  (* the sum read back *)
  destruct (Qabs_bounds _ _ Hp) as [Hp1 Hp2].
  destruct (Qabs_bounds _ _ Hw) as [Hw1 Hw2].
  apply Qabs_Qlt_condition. unfold v, y0, y in *. split; lra.
Qed.

End RoundTripBudget.

(** ** Formatting and parsing at any rate *)

Section AnyRate.

Local Open Scope Q_scope.

Lemma qzero_pos x : 0 < x -> qzero x = false.
Proof.
  intros H. destruct (qzero x) eqn:E; [|reflexivity].
  apply qzero_iff in E. rewrite E in H. discriminate.
Qed.

(** The NTSC rate [timebase * 1000.0 / 1001.0] is one rounding away from
    [1000 * timebase / 1001]. *)
Lemma get_fps_from_rate_ntsc (timebase : Z) :
  (1 <= timebase <= 2 ^ 16)%Z ->
  exists phi,
    get_fps_from_rate timebase true = Ok (FFin phi)
    ∧ Qabs (phi - inject_Z (1000 * timebase) / inject_Z 1001)
      <= inject_Z (1000 * timebase) / inject_Z 1001 * pow2 (- 53)
    ∧ 99 # 100 <= phi ∧ phi <= 134217728.
Proof.
  intros Htb. unfold get_fps_from_rate.
  rewrite float_of_int_exact by lia. cbn [mbind result_bind].
  unfold truediv. cbn [is_zero fmul fdiv].
  change (qzero 1001) with false. cbv iota.
  rewrite (rnd_int (inject_Z timebase * 1000) (1000 * timebase))
    by (rewrite ?inject_Z_mult; try ring; lia).
  cbn [fdiv]. change (qzero 1001) with false. cbv iota.
  change 1001 with (inject_Z 1001) at 1.
  set (x := inject_Z (1000 * timebase) / inject_Z 1001).
  assert (P1 : 1000 <= inject_Z (1000 * timebase)).
  { change 1000 with (inject_Z 1000) at 1. rewrite <- Zle_Qle. lia. }
  assert (P2 : inject_Z (1000 * timebase) <= 65536000).
  { change 65536000 with (inject_Z 65536000). rewrite <- Zle_Qle. lia. }
  assert (X1 : 1000 # 1001 <= x).
  { unfold x. apply Qle_shift_div_l; [reflexivity|].
    change (inject_Z 1001) with 1001. lra. }
  assert (X2 : x <= 65536000).
  { unfold x. apply Qle_shift_div_r; [reflexivity|].
    change (inject_Z 1001) with 1001. lra. }
  assert (Hlo : pow2 (- 1022) <= x).
  { assert (pow2 (- 1022) <= pow2 (- 1)) by (apply pow2_le; lia).
    assert (pow2 (- 1) == 1 # 2) by reflexivity. lra. }
  assert (Hhi : x < pow2 1023).
  { assert (pow2 26 <= pow2 1023) by (apply pow2_le; lia).
    assert (pow2 26 == 67108864) by reflexivity. lra. }
  destruct (rnd_err x Hlo Hhi) as (y & -> & Hy).
  exists y. split; [reflexivity|]. split; [exact Hy|].
  assert (C1 : pow2 (- 53) == 1 # 9007199254740992) by reflexivity.
  rewrite C1 in Hy. apply Qabs_Qle_condition in Hy as [Y1 Y2].
  split; lra.
Qed.

(** What [frames_to_timecode] computes at a rate [phi]: the quotient [t],
    the fraction of a second [d] and the frame remainder before rounding
    [g], each within one rounding of its exact value. *)
Lemma frames_to_timecode_any_rate (N : Z) (phi : Q) :
  (0 <= N < 2 ^ 32)%Z -> 99 # 100 <= phi -> phi <= 134217728 ->
  exists t d g,
    frames_to_timecode N (FFin phi)
    = Ok (timecode_text (Qfloor t / 3600) (Qfloor t mod 3600 / 60)
            (Qfloor t mod 60) (round_half_even g))
    ∧ 0 <= t ∧ t <= 17179869184
    ∧ Qabs (t - inject_Z N / phi) <= inject_Z N / phi * pow2 (- 53)
                                      + pow2 (- 1075)
    ∧ Qabs (d - (t - inject_Z (Qfloor t)))
      <= (t - inject_Z (Qfloor t)) * pow2 (- 53) + pow2 (- 1075)
    ∧ 0 <= g ∧ g <= 1073741824
    ∧ Qabs (g - d * phi) <= d * phi * pow2 (- 53) + pow2 (- 1075).
Proof.
  intros HN Phi1 Phi2.
  assert (Phi0 : 0 <= phi) by lra.
  assert (C1 : pow2 (- 53) == 1 # 9007199254740992) by reflexivity.
  assert (Eta : pow2 (- 1075) <= 1 # 1048576).
  { assert (pow2 (- 1075) <= pow2 (- 20)) by (apply pow2_le; lia).
    assert (pow2 (- 20) == 1 # 1048576) by reflexivity. lra. }
  assert (Big : 34359738368 <= pow2 1023).
  { assert (pow2 35 <= pow2 1023) by (apply pow2_le; lia).
    assert (pow2 35 == 34359738368) by reflexivity. lra. }
  pose proof (pow2_pos (- 1075)) as Eta0.
  assert (N1 : 0 <= inject_Z N).
  { change 0 with (inject_Z 0). rewrite <- Zle_Qle. lia. }
  assert (N2 : inject_Z N <= 4294967296).
  { change 4294967296 with (inject_Z (2 ^ 32)). rewrite <- Zle_Qle. lia. }
  unfold frames_to_timecode.
  rewrite float_of_int_exact by lia. cbn [mbind result_bind].
  unfold truediv. cbn [is_zero fdiv].
  rewrite (qzero_pos phi) by lra.
  set (x := inject_Z N / phi).
  assert (X1 : x * phi == inject_Z N) by (unfold x; field; lra).
  assert (X0 : 0 <= x) by (unfold x; apply Qle_shift_div_l; lra).
  assert (X2 : x <= 2 * inject_Z N).
  { pose proof (Qmult_le_compat_r _ _ x Phi1 X0). lra. }
  destruct (rnd_err_abs x X0 ltac:(lra)) as (t & -> & Ht & Herr).
  cbn [mbind result_bind].
  pose proof Herr as Herr'. rewrite C1 in Herr'.
  apply Qabs_Qle_condition in Herr' as [E1 E2].
  assert (T2 : t <= 17179869184) by lra.
  set (sigma := Qfloor t).
  assert (S0 : (0 <= sigma)%Z) by (apply Qfloor_nonneg, Ht).
  pose proof (Qfloor_le t) as Fl1. pose proof (Qlt_floor t) as Fl2.
  fold sigma in Fl1, Fl2.
  assert (S1 : (sigma < 2 ^ 35)%Z).
  { rewrite Zlt_Qlt. change (inject_Z (2 ^ 35)) with 34359738368. lra. }
  change (FFin 3600) with (FFin (inject_Z 3600)).
  change (FFin 60) with (FFin (inject_Z 60)).
  rewrite (float_floor_div_nonneg t 3600 Ht) by (fold sigma; lia).
  cbn [mbind result_bind]. fold sigma.
  assert (K0 : 0 <= inject_Z (sigma / 3600)).
  { change 0 with (inject_Z 0). rewrite <- Zle_Qle. apply Z.div_pos; lia. }
  rewrite (int_of_float_nonneg _ K0), Qfloor_Z. cbn [mbind result_bind].
  destruct (float_rem_nonneg t 3600 Ht ltac:(lia)) as (md1 & -> & M1 & _ & Hm1).
  cbn [mbind result_bind]. fold sigma in Hm1.
  assert (Hmod : (0 <= sigma mod 3600 < 3600)%Z) by (apply Z.mod_pos_bound; lia).
  rewrite (float_floor_div_nonneg md1 60 M1) by (rewrite ?Hm1; lia).
  cbn [mbind result_bind]. rewrite Hm1.
  assert (K1 : 0 <= inject_Z (sigma mod 3600 / 60)).
  { change 0 with (inject_Z 0). rewrite <- Zle_Qle. apply Z.div_pos; lia. }
  rewrite (int_of_float_nonneg _ K1), Qfloor_Z. cbn [mbind result_bind].
  destruct (float_rem_nonneg t 60 Ht ltac:(lia)) as (md2 & -> & M2 & _ & Hm2).
  cbn [mbind result_bind]. fold sigma in Hm2.
  rewrite (int_of_float_nonneg _ M2), Hm2. cbn [mbind result_bind].
  rewrite (int_of_float_nonneg _ Ht). fold sigma. cbn [mbind result_bind].
  rewrite float_of_int_exact by lia. cbn [mbind result_bind].
  (* the fraction of a second *)
  unfold fsub, fneg, fadd.
  assert (Esub : t + Qred (- inject_Z sigma) == t - inject_Z sigma).
  { rewrite Qred_correct. reflexivity. }
  assert (U0 : 0 <= t + Qred (- inject_Z sigma)) by (rewrite Esub; lra).
  assert (U1 : t + Qred (- inject_Z sigma) < pow2 1023).
  { rewrite Esub. rewrite inject_Z_plus in Fl2.
    change (inject_Z 1) with 1 in Fl2. lra. }
  destruct (rnd_err_abs _ U0 U1) as (d & -> & Hd0 & Hd).
  rewrite Esub in Hd.
  pose proof Hd as Hd'. rewrite C1 in Hd'.
  apply Qabs_Qle_condition in Hd' as [D1 D2].
  assert (Dle : d <= 2).
  { rewrite inject_Z_plus in Fl2. change (inject_Z 1) with 1 in Fl2. lra. }
  (* the frame remainder *)
  unfold fmul.
  assert (G0 : 0 <= d * phi) by (apply Qmult_le_0_compat; assumption).
  assert (G1 : d * phi <= 2 * phi).
  { pose proof (Qmult_le_compat_r _ _ phi Dle Phi0). lra. }
  destruct (rnd_err_abs (d * phi) G0 ltac:(lra)) as (g & -> & Hg0 & Hg).
  cbn [py_round mbind result_bind].
  exists t, d, g. split; [reflexivity|].
  pose proof Hg as Hg'. rewrite C1 in Hg'.
  apply Qabs_Qle_condition in Hg' as [Q1 Q2].
  split_and!; try assumption. lra.
Qed.

(** What [timecode_to_frames] computes from whole fields at a rate [phi]:
    the product [p] and the sum [w], each within one rounding of its exact
    value. *)
Lemma total_frames_any_rate (h m s f : Z) (phi : Q) :
  let secs := (h * 3600 + m * 60 + s)%Z in
  (0 <= secs < 2 ^ 35)%Z -> (0 <= f < 2 ^ 35)%Z ->
  0 <= phi -> phi <= 134217728 ->
  exists p w,
    total_frames h m s f (FFin phi) = Ok (round_half_even w)
    ∧ Qabs (p - inject_Z secs * phi)
      <= inject_Z secs * phi * pow2 (- 53) + pow2 (- 1075)
    ∧ Qabs (w - (p + inject_Z f))
      <= (p + inject_Z f) * pow2 (- 53) + pow2 (- 1075).
Proof.
  intros secs Hs Hf Phi0 Phi2.
  assert (C1 : pow2 (- 53) == 1 # 9007199254740992) by reflexivity.
  assert (Eta : pow2 (- 1075) <= 1 # 1048576).
  { assert (pow2 (- 1075) <= pow2 (- 20)) by (apply pow2_le; lia).
    assert (pow2 (- 20) == 1 # 1048576) by reflexivity. lra. }
  assert (Big : pow2 70 <= pow2 1023) by (apply pow2_le; lia).
  assert (B70 : pow2 70 == 1180591620717411303424) by reflexivity.
  unfold total_frames. fold secs.
  rewrite (float_of_int_exact secs) by lia. cbn [mbind result_bind].
  rewrite (float_of_int_exact f) by lia. cbn [mbind result_bind].
  assert (S0 : 0 <= inject_Z secs).
  { change 0 with (inject_Z 0). rewrite <- Zle_Qle. lia. }
  assert (S1 : inject_Z secs <= 34359738368).
  { change 34359738368 with (inject_Z (2 ^ 35)). rewrite <- Zle_Qle. lia. }
  assert (F0 : 0 <= inject_Z f).
  { change 0 with (inject_Z 0). rewrite <- Zle_Qle. lia. }
  assert (F1 : inject_Z f <= 34359738368).
  { change 34359738368 with (inject_Z (2 ^ 35)). rewrite <- Zle_Qle. lia. }
  unfold fmul.
  assert (P0 : 0 <= inject_Z secs * phi) by (apply Qmult_le_0_compat; assumption).
  assert (P1 : inject_Z secs * phi <= 34359738368 * phi).
  { pose proof (Qmult_le_compat_r _ _ phi S1 Phi0). lra. }
  destruct (rnd_err_abs _ P0 ltac:(lra)) as (p & -> & Hp0 & Hp).
  unfold fadd.
  pose proof Hp as Hp'. rewrite C1 in Hp'.
  apply Qabs_Qle_condition in Hp' as [Q1 Q2].
  assert (W0 : 0 <= p + inject_Z f) by lra.
  destruct (rnd_err_abs _ W0 ltac:(lra)) as (w & -> & Hw0 & Hw).
  cbn [py_round]. exists p, w. split_and!; [reflexivity | exact Hp | exact Hw].
Qed.

End AnyRate.

(** C8 (as the code has it).  At every rate [get_fps_from_rate] yields for
    a timebase from 1 to 65536 (the whole-number rate, or its NTSC variant
    [timebase * 1000 / 1001]), for every timecode that parses to a frame
    count [0 <= n < 2^32], formatting that frame count and parsing the
    text again gives the same frame count. *)
Theorem timecode_round_trip_template_rates
  (tc : str) (timebase : Z) (ntsc : bool) (fps : float) (n : Z) :
  1 <= timebase <= 2 ^ 16 ->
  get_fps_from_rate timebase ntsc = Ok fps ->
  timecode_to_frames tc fps = Ok n ->
  0 <= n < 2 ^ 32 ->
  (text ← frames_to_timecode n fps; timecode_to_frames text fps) = Ok n.
Proof.
  intros Htb Hfps Hparse Hn. destruct ntsc.
  - destruct (get_fps_from_rate_ntsc timebase Htb)
      as (phi & Efps & Hphi & Phi1 & Phi2).
    rewrite Efps in Hfps. injection Hfps as <-.
    destruct (frames_to_timecode_any_rate n phi Hn Phi1 Phi2)
      as (t & d & g & -> & Ht & T2 & Herr & Hd & Hg0 & G2 & Hg).
    cbn [mbind result_bind].
    set (sigma := Qfloor t) in *. set (rho := round_half_even g).
    assert (S0 : 0 <= sigma) by (apply Qfloor_nonneg, Ht).
    pose proof (Qfloor_le t) as Fl1. pose proof (Qlt_floor t) as Fl2.
    fold sigma in Fl1, Fl2.
    assert (S1 : sigma < 2 ^ 35).
    { rewrite Zlt_Qlt. change (inject_Z (2 ^ 35)) with 34359738368%Q.
      apply Qle_lt_trans with (y := t); [exact Fl1|].
      apply Qle_lt_trans with (y := 17179869184%Q); [exact T2 | reflexivity]. }
    assert (R0 : 0 <= rho) by (apply round_half_even_nonneg, Hg0).
    pose proof (round_half_even_err g) as Hrho. fold rho in Hrho.
    assert (R1 : rho < 2 ^ 35).
    { rewrite Zlt_Qlt. change (inject_Z (2 ^ 35)) with 34359738368%Q.
      apply Qabs_Qle_condition in Hrho as [_ Hr]. lra. }
    assert (Hh : 0 <= sigma / 3600 <= sigma).
    { split; [apply Z.div_pos; lia|]. apply Z.div_le_upper_bound; lia. }
    assert (Hm : 0 <= sigma mod 3600 / 60 < 60).
    { pose proof (Z.mod_pos_bound sigma 3600 ltac:(lia)).
      split; [apply Z.div_pos; lia|]. apply Z.div_lt_upper_bound; lia. }
    assert (Hs : 0 <= sigma mod 60 < 60) by (apply Z.mod_pos_bound; lia).
    assert (Hbig : 2 ^ 35 < 2 ^ 4000) by (apply Z.pow_lt_mono_r; lia).
    rewrite timecode_to_frames_text by lia.
    assert (Esecs : sigma / 3600 * 3600 + sigma mod 3600 / 60 * 60
                    + sigma mod 60 = sigma).
    { generalize sigma. intros k.
      pose proof (Z.div_mod k 3600 ltac:(lia)).
      pose proof (Z.div_mod (k mod 3600) 60 ltac:(lia)).
      assert (E : k mod 60 = k mod 3600 mod 60).
      { symmetry. apply Z.mod_mod_divide. exists 60. reflexivity. }
      lia. }
    pose proof (total_frames_any_rate (sigma / 3600) (sigma mod 3600 / 60)
                  (sigma mod 60) rho phi) as T.
    cbv zeta in T. rewrite Esecs in T.
    destruct T as (p & w & -> & Hp & Hw); [lia | lia | lra | exact Phi2 |].
    f_equal. apply round_half_even_near.
    apply (round_trip_budget n sigma rho 1001 (1000 * timebase)
             phi t d g p w (pow2 (- 1075))); try assumption; try lia.
    + reflexivity.
    + apply Qlt_le_weak, pow2_pos.
    + apply pow2_le. lia.
    + rewrite inject_Z_plus in Fl2. exact Fl2.
  - unfold get_fps_from_rate in Hfps.
    rewrite float_of_int_exact in Hfps by lia.
    cbn [mbind result_bind] in Hfps. injection Hfps as <-.
    apply (round_trip_whole_rate tc timebase n); [lia | exact Hparse | lia].
Qed.

Lemma timecode_round_trip_template_rates_witness :
  get_fps_from_rate 30 true = Ok (FFin (1054476685978981 # 35184372088832))
  ∧ timecode_to_frames (lit "01:08:35:06")
      (FFin (1054476685978981 # 35184372088832)) = Ok 123333
  ∧ (text ← frames_to_timecode 123333
               (FFin (1054476685978981 # 35184372088832));
     timecode_to_frames text (FFin (1054476685978981 # 35184372088832)))
    = Ok 123333.
Proof.
  split; [vm_compute; reflexivity|].
  split; [vm_compute; reflexivity|].
  apply (timecode_round_trip_template_rates (lit "01:08:35:06") 30 true).
  - lia.
  - vm_compute. reflexivity.
  - vm_compute. reflexivity.
  - lia.
Defined.

(** At 12.5 frames per second the timecode 00:00:00:13 parses to frame 13,
    frame 13 is written as 00:00:01:01, and that text parses to frame 14. *)
Lemma timecode_round_trip_fails_at_half_rate :
  timecode_to_frames (lit "00:00:00:13") (FFin (25 # 2)) = Ok 13
  ∧ frames_to_timecode 13 (FFin (25 # 2)) = Ok (lit "00:00:01:01")
  ∧ timecode_to_frames (lit "00:00:01:01") (FFin (25 # 2)) = Ok 14
  ∧ (n ← timecode_to_frames (lit "00:00:00:13") (FFin (25 # 2));
     text ← frames_to_timecode n (FFin (25 # 2));
     timecode_to_frames text (FFin (25 # 2)))
    <> timecode_to_frames (lit "00:00:00:13") (FFin (25 # 2)).
Proof.
  split_and!; try (vm_compute; reflexivity). vm_compute. discriminate.
Qed.

(** ** Sign of the parsed frame count *)

Lemma rnd_nonneg x : (0 <= x)%Q -> fl_nonneg (rnd x).
Proof.
  intros Hx. unfold rnd. destruct (qzero x); [apply Qle_refl|].
  rewrite (qneg_nonneg x Hx).
  set (e := Z.max _ _). set (m := round_half_even _).
  assert (Hm : 0 <= m).
  { apply round_half_even_nonneg. apply Qle_shift_div_l; [apply pow2_pos|].
    rewrite Qmult_0_l. apply Qabs_nonneg. }
  destruct (Qle_bool _ _); [reflexivity|]. cbn.
  rewrite Qred_correct. apply Qmult_le_0_compat.
  - change 0%Q with (inject_Z 0). rewrite <- Zle_Qle. exact Hm.
  - apply Qlt_le_weak, pow2_pos.
Qed.

Lemma fmul_nonneg x y : fl_nonneg x -> fl_nonneg y -> fl_nonneg (fmul x y).
Proof.
  destruct x as [a | sa |], y as [b | sb |]; cbn; intros Hx Hy; try exact I.
  - apply rnd_nonneg, Qmult_le_0_compat; assumption.
  - destruct (qzero a); [exact I|]. subst sb. rewrite (qneg_nonneg a Hx). reflexivity.
  - destruct (qzero b); [exact I|]. subst sa. rewrite (qneg_nonneg b Hy). reflexivity.
  - subst. reflexivity.
Qed.

Lemma fadd_nonneg x y : fl_nonneg x -> fl_nonneg y -> fl_nonneg (fadd x y).
Proof.
  destruct x as [a | sa |], y as [b | sb |]; cbn; intros Hx Hy;
    try exact I; try assumption.
  - apply rnd_nonneg. apply (Qplus_le_compat 0 a 0 b); assumption.
  - subst. reflexivity.
Qed.

Lemma float_of_int_nonneg z x :
  0 <= z -> float_of_int z = Ok x -> fl_nonneg x.
Proof.
  intros Hz. unfold float_of_int.
  assert (H : fl_nonneg (rnd (inject_Z z))).
  { apply rnd_nonneg. change 0%Q with (inject_Z 0). rewrite <- Zle_Qle. exact Hz. }
  destruct (rnd (inject_Z z)); intros E; try discriminate;
    injection E as <-; exact H.
Qed.

Lemma py_round_nonneg x n : fl_nonneg x -> py_round x = Ok n -> 0 <= n.
Proof.
  destruct x as [a | sa |]; cbn; intros Hx E; try discriminate.
  injection E as <-. apply round_half_even_nonneg, Hx.
Qed.

Lemma total_frames_nonneg h m s f fps n :
  0 <= h -> 0 <= m -> 0 <= s -> 0 <= f -> fl_nonneg fps ->
  total_frames h m s f fps = Ok n -> 0 <= n.
Proof.
  intros Hh Hm Hs Hf Hfps. unfold total_frames.
  destruct (float_of_int (h * 3600 + m * 60 + s)) as [secs|] eqn:E1; [|discriminate].
  cbn [mbind result_bind].
  destruct (float_of_int f) as [fr|] eqn:E2; [|discriminate].
  cbn [mbind result_bind].
  apply py_round_nonneg, fadd_nonneg.
  - apply fmul_nonneg; [|exact Hfps].
    eapply float_of_int_nonneg; [|exact E1]. lia.
  - eapply float_of_int_nonneg; [|exact E2]. exact Hf.
Qed.

Lemma int_of_str_error p e : int_of_str p = Raise e -> e = ValueError.
Proof.
  unfold int_of_str.
  destruct (match skip_c_space (List.map to_ascii_decimal p) with
            | 45%N :: r => (true, r)
            | 43%N :: r => (false, r)
            | _ => (false, skip_c_space (List.map to_ascii_decimal p))
            end) as [neg a].
  destruct (int_body a false 0 0); [discriminate|]. congruence.
Qed.

(** X29.  The cases of [timecode_to_frames].  It returns 0 for empty or
    blank text and for any number of fields other than 2, 3 or 4; for 2, 3
    or 4 fields (split on ':' and ';') that are all integer literals it
    returns [round((H*3600 + M*60 + S)*fps + F)], the missing leading
    fields being 0, which at a whole-number rate is exactly that integer
    and, for non-negative fields and a non-negative rate, is never
    negative; when a field is not an integer literal it raises
    [ValueError]. *)
Theorem timecode_to_frames_cases (tc : str) (fps : float) :
  let parts := str_split 58 (replace_char 59 58 tc) in
  (strip tc = [] -> timecode_to_frames tc fps = Ok 0)
  ∧ (strip tc <> [] -> (length parts < 2 ∨ 4 < length parts)%nat ->
     timecode_to_frames tc fps = Ok 0)
  ∧ (strip tc <> [] -> forall p0 p1 p2 p3 h m s f,
       parts = [p0; p1; p2; p3] ->
       int_of_str p0 = Ok h -> int_of_str p1 = Ok m ->
       int_of_str p2 = Ok s -> int_of_str p3 = Ok f ->
       timecode_to_frames tc fps = total_frames h m s f fps)
  ∧ (strip tc <> [] -> forall p1 p2 p3 m s f,
       parts = [p1; p2; p3] ->
       int_of_str p1 = Ok m -> int_of_str p2 = Ok s -> int_of_str p3 = Ok f ->
       timecode_to_frames tc fps = total_frames 0 m s f fps)
  ∧ (strip tc <> [] -> forall p2 p3 s f,
       parts = [p2; p3] ->
       int_of_str p2 = Ok s -> int_of_str p3 = Ok f ->
       timecode_to_frames tc fps = total_frames 0 0 s f fps)
  ∧ (strip tc <> [] -> (2 <= length parts <= 4)%nat ->
     Exists (fun p => is_ok (int_of_str p) = false) parts ->
     timecode_to_frames tc fps = Raise ValueError)
  ∧ (forall h m s f F,
       Z.abs (h * 3600 + m * 60 + s) < 2 ^ 53 -> Z.abs f < 2 ^ 53 ->
       Z.abs ((h * 3600 + m * 60 + s) * F) < 2 ^ 53 ->
       Z.abs ((h * 3600 + m * 60 + s) * F + f) < 2 ^ 53 ->
       total_frames h m s f (FFin (inject_Z F))
       = Ok ((h * 3600 + m * 60 + s) * F + f))
  ∧ (forall h m s f n,
       0 <= h -> 0 <= m -> 0 <= s -> 0 <= f -> fl_nonneg fps ->
       total_frames h m s f fps = Ok n -> 0 <= n).
Proof.
  intros parts.
  assert (Hblank : strip tc <> [] ->
            bool_decide (tc = []) || bool_decide (strip tc = []) = false).
  { intros Hs. rewrite (bool_decide_eq_false_2 _ Hs), orb_false_r.
    apply bool_decide_eq_false_2. intros ->. apply Hs. reflexivity. }
  split_and!.
  - intros Hs. unfold timecode_to_frames.
    rewrite (bool_decide_eq_true_2 _ Hs), orb_true_r. reflexivity.
  - intros Hs Hlen. unfold timecode_to_frames. rewrite (Hblank Hs).
    fold parts. destruct parts as [|a [|b [|c [|d [|e l]]]]]; cbn in Hlen;
      try reflexivity; lia.
  - intros Hs p0 p1 p2 p3 h m s f Hp H0 H1 H2 H3.
    unfold timecode_to_frames. rewrite (Hblank Hs). fold parts.
    rewrite Hp, H0, H1, H2, H3. reflexivity.
  - intros Hs p1 p2 p3 m s f Hp H1 H2 H3.
    unfold timecode_to_frames. rewrite (Hblank Hs). fold parts.
    rewrite Hp, H1, H2, H3. reflexivity.
  - intros Hs p2 p3 s f Hp H2 H3.
    unfold timecode_to_frames. rewrite (Hblank Hs). fold parts.
    rewrite Hp, H2, H3. reflexivity.
  - intros Hs Hlen Hex. unfold timecode_to_frames. rewrite (Hblank Hs).
    fold parts.
    destruct parts as [|a [|b [|c [|d [|e l]]]]]; cbn in Hlen; try lia;
      repeat match goal with
             | H : Exists _ (_ :: _) |- _ => apply Exists_cons in H as [H | H]
             | H : Exists _ [] |- _ => apply Exists_nil in H; contradiction
             end;
      repeat match goal with
             | |- context [int_of_str ?p] =>
                 let E := fresh "E" in
                 destruct (int_of_str p) as [?|?] eqn:E;
                 [| apply int_of_str_error in E; subst ];
                 cbn [mbind result_bind is_ok] in *
             end;
      try reflexivity; try discriminate.
  - intros h m s f F. apply total_frames_whole_rate.
  - intros h m s f n. apply total_frames_nonneg.
Qed.

Lemma timecode_to_frames_cases_witness :
  timecode_to_frames (lit "00:01:00:00") (FFin 24) = Ok 1440
  ∧ timecode_to_frames (lit "  ") (FFin 24) = Ok 0
  ∧ timecode_to_frames (lit "1:2:3:4:5") (FFin 24) = Ok 0
  ∧ timecode_to_frames (lit "01:xx") (FFin 24) = Raise ValueError.
Proof.
  destruct (timecode_to_frames_cases (lit "00:01:00:00") (FFin 24))
    as (_ & _ & H4 & _).
  destruct (timecode_to_frames_cases (lit "  ") (FFin 24)) as (Hb & _).
  destruct (timecode_to_frames_cases (lit "1:2:3:4:5") (FFin 24))
    as (_ & Hn & _).
  destruct (timecode_to_frames_cases (lit "01:xx") (FFin 24))
    as (_ & _ & _ & _ & _ & He & _).
  split_and!.
  - rewrite (H4 ltac:(vm_compute; discriminate)
               (lit "00") (lit "01") (lit "00") (lit "00") 0 1 0 0);
      try (vm_compute; reflexivity).
  - apply Hb. vm_compute. reflexivity.
  - apply Hn; [vm_compute; discriminate | vm_compute; lia].
  - apply He; [vm_compute; discriminate | vm_compute; lia |].
    apply Exists_cons_tl, Exists_cons_hd. vm_compute. reflexivity.
Defined.

(** C3.  Malformed text is not always turned into frame 0.  Blank text
    and text with a wrong number of fields ("abcd", "a:b:c:d:e") give 0,
    but text with 2, 3 or 4 fields that are not integers makes
    [timecode_to_frames] raise [ValueError], and the segment builder with
    it; a negative field gives a negative frame count. *)
Theorem timecode_to_frames_raises_on_letters :
  timecode_to_frames (lit "") (FFin 30) = Ok 0
  ∧ timecode_to_frames (lit "   ") (FFin 30) = Ok 0
  ∧ timecode_to_frames (lit "abcd") (FFin 30) = Ok 0
  ∧ timecode_to_frames (lit "a:b:c:d:e") (FFin 30) = Ok 0
  ∧ timecode_to_frames (lit "ab:cd") (FFin 30) = Raise ValueError
  ∧ timecode_to_frames (lit "00:00:xx:00") (FFin 30) = Raise ValueError
  ∧ build_segments
      [Scenario.row "Tamaru" "Violet" "ab:cd" "00:00:05:00"] (FFin 30)
    = Raise ValueError
  ∧ timecode_to_frames (lit "-1:00") (FFin 30) = Ok (- 30).
Proof. split_and!; vm_compute; reflexivity. Qed.

(* ===================================================================== *)
(** * Further properties of the code                                      *)
(* ===================================================================== *)

(** ** When the segment builder returns and when it raises *)

Lemma float_of_int_error z e : float_of_int z = Raise e -> e = OverflowError.
Proof.
  unfold float_of_int. destruct (rnd (inject_Z z)); intros H; congruence.
Qed.

Lemma py_round_error x e :
  py_round x = Raise e -> e = ValueError ∨ e = OverflowError.
Proof.
  destruct x; cbn; intros H; try discriminate; injection H as <-; auto.
Qed.

Lemma total_frames_error h m s f fps e :
  total_frames h m s f fps = Raise e -> e = ValueError ∨ e = OverflowError.
Proof.
  unfold total_frames. intros H.
  destruct (float_of_int (h * 3600 + m * 60 + s)) as [a|e1] eqn:E1.
  2:{ cbn in H. injection H as <-. right. eapply float_of_int_error, E1. }
  destruct (float_of_int f) as [b|e2] eqn:E2.
  2:{ cbn in H. injection H as <-. right. eapply float_of_int_error, E2. }
  cbn in H. eapply py_round_error, H.
Qed.

Lemma bind_int_error {A} p (k : Z -> result A) e :
  (forall v e', k v = Raise e' -> e' = ValueError ∨ e' = OverflowError) ->
  (v ← int_of_str p; k v) = Raise e -> e = ValueError ∨ e = OverflowError.
Proof.
  intros Hk H. destruct (int_of_str p) as [v|e1] eqn:E; cbn in H.
  - eapply Hk, H.
  - injection H as <-. left. eapply int_of_str_error, E.
Qed.

Lemma timecode_to_frames_error tc fps e :
  timecode_to_frames tc fps = Raise e -> e = ValueError ∨ e = OverflowError.
Proof.
  unfold timecode_to_frames.
  destruct (_ || _); [discriminate|].
  destruct (str_split 58 (replace_char 59 58 tc)) as [|p0 [|p1 [|p2 [|p3 [|p4 l]]]]];
    try discriminate; intros H.
  - revert H. apply bind_int_error. intros v0 e0.
    apply bind_int_error. intros v1 e1. apply total_frames_error.
  - revert H. apply bind_int_error. intros v0 e0.
    apply bind_int_error. intros v1 e1.
    apply bind_int_error. intros v2 e2. apply total_frames_error.
  - revert H. apply bind_int_error. intros v0 e0.
    apply bind_int_error. intros v1 e1.
    apply bind_int_error. intros v2 e2.
    apply bind_int_error. intros v3 e3. apply total_frames_error.
Qed.

(** One step of the builder on a consistent state: it returns when the row
    parses, and otherwise raises the error of the first timecode that does
    not parse. *)
Lemma step_outcome fps st row :
  consistent st ->
  match step fps st row with
  | Ok _ => row_parses fps row = true
  | Raise e =>
      row_parses fps row = false
      ∧ row_complete row = true
      ∧ (timecode_to_frames (in_timecode row) fps = Raise e
         ∨ (is_ok (timecode_to_frames (in_timecode row) fps) = true
            ∧ timecode_to_frames (out_timecode row) fps = Raise e))
  end.
Proof.
  intros Hc. unfold step, row_parses, row_complete.
  destruct (is_gap row).
  - destruct (missing _ || missing _); [reflexivity|]. cbn [negb orb].
    destruct (timecode_to_frames (in_timecode row) fps) as [i|e1];
      cbn [mbind result_bind is_ok andb]; [|auto].
    destruct (timecode_to_frames (out_timecode row) fps) as [o|e2];
      cbn [mbind result_bind is_ok andb]; [|auto].
    destruct (_ <=? _); reflexivity.
  - destruct (missing _ || missing _ || missing _); [reflexivity|].
    cbn [negb orb].
    destruct (timecode_to_frames (in_timecode row) fps) as [i|e1];
      cbn [mbind result_bind is_ok andb]; [|auto].
    destruct (timecode_to_frames (out_timecode row) fps) as [o|e2];
      cbn [mbind result_bind is_ok andb]; [|auto].
    destruct (_ <=? _); [reflexivity|].
    destruct (negb (bool_decide (current_color st = Some (color row)))) eqn:En;
      [reflexivity|].
    apply negb_false_iff, bool_decide_eq_true_1 in En.
    unfold consistent in Hc. rewrite En in Hc.
    destruct (current_block st); [reflexivity | contradiction].
Qed.

Lemma run_outcome fps rows : forall st,
  consistent st ->
  match run fps st rows with
  | Ok _ => forallb (row_parses fps) rows = true
  | Raise e =>
      exists before row after,
        rows = before ++ row :: after
        ∧ forallb (row_parses fps) before = true
        ∧ row_complete row = true
        ∧ (timecode_to_frames (in_timecode row) fps = Raise e
           ∨ (is_ok (timecode_to_frames (in_timecode row) fps) = true
              ∧ timecode_to_frames (out_timecode row) fps = Raise e))
  end.
Proof.
  induction rows as [|r rows IH]; intros st Hc; [reflexivity|].
  cbn [run]. pose proof (step_outcome fps st r Hc) as Hs.
  destruct (step fps st r) as [st1|e] eqn:Es; cbn [mbind result_bind].
  - assert (Hc1 : consistent st1) by (eapply step_consistent; eassumption).
    specialize (IH st1 Hc1).
    destruct (run fps st1 rows) as [st2|e].
    + cbn [forallb]. rewrite Hs, IH. reflexivity.
    + destruct IH as (before & row & after & -> & Hb & Hrc & Hraise).
      exists (r :: before), row, after. cbn [forallb]. rewrite Hs, Hb.
      split_and!; [reflexivity | reflexivity | exact Hrc | exact Hraise].
  - destruct Hs as (_ & Hrc & Hraise).
    exists [], r, rows. split_and!; [reflexivity | reflexivity | exact Hrc | exact Hraise].
Qed.

(** X1.  build_segments returns exactly when every row that has its required
    fields has two timecodes that parse. *)
Theorem build_segments_returns_iff (rows : list CsvRow) (fps : float) :
  is_ok (build_segments rows fps) = forallb (row_parses fps) rows.
Proof.
  unfold build_segments.
  pose proof (run_outcome fps rows init init_consistent) as H.
  destruct (run fps init rows) as [st|e]; cbn [mbind result_bind is_ok].
  - symmetry. exact H.
  - destruct H as (before & row & after & -> & Hb & Hrc & Hraise).
    symmetry. rewrite forallb_app. cbn [forallb].
    replace (row_parses fps row) with false; [apply andb_false_r|].
    unfold row_parses. rewrite Hrc. cbn [negb orb].
    destruct Hraise as [-> | [_ ->]]; cbn [is_ok]; [reflexivity|].
    symmetry. apply andb_false_r.
Qed.

(** X2.  When build_segments raises, the error is the one of the first row, in
    input order, that has its required fields and a timecode that does not
    parse; it is a ValueError or an OverflowError, never the AssertionError
    of the [assert] in the loop. *)
Theorem build_segments_raises_first_bad_timecode
    (rows : list CsvRow) (fps : float) (e : exn) :
  build_segments rows fps = Raise e ->
  (e = ValueError ∨ e = OverflowError)
  ∧ exists before row after,
      rows = before ++ row :: after
      ∧ forallb (row_parses fps) before = true
      ∧ row_complete row = true
      ∧ (timecode_to_frames (in_timecode row) fps = Raise e
         ∨ (is_ok (timecode_to_frames (in_timecode row) fps) = true
            ∧ timecode_to_frames (out_timecode row) fps = Raise e)).
Proof.
  unfold build_segments. intros H.
  pose proof (run_outcome fps rows init init_consistent) as R.
  destruct (run fps init rows) as [st|e']; [discriminate|].
  cbn in H. injection H as ->.
  split; [|exact R].
  destruct R as (_ & row & _ & _ & _ & _ & [Hr | [_ Hr]]);
    eapply timecode_to_frames_error, Hr.
Qed.

Lemma build_segments_raises_first_bad_timecode_witness :
  let rows := [Scenario.row "A" "Violet" "00:00:00:00" "00:00:05:00";
               Scenario.row "A" "Rose" "ab:cd" "00:00:09:00"] in
  build_segments rows (FFin 30) = Raise ValueError
  ∧ (ValueError = ValueError ∨ ValueError = OverflowError)
  ∧ exists before row after,
      rows = before ++ row :: after
      ∧ forallb (row_parses (FFin 30)) before = true
      ∧ row_complete row = true
      ∧ (timecode_to_frames (in_timecode row) (FFin 30) = Raise ValueError
         ∨ (is_ok (timecode_to_frames (in_timecode row) (FFin 30)) = true
            ∧ timecode_to_frames (out_timecode row) (FFin 30)
              = Raise ValueError)).
Proof.
  intros rows. split; [vm_compute; reflexivity|].
  apply (build_segments_raises_first_bad_timecode rows (FFin 30) ValueError).
  vm_compute. reflexivity.
Defined.

(** ** No row is lost *)

Lemma all_rows_snoc segs (s : Segment) :
  concat (List.map raw_rows (segs ++ [s]))
  = concat (List.map raw_rows segs) ++ raw_rows s.
Proof.
  rewrite List.map_app, concat_app. cbn. rewrite app_nil_r. reflexivity.
Qed.

Lemma step_keeps_rows fps st row st' :
  step fps st row = Ok st' ->
  all_rows st' = all_rows st ++ (if row_accepted fps row then [row] else [])
  ∧ warnings st'
    = warnings st ++ (if row_accepted fps row then [] else [warning_for row]).
Proof.
  unfold step, row_accepted, block_row_ok, gap_row_ok, warning_for, all_rows,
    finish, close_block, warn, emit.
  destruct st as [sg ws cc cb].
  cbn [segments warnings current_color current_block].
  destruct (is_gap row); cbn [negb andb orb].
  - assert (Hclose :
      forall st0, st0 = match cb with
                        | Some b => mkState (sg ++ [b]) ws None None
                        | None => mkState sg ws cc cb
                        end ->
      segments st0 = match cb with Some b => sg ++ [b] | None => sg end
      ∧ warnings st0 = ws ∧ current_block st0 = None).
    { intros st0 ->. destruct cb; cbn; auto. }
    destruct (Hclose _ eq_refl) as (Hs0 & Hw0 & Hb0).
    set (st0 := match cb with
                | Some b => mkState (sg ++ [b]) ws None None
                | None => mkState sg ws cc cb
                end) in *.
    clearbody st0.
    destruct (missing (in_timecode row) || missing (out_timecode row)) eqn:Em.
    { intros H. injection H as <-. cbn. rewrite Hs0, Hw0, Hb0.
      destruct (missing (in_timecode row)); cbn in Em |- *;
        [|rewrite Em; cbn]; rewrite app_nil_r; auto. }
    apply orb_false_iff in Em as [-> ->]. cbn [negb andb].
    destruct (timecode_to_frames (in_timecode row) fps) as [i|]; [|discriminate].
    destruct (timecode_to_frames (out_timecode row) fps) as [o|]; [|discriminate].
    cbn [mbind result_bind].
    rewrite Z.leb_antisym. destruct (i <? o); cbn [negb].
    + intros H. injection H as <-. cbn. rewrite Hs0, Hw0, Hb0.
      rewrite all_rows_snoc, app_nil_r. auto.
    + intros H. injection H as <-. cbn. rewrite Hs0, Hw0, Hb0.
      rewrite app_nil_r. auto.
  - rewrite !orb_false_r.
    destruct (missing (in_timecode row) || missing (out_timecode row)
              || missing (color row)) eqn:Em.
    { intros H. injection H as <-. cbn.
      replace (negb (missing (in_timecode row))
               && negb (missing (out_timecode row))
               && negb (missing (color row))) with false.
      - cbn. rewrite app_nil_r. auto.
      - rewrite <- !negb_orb, Em. reflexivity. }
    rewrite <- !negb_orb, Em. cbn [negb andb].
    destruct (timecode_to_frames (in_timecode row) fps) as [i|]; [|discriminate].
    destruct (timecode_to_frames (out_timecode row) fps) as [o|]; [|discriminate].
    cbn [mbind result_bind].
    rewrite Z.leb_antisym. destruct (i <? o); cbn [negb].
    + destruct (negb (bool_decide (cc = Some (color row)))).
      * intros H. injection H as <-. cbn.
        destruct cb as [b|]; rewrite all_rows_snoc, app_nil_r; auto.
      * destruct cb as [b|]; [|discriminate].
        intros H. injection H as <-. cbn.
        rewrite !all_rows_snoc, app_nil_r. cbn. rewrite app_assoc. auto.
    + intros H. injection H as <-. cbn. rewrite app_nil_r. auto.
Qed.

Lemma run_keeps_rows fps rows : forall st st',
  run fps st rows = Ok st' ->
  all_rows st' = all_rows st ++ List.filter (row_accepted fps) rows
  ∧ warnings st'
    = warnings st
      ++ List.map warning_for
           (List.filter (fun row => negb (row_accepted fps row)) rows).
Proof.
  induction rows as [|r rows IH]; intros st st' H; cbn [run] in H.
  - injection H as <-. cbn. rewrite !app_nil_r. auto.
  - destruct (step fps st r) as [st1|] eqn:Es; [|discriminate].
    cbn [mbind result_bind] in H.
    destruct (step_keeps_rows _ _ _ _ Es) as [Hr Hw].
    destruct (IH _ _ H) as [Hr' Hw'].
    rewrite Hr', Hw', Hr, Hw. cbn [List.filter].
    destruct (row_accepted fps r); cbn [negb List.map];
      rewrite <- !app_assoc; auto.
Qed.

(** X3.  build_segments loses no row and repeats none: the rows of the returned
    segments, read in order, are the accepted rows in input order, and the
    warnings are those of the other rows, in input order. *)
Theorem build_segments_partitions_rows
    (rows : list CsvRow) (fps : float) (segs : list Segment)
    (warns : list warning) :
  build_segments rows fps = Ok (segs, warns) ->
  concat (List.map raw_rows segs) = List.filter (row_accepted fps) rows
  ∧ warns = List.map warning_for
              (List.filter (fun row => negb (row_accepted fps row)) rows).
Proof.
  unfold build_segments. intros H.
  destruct (run fps init rows) as [st|] eqn:Er; [|discriminate].
  cbn [mbind result_bind] in H.
  assert (Hf : finish st = (segs, warns)) by congruence.
  destruct (run_keeps_rows _ _ _ _ Er) as [Hr Hw].
  unfold all_rows in Hr. rewrite Hf in Hr. cbn in Hr, Hw.
  split; [exact Hr|]. rewrite <- Hw. exact (eq_sym (f_equal snd Hf)).
Qed.

Lemma build_segments_partitions_rows_witness :
  let rows := [Scenario.row "A" "Violet" "00:00:00:00" "00:00:05:00";
               Scenario.row "A" "" "00:00:05:00" "00:00:06:00";
               Scenario.row "A" "Violet" "00:00:06:00" "00:00:07:00";
               Scenario.row "" "gap_2" "00:00:09:00" "00:00:08:00";
               Scenario.row "B" "Rose" "00:00:10:00" "00:00:12:00"] in
  exists segs warns,
    build_segments rows (FFin 30) = Ok (segs, warns)
    ∧ length segs = 2%nat ∧ length warns = 2%nat
    ∧ concat (List.map raw_rows segs)
      = List.filter (row_accepted (FFin 30)) rows
    ∧ warns = List.map warning_for
                (List.filter (fun row => negb (row_accepted (FFin 30) row))
                             rows).
Proof.
  intros rows.
  destruct (build_segments rows (FFin 30)) as [[segs warns]|] eqn:E;
    [|vm_compute in E; discriminate].
  exists segs, warns. split; [reflexivity|].
  split; [vm_compute in E; injection E as <- <-; reflexivity|].
  split; [vm_compute in E; injection E as <- <-; reflexivity|].
  apply (build_segments_partitions_rows rows (FFin 30) segs warns). exact E.
Defined.

(** ** What a returned segment holds *)

Lemma gap_segment_label row start end_ :
  is_gap row = true ->
  seg_gap_label (gap_segment row start end_) = gap_label row.
Proof.
  intros Hg. unfold seg_gap_label, gap_label, gap_segment. cbn.
  rewrite Hg. cbn [negb].
  unfold is_gap in Hg. destruct (bool_decide (color row = [])); [discriminate|].
  reflexivity.
Qed.

Lemma gap_segment_shape row i o :
  is_gap row = true -> i < o -> gap_shape (gap_segment row i o).
Proof.
  intros Hg Hio. exists row. cbn.
  split_and!; try reflexivity; try assumption.
  apply gap_segment_label, Hg.
Qed.

Lemma finish_shape st :
  state_shape st ->
  Forall (fun s => gap_shape s ∨ block_shape s) (fst (finish st)).
Proof.
  intros (_ & Hs & Hb). unfold finish. cbn.
  destruct (current_block st) as [b|]; [|exact Hs].
  apply Forall_app. split; [exact Hs|].
  constructor; [right; apply Hb; reflexivity | constructor].
Qed.

Lemma step_shape fps st row st' :
  state_shape st -> step fps st row = Ok st' -> state_shape st'.
Proof.
  intros Hst Hstep.
  assert (Hc' : consistent st').
  { eapply step_consistent; [apply Hst | exact Hstep]. }
  pose proof (finish_shape st Hst) as Hfin.
  destruct Hst as (Hc & Hs & Hb).
  split; [exact Hc'|]. clear Hc'.
  unfold step in Hstep.
  destruct (is_gap row) eqn:Eg.
  - assert (Hclose : segments (close_block st) = fst (finish st)
                     ∧ current_block (close_block st) = None).
    { unfold close_block, finish. destruct (current_block st) eqn:Eb; cbn; auto. }
    destruct Hclose as [Hs0 Hb0].
    destruct (missing _ || missing _).
    { injection Hstep as <-. cbn. rewrite Hs0, Hb0.
      split; [exact Hfin | discriminate]. }
    destruct (timecode_to_frames (in_timecode row) fps) as [i|]; [|discriminate].
    destruct (timecode_to_frames (out_timecode row) fps) as [o|]; [|discriminate].
    cbn [mbind result_bind] in Hstep.
    destruct (Z.leb_spec o i); injection Hstep as <-; cbn; rewrite Hs0, Hb0.
    + split; [exact Hfin | discriminate].
    + split; [|discriminate]. apply Forall_app. split; [exact Hfin|].
      constructor; [|constructor]. left. apply gap_segment_shape; assumption.
  - destruct (missing (in_timecode row) || missing (out_timecode row)) eqn:Em;
      cbn [orb] in Hstep.
    { injection Hstep as <-. split; assumption. }
    destruct (missing (color row)) eqn:Ec.
    { injection Hstep as <-. split; assumption. }
    destruct (timecode_to_frames (in_timecode row) fps) as [i|]; [|discriminate].
    destruct (timecode_to_frames (out_timecode row) fps) as [o|]; [|discriminate].
    cbn [mbind result_bind] in Hstep.
    destruct (_ <=? _).
    { injection Hstep as <-. split; assumption. }
    destruct (negb (bool_decide (current_color st = Some (color row)))) eqn:En.
    + injection Hstep as <-. cbn. split; [exact Hfin|].
      intros b E. injection E as <-. exists row, []. cbn.
      split_and!; try reflexivity.
      * unfold missing in Ec. apply bool_decide_eq_false_1 in Ec. exact Ec.
      * constructor; [split; [reflexivity | exact Eg] | constructor].
    + apply negb_false_iff, bool_decide_eq_true_1 in En.
      destruct (current_block st) as [b|] eqn:Eb; [|discriminate].
      injection Hstep as <-. cbn. split; [exact Hs|].
      intros b' E. injection E as <-.
      destruct (Hb b eq_refl) as (first & rest & H1 & H2 & H3 & H4 & H5 & H6).
      unfold consistent in Hc. rewrite En, Eb in Hc. destruct Hc as [Hcol _].
      exists first, (rest ++ [row]). unfold extend. cbn.
      split_and!; try assumption.
      * rewrite H1. reflexivity.
      * apply Forall_app. split; [exact H6|].
        constructor; [|constructor]. split; [congruence | exact Eg].
Qed.

Lemma run_shape fps rows : forall st st',
  state_shape st -> run fps st rows = Ok st' -> state_shape st'.
Proof.
  induction rows as [|r rows IH]; intros st st' Hok Hrun; cbn in Hrun.
  - injection Hrun as <-. exact Hok.
  - destruct (step fps st r) as [st1|] eqn:Es; [|discriminate].
    eapply IH; [eapply step_shape; eassumption | exact Hrun].
Qed.

Lemma build_segments_shape rows fps segs warns :
  build_segments rows fps = Ok (segs, warns) ->
  Forall (fun s => gap_shape s ∨ block_shape s) segs.
Proof.
  unfold build_segments. intros H.
  destruct (run fps init rows) as [st|] eqn:Er; [|discriminate].
  cbn [mbind result_bind] in H.
  assert (Hf : finish st = (segs, warns)) by congruence.
  replace segs with (fst (finish st)) by (rewrite Hf; reflexivity).
  apply finish_shape. eapply run_shape; [|exact Er].
  split; [exact I|]. split; [constructor | discriminate].
Qed.

Lemma block_shape_not_gap s : block_shape s -> seg_is_gap s = false.
Proof.
  intros (first & rest & _ & Hk & _). unfold seg_is_gap. rewrite Hk.
  reflexivity.
Qed.

Lemma gap_shape_is_gap s : gap_shape s -> seg_is_gap s = true.
Proof.
  intros (row & _ & _ & Hk & _). unfold seg_is_gap. rewrite Hk. reflexivity.
Qed.

(** X4.  Every gap segment build_segments returns comes from one GAP row: it
    holds that row only, has the row's colour, transcript and label, and a
    positive duration. *)
Theorem build_segments_gap_segments
    (rows : list CsvRow) (fps : float) (segs : list Segment)
    (warns : list warning) (s : Segment) :
  build_segments rows fps = Ok (segs, warns) ->
  s ∈ segs -> seg_is_gap s = true ->
  gap_shape s ∧ 0 < duration_frames s.
Proof.
  intros H Hin Hg.
  pose proof (build_segments_shape _ _ _ _ H) as Hall.
  rewrite Forall_forall in Hall. destruct (Hall s Hin) as [Hs | Hs].
  - split; [exact Hs|]. destruct Hs as (row & _ & _ & _ & _ & _ & Hlt & _).
    unfold duration_frames. lia.
  - rewrite (block_shape_not_gap s Hs) in Hg. discriminate.
Qed.

Lemma build_segments_gap_segments_witness :
  let rows := [Scenario.row "A" "Violet" "00:00:00:00" "00:00:05:00";
               Scenario.row "" "gap_intro" "00:00:05:00" "00:00:08:00"] in
  let s := gap_segment (Scenario.row "" "gap_intro" "00:00:05:00" "00:00:08:00")
             150 240 in
  seg_gap_label s = Some (lit "intro")
  ∧ gap_shape s ∧ 0 < duration_frames s.
Proof.
  intros rows s. split; [vm_compute; reflexivity|].
  apply (build_segments_gap_segments rows (FFin 30)
           [block_segment (Scenario.row "A" "Violet" "00:00:00:00" "00:00:05:00")
              0 150; s] [] s).
  - vm_compute. reflexivity.
  - apply list_elem_of_further, list_elem_of_here.
  - vm_compute. reflexivity.
Defined.

(** X5.  Every block segment build_segments returns holds at least one row; no
    row of it is a GAP row, all rows carry the block's (non-empty) colour,
    and the block's transcript is the first row's alone. *)
Theorem build_segments_block_segments
    (rows : list CsvRow) (fps : float) (segs : list Segment)
    (warns : list warning) (s : Segment) :
  build_segments rows fps = Ok (segs, warns) ->
  s ∈ segs -> seg_is_gap s = false ->
  block_shape s.
Proof.
  intros H Hin Hg.
  pose proof (build_segments_shape _ _ _ _ H) as Hall.
  rewrite Forall_forall in Hall. destruct (Hall s Hin) as [Hs | Hs].
  - rewrite (gap_shape_is_gap s Hs) in Hg. discriminate.
  - exact Hs.
Qed.

Lemma build_segments_block_segments_witness :
  let r1 := mkCsvRow (lit "A") (lit "00:00:00:00") (lit "00:00:05:00")
                     (lit "first words") (lit "Violet") in
  let r2 := mkCsvRow (lit "B") (lit "00:00:05:00") (lit "00:00:09:00")
                     (lit "more words") (lit "Violet") in
  let s := mkSegment (lit "block") 0 270 (Some (lit "Violet"))
                     (Some (lit "first words")) [r1; r2] in
  build_segments [r1; r2] (FFin 30) = Ok ([s], []) ∧ block_shape s.
Proof.
  intros r1 r2 s. split; [vm_compute; reflexivity|].
  apply (build_segments_block_segments [r1; r2] (FFin 30) [s] [] s).
  - vm_compute. reflexivity.
  - apply list_elem_of_here.
  - vm_compute. reflexivity.
Defined.

(** ** Labels of GAP rows *)

Lemma after_underscore_split p l :
  95%N ∉ p -> after_underscore (p ++ 95%N :: l) = Some l.
Proof.
  induction p as [|c p IH]; intros Hp; cbn; [reflexivity|].
  apply not_elem_of_cons in Hp as [Hc Hp].
  destruct (N.eqb_spec c 95) as [->|_]; [contradiction | apply IH, Hp].
Qed.

Lemma after_underscore_none s : 95%N ∉ s -> after_underscore s = None.
Proof.
  induction s as [|c s IH]; intros Hs; cbn; [reflexivity|].
  apply not_elem_of_cons in Hs as [Hc Hs].
  destruct (N.eqb_spec c 95) as [->|_]; [contradiction | apply IH, Hs].
Qed.

(** X6.  The label of a GAP row is what follows the first underscore of its
    colour (possibly nothing), and the whole colour when it has no
    underscore; only rows that are not GAP rows have no label. *)
Theorem gap_label_after_first_underscore (row : CsvRow) (p l : str) :
  is_gap row = true -> 95%N ∉ p ->
  (color row = p ++ 95%N :: l -> gap_label row = Some l)
  ∧ (color row = p -> gap_label row = Some p)
  ∧ (forall other, gap_label other = None <-> is_gap other = false).
Proof.
  intros Hg Hp. unfold gap_label. rewrite Hg. cbn [negb]. split_and!.
  - intros ->. rewrite after_underscore_split by exact Hp. reflexivity.
  - intros ->. rewrite after_underscore_none by exact Hp. reflexivity.
  - intros other. unfold gap_label. destruct (is_gap other); cbn [negb].
    + split; [|discriminate]. destruct (after_underscore _); discriminate.
    + split; reflexivity.
Qed.

Lemma gap_label_after_first_underscore_witness :
  gap_label (Scenario.row "" "gap_take_2" "00:00:01:00" "00:00:02:00")
  = Some (lit "take_2")
  ∧ gap_label (Scenario.row "" "Gap" "00:00:01:00" "00:00:02:00")
    = Some (lit "Gap").
Proof.
  split.
  - apply (gap_label_after_first_underscore
             (Scenario.row "" "gap_take_2" "00:00:01:00" "00:00:02:00")
             (lit "gap") (lit "take_2")).
    + vm_compute. reflexivity.
    + vm_compute. intros H. repeat (apply elem_of_cons in H as [H|H]; [discriminate|]).
      apply elem_of_nil in H. exact H.
    + reflexivity.
  - apply (gap_label_after_first_underscore
             (Scenario.row "" "Gap" "00:00:01:00" "00:00:02:00")
             (lit "Gap") []).
    + vm_compute. reflexivity.
    + vm_compute. intros H. repeat (apply elem_of_cons in H as [H|H]; [discriminate|]).
      apply elem_of_nil in H. exact H.
    + reflexivity.
Defined.

(** ** Trimmed fields *)

Lemma lstrip_spec s :
  lstrip s = [] ∨ exists c r, lstrip s = c :: r ∧ isspace c = false.
Proof.
  induction s as [|c s IH]; cbn; [left; reflexivity|].
  destruct (isspace c) eqn:E; [exact IH|]. right. exists c, s. auto.
Qed.

Lemma lstrip_fixed c r : isspace c = false -> lstrip (c :: r) = c :: r.
Proof. intros H. cbn. rewrite H. reflexivity. Qed.

Lemma lstrip_all_space s : Forall (fun c => isspace c = true) s -> lstrip s = [].
Proof.
  induction 1 as [|c s Hc _ IH]; cbn; [reflexivity|]. rewrite Hc. exact IH.
Qed.

Lemma lstrip_nil_all_space s : lstrip s = [] -> Forall (fun c => isspace c = true) s.
Proof.
  induction s as [|c s IH]; cbn; [constructor|].
  destruct (isspace c) eqn:E; [|discriminate]. intros H. constructor; auto.
Qed.

(** [lstrip] removes a prefix and leaves the last character in place. *)
Lemma lstrip_suffix s : exists p, s = p ++ lstrip s.
Proof.
  induction s as [|c s [p IH]]; cbn; [exists []; reflexivity|].
  destruct (isspace c); [|exists []; reflexivity].
  exists (c :: p). cbn. rewrite <- IH. reflexivity.
Qed.

Lemma lstrip_keeps_last s c r :
  lstrip s = c :: r -> exists p, s = p ++ c :: r.
Proof.
  intros H. destruct (lstrip_suffix s) as [p Hp]. exists p. congruence.
Qed.

(** A stripped text is empty or has no white space at either end. *)
Lemma strip_ends s :
  strip s = []
  ∨ exists c m, strip s = c :: m
      ∧ isspace c = false ∧ isspace (List.last (c :: m) c) = false.
Proof.
  unfold strip, rstrip.
  destruct (lstrip_spec s) as [-> | (c & r & E & Hc)]; [left; reflexivity|].
  rewrite E.
  destruct (lstrip_spec (rev (c :: r))) as [E2 | (d & q & E2 & Hd)].
  - left. rewrite E2. reflexivity.
  - right. rewrite E2.
    destruct (lstrip_keeps_last _ _ _ E2) as [p Hp].
    assert (Hrev : c :: r = rev q ++ [d] ++ rev p).
    { rewrite <- (rev_involutive (c :: r)), Hp, rev_app_distr. cbn.
      rewrite <- app_assoc. reflexivity. }
    cbn [rev].
    destruct (rev q) as [|c' q'] eqn:Eq.
    + cbn in Hrev |- *. injection Hrev as -> _. exists d, []. cbn. auto.
    + cbn in Hrev. injection Hrev as <- _. exists c, (q' ++ [d]).
      split; [reflexivity|]. split; [exact Hc|].
      change (c :: q' ++ [d]) with ((c :: q') ++ [d]).
      rewrite List.last_last. exact Hd.
Qed.

Lemma strip_fixed c m :
  isspace c = false -> isspace (List.last (c :: m) c) = false ->
  strip (c :: m) = c :: m.
Proof.
  intros Hc Hl. unfold strip, rstrip. rewrite (lstrip_fixed c m Hc).
  destruct (rev (c :: m)) as [|d q] eqn:E.
  { apply (f_equal (@length N)) in E. rewrite length_rev in E. discriminate. }
  assert (Hd : d = List.last (c :: m) c).
  { rewrite <- (rev_involutive (c :: m)), E. cbn [rev].
    rewrite List.last_last. reflexivity. }
  rewrite lstrip_fixed by (rewrite Hd; exact Hl).
  rewrite <- E. apply rev_involutive.
Qed.

Lemma strip_idempotent s : strip (strip s) = strip s.
Proof.
  destruct (strip_ends s) as [-> | (c & m & -> & Hc & Hl)]; [reflexivity|].
  apply strip_fixed; assumption.
Qed.

Lemma field_stripped raw key : strip (field raw key) = field raw key.
Proof. unfold field. apply strip_idempotent. Qed.

Lemma omap_length_le {A B} (f : A -> option B) (l : list A) :
  (length (omap f l) <= length l)%nat.
Proof.
  induction l as [|a l IH]; cbn; [lia|]. destruct (f a); cbn; lia.
Qed.

(** X7.  Every row parse_csv returns has each of its five fields free of white
    space at both ends, and has an in-point, an out-point or a colour; the
    rows are no more than the data records of the file. *)
Theorem parse_csv_rows_are_trimmed
    (csv_path : path_state) (rows : list CsvRow) :
  parse_csv csv_path = Ok rows ->
  Forall (fun row =>
            strip (speaker row) = speaker row
            ∧ strip (in_timecode row) = in_timecode row
            ∧ strip (out_timecode row) = out_timecode row
            ∧ strip (transcript row) = transcript row
            ∧ strip (color row) = color row
            ∧ blank_row row = false) rows
  ∧ exists fieldnames data,
      csv_path = Opened (mkCsvFile (fieldnames :: data) None)
      ∧ (length rows <= length data)%nat.
Proof.
  unfold parse_csv.
  destruct csv_path as [| | |[[|fieldnames data] fl]]; try discriminate;
    cbn [records failure].
  { destruct fl; discriminate. }
  destruct (missing_headers fieldnames); [|discriminate].
  rewrite read_rows_spec. destruct fl as [e|]; [discriminate|].
  cbn [at_end app]. intros H. injection H as <-. split.
  - apply Forall_forall. intros row Hrow.
    apply list_elem_of_In, List.filter_In in Hrow as [Hrow Hb].
    apply List.in_map_iff in Hrow as (r & <- & _).
    apply negb_true_iff in Hb.
    unfold trimmed_row in *. cbn.
    split_and!; try apply field_stripped. exact Hb.
  - exists fieldnames, data. split; [reflexivity|].
    etransitivity; [apply filter_length_le|].
    rewrite length_map. apply filter_length_le.
Qed.

Lemma parse_csv_rows_are_trimmed_witness :
  let f := mkCsvFile
             [TARGET_HEADERS;
              [lit " Tamaru "; lit " 00:00:00:00"; lit "00:00:05:00 ";
               lit "  hello  "; lit " Violet "];
              [lit "x"; lit "  "; lit ""; lit "words only"; lit " "]] None in
  parse_csv (Opened f)
  = Ok [mkCsvRow (lit "Tamaru") (lit "00:00:00:00") (lit "00:00:05:00")
                 (lit "hello") (lit "Violet")]
  ∧ exists fieldnames data,
      Opened f = Opened (mkCsvFile (fieldnames :: data) None)
      ∧ (1 <= length data)%nat.
Proof.
  intros f. split; [vm_compute; reflexivity|].
  apply (parse_csv_rows_are_trimmed (Opened f)
           [mkCsvRow (lit "Tamaru") (lit "00:00:00:00") (lit "00:00:05:00")
                     (lit "hello") (lit "Violet")]).
  vm_compute. reflexivity.
Defined.

(** ** Fixed points of the colour mappings *)

(** X8.  The valid Premiere labels are exactly the names
    color_to_premiere_label leaves as they are; mapping twice is mapping
    once. *)
Theorem color_to_premiere_label_fixed_points (color : str) :
  (color_to_premiere_label color = color <-> color ∈ VALID_LABELS)
  ∧ color_to_premiere_label (color_to_premiere_label color)
    = color_to_premiere_label color.
Proof.
  assert (Hfix : forall v, v ∈ VALID_LABELS -> color_to_premiere_label v = v).
  { apply Forall_forall. by_compute. }
  split.
  - split; [|apply Hfix].
    intros E. rewrite <- E. apply color_to_premiere_label_valid.
  - apply Hfix, color_to_premiere_label_valid.
Qed.

(** X9.  The DaVinci clip colours are exactly the names color_to_davinci leaves
    as they are; mapping twice is mapping once. *)
Theorem color_to_davinci_fixed_points (color : str) :
  (color_to_davinci color = color <-> color ∈ DAVINCI_COLORS)
  ∧ color_to_davinci (color_to_davinci color) = color_to_davinci color.
Proof.
  assert (Hfix : forall v, v ∈ DAVINCI_COLORS -> color_to_davinci v = v).
  { apply Forall_forall. by_compute. }
  split.
  - split; [|apply Hfix].
    intros E. rewrite <- E. apply color_to_davinci_valid.
  - apply Hfix, color_to_davinci_valid.
Qed.

(** ** Letter case in colour names *)

Lemma strip_nil_iff s : strip s = [] <-> Forall (fun c => isspace c = true) s.
Proof.
  unfold strip, rstrip. split.
  - intros H.
    assert (H1 : lstrip (rev (lstrip s)) = []).
    { destruct (lstrip (rev (lstrip s))); [reflexivity|].
      apply (f_equal (@length N)) in H. rewrite length_rev in H. discriminate. }
    apply lstrip_nil_all_space in H1.
    destruct (lstrip_spec s) as [E | (c & r & E & Hc)].
    + apply lstrip_nil_all_space, E.
    + rewrite E in H1. rewrite Forall_forall in H1.
      assert (Hin : c ∈ rev (c :: r)).
      { apply list_elem_of_In, in_rev. rewrite rev_involutive. left. reflexivity. }
      rewrite (H1 c Hin) in Hc. discriminate.
  - intros H. rewrite (lstrip_all_space s H). reflexivity.
Qed.

Lemma isspace_lower_char c : isspace (lower_char c) = isspace c.
Proof.
  unfold lower_char.
  destruct ((65 <=? c) && (c <=? 90))%N eqn:E1.
  - apply andb_true_iff in E1 as [H1 H2].
    apply N.leb_le in H1, H2.
    assert (Hc : (c = 65 ∨ c = 66 ∨ c = 67 ∨ c = 68 ∨ c = 69 ∨ c = 70 ∨ c = 71
                  ∨ c = 72 ∨ c = 73 ∨ c = 74 ∨ c = 75 ∨ c = 76 ∨ c = 77
                  ∨ c = 78 ∨ c = 79 ∨ c = 80 ∨ c = 81 ∨ c = 82 ∨ c = 83
                  ∨ c = 84 ∨ c = 85 ∨ c = 86 ∨ c = 87 ∨ c = 88 ∨ c = 89
                  ∨ c = 90)%N) by lia.
    repeat (destruct Hc as [-> | Hc]; [reflexivity|]). subst c. reflexivity.
  - destruct (N.eqb_spec c 8490) as [-> | _]; reflexivity.
Qed.

Lemma blank_lower s :
  bool_decide (lower s = []) || bool_decide (strip (lower s) = [])
  = bool_decide (s = []) || bool_decide (strip s = []).
Proof.
  assert (H1 : lower s = [] <-> s = []).
  { unfold lower. destruct s; cbn; split; congruence. }
  assert (H2 : strip (lower s) = [] <-> strip s = []).
  { rewrite !strip_nil_iff. unfold lower. rewrite Forall_map.
    split; intros H; (eapply Forall_impl; [exact H|]); intros c; cbn;
      rewrite isspace_lower_char; auto. }
  rewrite (bool_decide_ext _ _ H1), (bool_decide_ext _ _ H2). reflexivity.
Qed.

Lemma lower_char_idempotent c : lower_char (lower_char c) = lower_char c.
Proof.
  assert (Hstable : forall d,
            ((65 <=? d) && (d <=? 90))%N = false -> (d =? 8490)%N = false ->
            lower_char d = d).
  { intros d A B. unfold lower_char. rewrite A, B. reflexivity. }
  destruct ((65 <=? c) && (c <=? 90))%N eqn:E1.
  - assert (E : lower_char c = (c + 32)%N) by (unfold lower_char; rewrite E1; reflexivity).
    apply andb_true_iff in E1 as [H1 H2]. apply N.leb_le in H1, H2.
    rewrite E. apply Hstable.
    + apply andb_false_iff. right. apply N.leb_gt. lia.
    + apply N.eqb_neq. lia.
  - destruct (c =? 8490)%N eqn:E2.
    + apply N.eqb_eq in E2. subst c. reflexivity.
    + rewrite (Hstable c E1 E2). apply Hstable; assumption.
Qed.

Lemma lower_idempotent s : lower (lower s) = lower s.
Proof.
  unfold lower. rewrite List.map_map. apply List.map_ext.
  intros c. apply lower_char_idempotent.
Qed.

(** The label of a name, read off its lower-case form alone. *)
Lemma color_to_premiere_label_by_lower color :
  color_to_premiere_label color
  = if bool_decide (lower color = []) || bool_decide (strip (lower color) = [])
    then lit "Caribbean"
    else default (lit "Caribbean") (LEGACY_COLOR_MAP !! lower color).
Proof.
  rewrite blank_lower. unfold color_to_premiere_label.
  destruct (_ || _); [reflexivity|].
  case_bool_decide as Hin; [|reflexivity].
  revert color Hin. apply Forall_forall. by_compute.
Qed.

(** X10.  Colour names that differ only in the case of their letters get the
    same Premiere label. *)
Theorem color_to_premiere_label_ignores_case (color color' : str) :
  lower color = lower color' ->
  color_to_premiere_label color = color_to_premiere_label color'.
Proof.
  intros E. rewrite !color_to_premiere_label_by_lower, E. reflexivity.
Qed.

Lemma color_to_premiere_label_ignores_case_witness :
  color_to_premiere_label (lit "CERULEAN") = lit "Cerulean"
  ∧ color_to_premiere_label (lit "cErUlEaN")
    = color_to_premiere_label (lit "CERULEAN").
Proof.
  split; [vm_compute; reflexivity|].
  apply (color_to_premiere_label_ignores_case (lit "cErUlEaN") (lit "CERULEAN")).
  vm_compute. reflexivity.
Defined.

Lemma premiere_keys_in_lower_table k v :
  PREMIERE_TO_DAVINCI !! k = Some v -> COLOR_TO_DAVINCI !! lower k = Some v.
Proof.
  intros H. apply elem_of_map_to_list in H.
  assert (Hall : Forall (fun kv => COLOR_TO_DAVINCI !! lower (fst kv) = Some (snd kv))
                        (map_to_list PREMIERE_TO_DAVINCI)) by by_compute.
  rewrite Forall_forall in Hall. exact (Hall (k, v) H).
Qed.

Lemma color_to_davinci_by_lower color :
  color_to_davinci color
  = if bool_decide (lower color = []) || bool_decide (strip (lower color) = [])
    then lit "blue"
    else match COLOR_TO_DAVINCI !! lower color with
         | Some c => c
         | None => if bool_decide (lower color ∈ DAVINCI_COLORS)
                   then lower color else lit "blue"
         end.
Proof.
  rewrite blank_lower. unfold color_to_davinci.
  destruct (_ || _); [reflexivity|].
  destruct (PREMIERE_TO_DAVINCI !! color) as [v|] eqn:E; [|reflexivity].
  rewrite (premiere_keys_in_lower_table _ _ E). reflexivity.
Qed.

(** X11.  Colour names that differ only in the case of their letters get the
    same DaVinci clip colour, Premiere label names included. *)
Theorem color_to_davinci_ignores_case (color color' : str) :
  lower color = lower color' ->
  color_to_davinci color = color_to_davinci color'.
Proof.
  intros E. rewrite !color_to_davinci_by_lower, E. reflexivity.
Qed.

Lemma color_to_davinci_ignores_case_witness :
  color_to_davinci (lit "Teal") = lit "cyan"
  ∧ color_to_davinci (lit "TEAL") = color_to_davinci (lit "Teal").
Proof.
  split; [vm_compute; reflexivity|].
  apply (color_to_davinci_ignores_case (lit "TEAL") (lit "Teal")).
  vm_compute. reflexivity.
Defined.

(** ** Looking up a media file *)

Lemma find_some_in {A} (f : A -> bool) (l : list A) (x : A) :
  List.find f l = Some x -> x ∈ l ∧ f x = true.
Proof.
  intros H. apply List.find_some in H as [H1 H2].
  split; [apply list_elem_of_In, H1 | exact H2].
Qed.

Lemma find_first {A} (f : A -> bool) (pre post : list A) (x : A) :
  Forall (fun y => f y = false) pre -> f x = true ->
  List.find f (pre ++ x :: post) = Some x.
Proof.
  induction 1 as [|y pre Hy _ IH]; intros Hx; cbn.
  - rewrite Hx. reflexivity.
  - rewrite Hy. apply IH, Hx.
Qed.

Lemma getitem_in_range {A} (l : list A) (i : nat) (x : A) :
  l !! i = Some x -> getitem l (Z.of_nat i) = Ok x.
Proof.
  intros H. unfold getitem.
  destruct (Z.ltb_spec (Z.of_nat i) 0) as [Hn|_]; [lia|].
  destruct (Z.ltb_spec (Z.of_nat i) 0) as [Hn|_]; [lia|].
  rewrite Nat2Z.id, H. reflexivity.
Qed.

Lemma getitem_from_end {A} (l : list A) (i : Z) (x : A) :
  i < 0 -> 0 <= i + Z.of_nat (length l) ->
  l !! Z.to_nat (i + Z.of_nat (length l)) = Some x ->
  getitem l i = Ok x.
Proof.
  intros Hi Hj H. unfold getitem.
  destruct (Z.ltb_spec i 0) as [_|Hn]; [|lia].
  destruct (Z.ltb_spec (i + Z.of_nat (length l)) 0) as [Hn|_]; [lia|].
  rewrite H. reflexivity.
Qed.

Lemma getitem_outcome {A} (l : list A) (i : Z) :
  match getitem l i with
  | Ok x => x ∈ l
  | Raise e =>
      e = IndexError
      ∧ (i < - Z.of_nat (length l) ∨ Z.of_nat (length l) <= i)
  end.
Proof.
  unfold getitem.
  destruct (Z.ltb_spec i 0) as [Hi|Hi].
  - destruct (Z.ltb_spec (i + Z.of_nat (length l)) 0) as [Hj|Hj].
    + split; [reflexivity | left; lia].
    + destruct (l !! Z.to_nat (i + Z.of_nat (length l))) as [x|] eqn:E.
      * eapply list_elem_of_lookup_2, E.
      * apply lookup_ge_None in E. lia.
  - destruct (Z.ltb_spec i 0) as [Hj|_]; [lia|].
    destruct (l !! Z.to_nat i) as [x|] eqn:E.
    + eapply list_elem_of_lookup_2, E.
    + apply lookup_ge_None in E. split; [reflexivity | right; lia].
Qed.

Lemma by_index_outcome (media_files : list media_file) (track_idx : Z) :
  match getitem media_files
          (Z.min track_idx (Z.of_nat (length media_files) - 1)) with
  | Ok mf => mf ∈ media_files
  | Raise e =>
      e = IndexError
      ∧ (media_files = [] ∨ track_idx < - Z.of_nat (length media_files))
  end.
Proof.
  pose proof (getitem_outcome media_files
                (Z.min track_idx (Z.of_nat (length media_files) - 1))) as H.
  destruct (getitem media_files _) as [mf|e]; [exact H|].
  destruct H as [-> H]. split; [reflexivity|].
  destruct media_files as [|m l]; [left; reflexivity|].
  right. cbn [length] in *. lia.
Qed.

(** X12.  Whatever [str.lower] does, find_media_file answers with an entry
    of the list it is given or raises IndexError, and it raises only when
    the list is empty or the track index is below minus its length; for a
    list that is not empty and an index that is not negative (the writer
    passes the position of the track) it always returns. *)
Theorem find_media_file_returns_a_member
    (lower : str -> str)
    (media_files : list media_file) (file_name : option str) (track_idx : Z) :
  match find_media_file lower media_files file_name track_idx with
  | Ok mf => mf ∈ media_files
  | Raise e =>
      e = IndexError
      ∧ (media_files = [] ∨ track_idx < - Z.of_nat (length media_files))
  end
  ∧ (media_files <> [] -> 0 <= track_idx ->
     is_ok (find_media_file lower media_files file_name track_idx) = true).
Proof.
  assert (Hmain :
    match find_media_file lower media_files file_name track_idx with
    | Ok mf => mf ∈ media_files
    | Raise e =>
        e = IndexError
        ∧ (media_files = [] ∨ track_idx < - Z.of_nat (length media_files))
    end).
  { pose proof (by_index_outcome media_files track_idx) as Hby.
    unfold find_media_file. destruct file_name as [[|c n]|]; try exact Hby.
    destruct (List.find (fun mf => bool_decide (mf_name mf = Some (c :: n)))
                        media_files) as [mf|] eqn:E1.
    { apply find_some_in in E1 as [H _]. exact H. }
    destruct (List.find (fun mf => bool_decide
                           (lower (name_or_empty mf) = lower (c :: n)))
                        media_files) as [mf|] eqn:E2.
    { apply find_some_in in E2 as [H _]. exact H. }
    destruct (List.find (fun mf => contains (c :: n) (name_or_empty mf))
                        media_files) as [mf|] eqn:E3.
    { apply find_some_in in E3 as [H _]. exact H. }
    exact Hby. }
  split; [exact Hmain|].
  intros Hne Hidx.
  destruct (find_media_file lower media_files file_name track_idx) as [mf|e];
    [reflexivity|].
  destruct Hmain as [_ [H | H]]; [contradiction | lia].
Qed.

Lemma find_media_file_returns_a_member_witness :
  is_ok (find_media_file Scenario.ascii_lower (t_media_files Scenario.two_file_template)
           (Some (lit "C.mov")) 5) = true.
Proof.
  apply (find_media_file_returns_a_member Scenario.ascii_lower
           (t_media_files Scenario.two_file_template)
           (Some (lit "C.mov")) 5).
  - discriminate.
  - lia.
Defined.

(** A track index below minus the length of the list finds nothing. *)
Example find_media_file_index_error :
  find_media_file Scenario.ascii_lower (t_media_files Scenario.two_file_template) None (-3)
  = Raise IndexError
  ∧ (mf_name <$> find_media_file Scenario.ascii_lower
                   (t_media_files Scenario.two_file_template) None (-2))
    = Ok (Some (lit "A.mov")).
Proof. split; vm_compute; reflexivity. Qed.

(** X13.  An exact name match wins over everything else: when some entry has
    exactly the wanted name, the first such entry is returned, whatever
    the track index and the other names. *)
Theorem find_media_file_prefers_exact_match
    (lower : str -> str)
    (pre post : list media_file) (mf : media_file) (file_name : str)
    (track_idx : Z) :
  file_name <> [] ->
  mf_name mf = Some file_name ->
  Forall (fun m => mf_name m <> Some file_name) pre ->
  find_media_file lower (pre ++ mf :: post) (Some file_name) track_idx = Ok mf.
Proof.
  intros Hne Hmf Hpre. unfold find_media_file.
  destruct file_name as [|c n]; [contradiction|].
  rewrite (find_first _ pre post mf); [reflexivity | |].
  - eapply Forall_impl; [exact Hpre|]. intros m Hm. cbn in Hm.
    apply bool_decide_eq_false_2, Hm.
  - apply bool_decide_eq_true_2, Hmf.
Qed.

Lemma find_media_file_prefers_exact_match_witness :
  find_media_file Scenario.ascii_lower
    [mkMedia (Some (lit "cam1.mov")) (Some (lit "file-1")) None;
     mkMedia (Some (lit "Cam1.mov")) (Some (lit "file-2")) None;
     mkMedia (Some (lit "Cam1.mov")) (Some (lit "file-3")) None]
    (Some (lit "Cam1.mov")) 0
  = Ok (mkMedia (Some (lit "Cam1.mov")) (Some (lit "file-2")) None).
Proof.
  apply (find_media_file_prefers_exact_match Scenario.ascii_lower
           [mkMedia (Some (lit "cam1.mov")) (Some (lit "file-1")) None]
           [mkMedia (Some (lit "Cam1.mov")) (Some (lit "file-3")) None]
           (mkMedia (Some (lit "Cam1.mov")) (Some (lit "file-2")) None)
           (lit "Cam1.mov") 0).
  - vm_compute. discriminate.
  - reflexivity.
  - constructor; [vm_compute; discriminate | constructor].
Defined.

(** X14.  Without a file name (None or the empty string) the entry is picked by
    track index, an index past the end picks the last entry, and a
    negative index counts from the end of the list. *)
Theorem find_media_file_without_name_uses_track
    (lower : str -> str)
    (media_files : list media_file) (file_name : option str)
    (track_idx : Z) (mf : media_file) :
  file_name = None ∨ file_name = Some [] ->
  ((0 <= track_idx ∧ media_files !! Z.to_nat track_idx = Some mf)
   ∨ (Z.of_nat (length media_files) <= track_idx
      ∧ last media_files = Some mf)
   ∨ (track_idx < 0 ∧ 0 <= track_idx + Z.of_nat (length media_files)
      ∧ media_files !! Z.to_nat (track_idx + Z.of_nat (length media_files))
        = Some mf)) ->
  find_media_file lower media_files file_name track_idx = Ok mf.
Proof.
  intros Hfn Hmf.
  assert (Hlook : getitem media_files
                    (Z.min track_idx (Z.of_nat (length media_files) - 1))
                  = Ok mf).
  { destruct Hmf as [[H0 H] | [[Hlen H] | (Hneg & Hj & H)]].
    - pose proof (lookup_lt_Some _ _ _ H) as Hlt.
      rewrite Z.min_l by lia. rewrite <- (Z2Nat.id track_idx) by exact H0.
      apply getitem_in_range, H.
    - rewrite Z.min_r by lia. rewrite last_lookup in H.
      pose proof (lookup_lt_Some _ _ _ H) as Hlt.
      replace (Z.of_nat (length media_files) - 1)
        with (Z.of_nat (pred (length media_files))) by lia.
      apply getitem_in_range, H.
    - pose proof (lookup_lt_Some _ _ _ H) as Hlt.
      rewrite Z.min_l by lia. apply getitem_from_end; assumption. }
  unfold find_media_file. destruct Hfn as [-> | ->]; exact Hlook.
Qed.

Lemma find_media_file_without_name_uses_track_witness :
  find_media_file Scenario.ascii_lower (t_media_files Scenario.two_file_template) None 7
  = Ok (mkMedia (Some (lit "B.mov")) (Some (lit "file-2")) None).
Proof.
  apply (find_media_file_without_name_uses_track Scenario.ascii_lower
           (t_media_files Scenario.two_file_template) None 7).
  - left. reflexivity.
  - right. left. split; [cbn; lia | reflexivity].
Defined.

(** ** Colons and semicolons in a timecode *)

Lemma replace_char_idempotent a b s :
  a <> b -> replace_char a b (replace_char a b s) = replace_char a b s.
Proof.
  intros Hab. unfold replace_char. rewrite List.map_map. apply List.map_ext.
  intros c. destruct (N.eqb_spec c a) as [->|Hc].
  - destruct (N.eqb_spec b a); [congruence | reflexivity].
  - destruct (N.eqb_spec c a); [contradiction | reflexivity].
Qed.

Lemma blank_replace_separators tc :
  bool_decide (replace_char 59 58 tc = [])
  || bool_decide (strip (replace_char 59 58 tc) = [])
  = bool_decide (tc = []) || bool_decide (strip tc = []).
Proof.
  assert (H1 : replace_char 59 58 tc = [] <-> tc = []).
  { unfold replace_char. destruct tc; cbn; split; congruence. }
  assert (H2 : strip (replace_char 59 58 tc) = [] <-> strip tc = []).
  { rewrite !strip_nil_iff. unfold replace_char. rewrite Forall_map.
    assert (Hc : forall c : N,
               isspace (if (c =? 59)%N then 58%N else c) = isspace c).
    { intros c. destruct (N.eqb_spec c 59) as [->|_]; reflexivity. }
    split; intros H; (eapply Forall_impl; [exact H|]); intros c; cbn;
      rewrite Hc; auto. }
  rewrite (bool_decide_ext _ _ H1), (bool_decide_ext _ _ H2). reflexivity.
Qed.

Lemma timecode_to_frames_separators tc fps :
  timecode_to_frames (replace_char 59 58 tc) fps = timecode_to_frames tc fps.
Proof.
  unfold timecode_to_frames.
  rewrite blank_replace_separators, replace_char_idempotent by discriminate.
  reflexivity.
Qed.

(** X15.  Semicolons and colons are the same separator: two timecodes that
    differ only in which of the two stands at each separator position
    parse to the same result, an exception included.  In particular a
    drop-frame style text such as 00:01:00;02 is counted exactly like
    00:01:00:02. *)
Theorem timecode_separators_interchangeable (tc tc' : str) (fps : float) :
  replace_char 59 58 tc = replace_char 59 58 tc' ->
  timecode_to_frames tc fps = timecode_to_frames tc' fps.
Proof.
  intros E.
  rewrite <- (timecode_to_frames_separators tc),
          <- (timecode_to_frames_separators tc'), E.
  reflexivity.
Qed.

Lemma timecode_separators_interchangeable_witness :
  timecode_to_frames (lit "00:01:00:02") (FFin 30) = Ok 1802
  ∧ timecode_to_frames (lit "00;01:00;02") (FFin 30)
    = timecode_to_frames (lit "00:01:00:02") (FFin 30).
Proof.
  split; [vm_compute; reflexivity|].
  apply (timecode_separators_interchangeable
           (lit "00;01:00;02") (lit "00:01:00:02") (FFin 30)).
  vm_compute. reflexivity.
Defined.

(** ** Exact timecodes at whole-number rates *)

Lemma timecode_to_frames_whole_rate_exact_aux (h m s f F : Z) :
  0 <= h -> 0 <= m -> 0 <= s -> 0 <= f -> 1 <= F ->
  (h * 3600 + m * 60 + s) * F + f < 2 ^ 53 ->
  timecode_to_frames (timecode_text h m s f) (FFin (inject_Z F))
  = Ok ((h * 3600 + m * 60 + s) * F + f).
Proof.
  intros Hh Hm Hs Hf HF Hb.
  assert (Hbig : 2 ^ 53 < 2 ^ 4000) by (apply Z.pow_lt_mono_r; lia).
  assert (Hsecs : 0 <= h * 3600 + m * 60 + s) by lia.
  assert (Hprod : h * 3600 + m * 60 + s <= (h * 3600 + m * 60 + s) * F) by nia.
  rewrite timecode_to_frames_text by lia.
  apply total_frames_whole_rate; lia.
Qed.

(** X16.  At a whole-number rate a timecode written with two-digit decimal
    fields parses, without any rounding, to
    [(h * 3600 + m * 60 + s) * fps + f]; the fields need not be below 60
    or below the rate. *)
Theorem timecode_to_frames_whole_rate_exact (h m s f F : Z) :
  0 <= h -> 0 <= m -> 0 <= s -> 0 <= f -> 1 <= F ->
  (h * 3600 + m * 60 + s) * F + f < 2 ^ 53 ->
  timecode_to_frames (timecode_text h m s f) (FFin (inject_Z F))
  = Ok ((h * 3600 + m * 60 + s) * F + f).
Proof. apply timecode_to_frames_whole_rate_exact_aux. Qed.

Lemma timecode_to_frames_whole_rate_exact_witness :
  timecode_to_frames (lit "01:75:90:40") (FFin 25) = Ok 204790.
Proof.
  apply (timecode_to_frames_whole_rate_exact 1 75 90 40 25); lia.
Defined.

Lemma canonical_fields (h m s f F : Z) :
  0 <= h -> 0 <= m < 60 -> 0 <= s < 60 -> 0 <= f < F ->
  let n := (h * 3600 + m * 60 + s) * F + f in
  n / F / 3600 = h ∧ n / F mod 3600 / 60 = m ∧ n / F mod 60 = s ∧ n mod F = f.
Proof.
  intros Hh Hm Hs Hf n.
  assert (Hq : n / F = h * 3600 + m * 60 + s).
  { unfold n. rewrite Z.div_add_l by lia. rewrite Z.div_small by lia. lia. }
  assert (Hr : n mod F = f).
  { unfold n. rewrite Z.add_comm, Z.mod_add by lia. apply Z.mod_small. lia. }
  rewrite Hq, Hr.
  assert (H1 : (h * 3600 + m * 60 + s) / 3600 = h).
  { replace (h * 3600 + m * 60 + s) with (h * 3600 + (m * 60 + s)) by lia.
    rewrite Z.div_add_l by lia. rewrite Z.div_small by lia. lia. }
  assert (H2 : (h * 3600 + m * 60 + s) mod 3600 = m * 60 + s).
  { replace (h * 3600 + m * 60 + s) with ((m * 60 + s) + h * 3600) by lia.
    rewrite Z.mod_add by lia. apply Z.mod_small. lia. }
  assert (H3 : (m * 60 + s) / 60 = m).
  { rewrite Z.div_add_l by lia. rewrite Z.div_small by lia. lia. }
  assert (H4 : (h * 3600 + m * 60 + s) mod 60 = s).
  { replace (h * 3600 + m * 60 + s) with (s + (h * 60 + m) * 60) by lia.
    rewrite Z.mod_add by lia. apply Z.mod_small. lia. }
  rewrite H1, H2, H3, H4. auto.
Qed.

(** X17.  At a whole-number rate frames_to_timecode splits a frame count into
    the one set of fields with minutes and seconds below 60 and frames
    below the rate; the hours are not wrapped at 24. *)
Theorem frames_to_timecode_whole_rate_fields (n F : Z) :
  0 <= n < 2 ^ 50 -> 1 <= F < 2 ^ 50 ->
  exists h m s f,
    frames_to_timecode n (FFin (inject_Z F)) = Ok (timecode_text h m s f)
    ∧ 0 <= h ∧ 0 <= m < 60 ∧ 0 <= s < 60 ∧ 0 <= f < F
    ∧ n = (h * 3600 + m * 60 + s) * F + f.
Proof.
  intros Hn HF.
  exists (n / F / 3600), (n / F mod 3600 / 60), (n / F mod 60), (n mod F).
  split; [apply frames_to_timecode_whole_rate; assumption|].
  assert (Hq : 0 <= n / F) by (apply Z.div_pos; lia).
  pose proof (Z.mod_pos_bound (n / F) 3600 ltac:(lia)) as M1.
  pose proof (Z.mod_pos_bound (n / F) 60 ltac:(lia)) as M2.
  pose proof (Z.mod_pos_bound n F ltac:(lia)) as M3.
  split_and!; try lia.
  - apply Z.div_pos; lia.
  - apply Z.div_pos; lia.
  - apply Z.div_lt_upper_bound; lia.
  - pose proof (Z.div_mod n F ltac:(lia)) as En.
    pose proof (Z.div_mod (n / F) 3600 ltac:(lia)) as E1.
    pose proof (Z.div_mod (n / F mod 3600) 60 ltac:(lia)) as E2.
    assert (E3 : n / F mod 60 = n / F mod 3600 mod 60).
    { symmetry. apply Z.mod_mod_divide. exists 60. reflexivity. }
    lia.
Qed.

Lemma frames_to_timecode_whole_rate_fields_witness :
  frames_to_timecode 2700030 (FFin 30) = Ok (lit "25:00:01:00")
  ∧ exists h m s f,
      frames_to_timecode 2700030 (FFin 30) = Ok (timecode_text h m s f)
      ∧ 0 <= h ∧ 0 <= m < 60 ∧ 0 <= s < 60 ∧ 0 <= f < 30
      ∧ 2700030 = (h * 3600 + m * 60 + s) * 30 + f.
Proof.
  split; [vm_compute; reflexivity|].
  apply (frames_to_timecode_whole_rate_fields 2700030 30); lia.
Defined.

(** X18.  At a whole-number rate a timecode in canonical form (minutes and
    seconds below 60, frames below the rate, two digits per field) comes
    back unchanged when it is parsed and the frame count is formatted. *)
Theorem canonical_timecode_text_round_trip (h m s f F : Z) :
  0 <= h -> 0 <= m < 60 -> 0 <= s < 60 -> 0 <= f < F -> F < 2 ^ 50 ->
  (h * 3600 + m * 60 + s) * F + f < 2 ^ 50 ->
  (n ← timecode_to_frames (timecode_text h m s f) (FFin (inject_Z F));
   frames_to_timecode n (FFin (inject_Z F)))
  = Ok (timecode_text h m s f).
Proof.
  intros Hh Hm Hs Hf HF Hb.
  assert (Hbig : 2 ^ 50 < 2 ^ 53) by (apply Z.pow_lt_mono_r; lia).
  rewrite timecode_to_frames_whole_rate_exact_aux by lia.
  cbn [mbind result_bind].
  rewrite frames_to_timecode_whole_rate by nia.
  destruct (canonical_fields h m s f F Hh Hm Hs Hf) as (-> & -> & -> & ->).
  reflexivity.
Qed.

Lemma canonical_timecode_text_round_trip_witness :
  (n ← timecode_to_frames (lit "01:08:35:06") (FFin 30);
   frames_to_timecode n (FFin 30))
  = Ok (lit "01:08:35:06").
Proof.
  apply (canonical_timecode_text_round_trip 1 8 35 6 30); lia.
Defined.

(** ** Premiere ticks *)

Section Ticks.

Local Open Scope Q_scope.

(** Every rate of a template with a timebase up to 65536 is within one
    rounding of its nominal value [P / D]. *)
Lemma get_fps_from_rate_nominal (timebase : Z) (ntsc : bool) :
  (1 <= timebase <= 2 ^ 16)%Z ->
  let P := (if ntsc then 1000 * timebase else timebase)%Z in
  let D := (if ntsc then 1001 else 1)%Z in
  exists phi,
    get_fps_from_rate timebase ntsc = Ok (FFin phi)
    ∧ Qabs (phi - inject_Z P / inject_Z D)
      <= inject_Z P / inject_Z D * pow2 (- 53)
    ∧ 99 # 100 <= phi ∧ phi <= 134217728.
Proof.
  intros Htb P D. destruct ntsc; [apply get_fps_from_rate_ntsc, Htb|].
  unfold P, D. exists (inject_Z timebase).
  assert (T1 : 1 <= inject_Z timebase).
  { change 1 with (inject_Z 1). rewrite <- Zle_Qle. lia. }
  assert (T2 : inject_Z timebase <= 65536).
  { change 65536 with (inject_Z (2 ^ 16)). rewrite <- Zle_Qle. lia. }
  split_and!.
  - unfold get_fps_from_rate. rewrite float_of_int_exact by lia. reflexivity.
  - assert (E : inject_Z timebase - inject_Z timebase / inject_Z 1 == 0) by field.
    rewrite E. cbn [Qabs Z.abs Qnum Qden].
    apply Qmult_le_0_compat; [|apply Qlt_le_weak, pow2_pos].
    apply Qle_shift_div_l; [reflexivity | lra].
  - lra.
  - lra.
Qed.

(** The two roundings of frames_to_ppro_ticks, at a rate within one
    rounding of [P / D], stay less than one tick away from a whole tick
    count [K = n * 254016000000 * D / P] up to [2 ^ 51]. *)
Lemma ticks_budget (K n P D : Z) (phi t w eta : Q) :
  (1 <= D)%Z -> (1000 * D <= 1001 * P)%Z -> (0 <= n)%Z ->
  (K * P = n * PPRO_TICKS_PER_SECOND * D)%Z -> (0 <= K <= 2 ^ 51)%Z ->
  0 <= eta -> eta <= pow2 (- 100) ->
  Qabs (phi - inject_Z P / inject_Z D)
    <= inject_Z P / inject_Z D * pow2 (- 53) ->
  Qabs (t - inject_Z n / phi) <= inject_Z n / phi * pow2 (- 53) + eta ->
  Qabs (w - t * inject_Z PPRO_TICKS_PER_SECOND)
    <= t * inject_Z PPRO_TICKS_PER_SECOND * pow2 (- 53) + eta ->
  inject_Z K - 1 < w ∧ w < inject_Z K + 1.
Proof.
  intros HD HP Hn HK HKb He0 He Hphi Ht Hw.
  assert (C1 : pow2 (- 53) == 1 # 9007199254740992) by reflexivity.
  assert (C2 : pow2 (- 100) == 1 # 1267650600228229401496703205376)
    by reflexivity.
  assert (CT : inject_Z PPRO_TICKS_PER_SECOND == 254016000000) by reflexivity.
  rewrite C1 in *. rewrite C2 in He. rewrite CT in Hw.
  assert (HKq : inject_Z K * inject_Z P
                == inject_Z n * 254016000000 * inject_Z D).
  { rewrite <- CT, <- !inject_Z_mult. rewrite HK. reflexivity. }
  set (Nq := inject_Z n) in *. set (Dq := inject_Z D) in *.
  set (Pq := inject_Z P) in *. set (Kq := inject_Z K) in *.
  assert (D1 : 1 <= Dq).
  { unfold Dq. change 1 with (inject_Z 1). rewrite <- Zle_Qle. lia. }
  assert (P1 : 1000 * Dq <= 1001 * Pq).
  { unfold Dq, Pq. change 1000 with (inject_Z 1000).
    change 1001 with (inject_Z 1001).
    rewrite <- !inject_Z_mult, <- Zle_Qle. lia. }
  assert (N1 : 0 <= Nq).
  { unfold Nq. change 0 with (inject_Z 0). rewrite <- Zle_Qle. lia. }
  assert (K1 : 0 <= Kq).
  { unfold Kq. change 0 with (inject_Z 0). rewrite <- Zle_Qle. lia. }
  assert (K2 : Kq <= 2251799813685248).
  { unfold Kq. change 2251799813685248 with (inject_Z (2 ^ 51)).
    rewrite <- Zle_Qle. lia. }
  assert (F0 : Pq / Dq * Dq == Pq) by (field; lra).
  assert (F1 : 1000 # 1001 <= Pq / Dq) by (apply Qle_shift_div_l; lra).
  set (phi0 := Pq / Dq) in *.
  destruct (Qabs_bounds _ _ Hphi) as [Ph1 Ph2].
  assert (Phi1 : 99 # 100 <= phi) by lra.
  assert (X1 : Nq / phi * phi == Nq) by (field; lra).
  assert (X0 : 0 <= Nq / phi) by (apply Qle_shift_div_l; lra).
  set (x := Nq / phi) in *.
  assert (Y1 : Nq / phi0 * phi0 == Nq) by (field; lra).
  assert (YK : Nq / phi0 * 254016000000 == Kq).
  { assert (E : Kq == Nq * 254016000000 * Dq / Pq).
    { apply (Qmult_inj_r _ _ Pq); [lra|]. rewrite HKq. field. lra. }
    rewrite E. unfold phi0. field. split; lra. }
  set (x0 := Nq / phi0) in *.
  (* the quotient against the nominal quotient *)
  assert (Hx : - (x * (1 # 9007199254740992)) <= x - x0
               ∧ x - x0 <= x * (1 # 9007199254740992)).
  { assert (A1 : - (phi0 * (1 # 9007199254740992)) <= phi0 - phi) by lra.
    assert (A2 : phi0 - phi <= phi0 * (1 # 9007199254740992)) by lra.
    destruct (Qmult_bounds _ _ x A1 A2 X0) as [B1 B2].
    assert (E : (x - x0) * phi0 == (phi0 - phi) * x) by lra.
    assert (Hpos : 0 < phi0) by lra.
    split.
    - apply (Qmult_le_r _ _ phi0 Hpos). lra.
    - apply (Qmult_le_r _ _ phi0 Hpos). lra. }
  destruct Hx as [Hx1 Hx2].
  destruct (Qabs_bounds _ _ Ht) as [T1 T2].
  destruct (Qabs_bounds _ _ Hw) as [W1 W2].
  split; lra.
Qed.

(** X19.  For a template rate whose exact tick count [K] for [n] frames is a
    whole number, frames_to_ppro_ticks returns [K] or [K - 1]: the
    truncation after two roundings can lose one tick, and does so already
    for frame 49 at 24 frames per second. *)
Theorem frames_to_ppro_ticks_exact_or_one_less
    (timebase : Z) (ntsc : bool) (fps : float) (n K : Z) :
  (1 <= timebase <= 2 ^ 16)%Z ->
  get_fps_from_rate timebase ntsc = Ok fps ->
  (0 <= n)%Z ->
  (K * (if ntsc then 1000 * timebase else timebase)
   = n * PPRO_TICKS_PER_SECOND * (if ntsc then 1001 else 1))%Z ->
  (K <= 2 ^ 51)%Z ->
  frames_to_ppro_ticks n fps = Ok K
  ∨ frames_to_ppro_ticks n fps = Ok (K - 1)%Z.
Proof.
  intros Htb Hfps Hn HK HKb.
  destruct (get_fps_from_rate_nominal timebase ntsc Htb)
    as (phi & Efps & Hphi & Phi1 & Phi2).
  rewrite Efps in Hfps. injection Hfps as <-.
  set (P := (if ntsc then 1000 * timebase else timebase)%Z) in *.
  set (D := (if ntsc then 1001 else 1)%Z) in *.
  assert (HD : (1 <= D <= 1001)%Z) by (unfold D; destruct ntsc; lia).
  assert (HP : (1000 * D <= 1001 * P ∧ 1 <= P <= 2 ^ 26)%Z).
  { unfold D, P. destruct ntsc; lia. }
  assert (HK0 : (0 <= K)%Z).
  { unfold PPRO_TICKS_PER_SECOND in HK. nia. }
  assert (Hnb : (n < 2 ^ 53)%Z).
  { unfold PPRO_TICKS_PER_SECOND in HK.
    assert (n * 254016000000 <= K * P)%Z by nia.
    assert (K * P <= 2 ^ 51 * 2 ^ 26)%Z by nia.
    lia. }
  assert (C1 : pow2 (- 53) == 1 # 9007199254740992) by reflexivity.
  assert (Eta : pow2 (- 1075) <= pow2 (- 100)) by (apply pow2_le; lia).
  assert (C2 : pow2 (- 100) == 1 # 1267650600228229401496703205376)
    by reflexivity.
  pose proof (pow2_pos (- 1075)) as Eta0.
  assert (Big : pow2 200 <= pow2 1023) by (apply pow2_le; lia).
  assert (B200 : pow2 200
                 == 1606938044258990275541962092341162602522202993782792835301376)
    by reflexivity.
  assert (N1 : 0 <= inject_Z n).
  { change 0 with (inject_Z 0). rewrite <- Zle_Qle. lia. }
  assert (N2 : inject_Z n <= 9007199254740992).
  { change 9007199254740992 with (inject_Z (2 ^ 53)). rewrite <- Zle_Qle. lia. }
  assert (Habs : (Z.abs n < 2 ^ 53)%Z) by (clear - Hn Hnb; lia).
  unfold frames_to_ppro_ticks.
  rewrite (float_of_int_exact n Habs). cbn [mbind result_bind].
  unfold truediv. cbn [is_zero fdiv]. rewrite (qzero_pos phi) by lra.
  set (x := inject_Z n / phi).
  assert (X1 : x * phi == inject_Z n) by (unfold x; field; lra).
  assert (X0 : 0 <= x) by (unfold x; apply Qle_shift_div_l; lra).
  assert (X2 : x <= 2 * inject_Z n).
  { pose proof (Qmult_le_compat_r _ _ x Phi1 X0). lra. }
  destruct (rnd_err_abs x X0 ltac:(lra)) as (t & -> & Ht0 & Ht).
  cbn [mbind result_bind].
  rewrite (float_of_int_exact PPRO_TICKS_PER_SECOND) by reflexivity.
  cbn [mbind result_bind fmul].
  assert (CT : inject_Z PPRO_TICKS_PER_SECOND == 254016000000) by reflexivity.
  pose proof Ht as Ht'. rewrite C1 in Ht'.
  apply Qabs_Qle_condition in Ht' as [E1 E2].
  assert (TT0 : 0 <= t * inject_Z PPRO_TICKS_PER_SECOND).
  { apply Qmult_le_0_compat; [exact Ht0 | rewrite CT; lra]. }
  assert (TT1 : t * inject_Z PPRO_TICKS_PER_SECOND < pow2 1023).
  { rewrite CT. lra. }
  destruct (rnd_err_abs _ TT0 TT1) as (w & -> & Hw0 & Hw).
  rewrite (int_of_float_nonneg w Hw0).
  destruct (ticks_budget K n P D phi t w (pow2 (- 1075)))
    as [B1 B2]; try assumption; try lia; try (apply Qlt_le_weak, Eta0).
  destruct (Qlt_le_dec w (inject_Z K)) as [Hlt | Hge].
  - right. f_equal. apply Qfloor_unique.
    + unfold Z.sub. rewrite inject_Z_plus. change (inject_Z (- 1)) with (- (1)).
      apply Qlt_le_weak. exact B1.
    + replace (K - 1 + 1)%Z with K by lia. exact Hlt.
  - left. f_equal. apply Qfloor_unique; [exact Hge|].
    rewrite inject_Z_plus. exact B2.
Qed.

Lemma frames_to_ppro_ticks_exact_or_one_less_witness :
  frames_to_ppro_ticks 49 (FFin 24) = Ok 518615999999%Z
  ∧ (49 * (254016000000 / 24) = 518616000000)%Z
  ∧ (frames_to_ppro_ticks 49 (FFin 24) = Ok 518616000000%Z
     ∨ frames_to_ppro_ticks 49 (FFin 24) = Ok (518616000000 - 1)%Z).
Proof.
  split; [vm_compute; reflexivity|]. split; [reflexivity|].
  apply (frames_to_ppro_ticks_exact_or_one_less 24 false (FFin 24) 49
           518616000000).
  - lia.
  - vm_compute. reflexivity.
  - lia.
  - reflexivity.
  - lia.
Defined.

End Ticks.

(** ** The frame field at an NTSC rate *)

Section NtscFields.

Local Open Scope Q_scope.

(** X20.  At an NTSC rate frames_to_timecode writes minutes and seconds below
    60, but a frame field from 0 up to and including the timebase: frame
    539 at 29.97 frames per second is written 00:00:17:30. *)
Theorem frames_to_timecode_ntsc_fields (timebase n : Z) (fps : float) :
  (1 <= timebase <= 2 ^ 16)%Z ->
  get_fps_from_rate timebase true = Ok fps ->
  (0 <= n < 2 ^ 32)%Z ->
  exists h m s f : Z,
    frames_to_timecode n fps = Ok (timecode_text h m s f)
    ∧ (0 <= h ∧ 0 <= m < 60 ∧ 0 <= s < 60 ∧ 0 <= f <= timebase)%Z.
Proof.
  intros Htb Hfps Hn.
  destruct (get_fps_from_rate_ntsc timebase Htb)
    as (phi & Efps & Hphi & Phi1 & Phi2).
  rewrite Efps in Hfps. injection Hfps as <-.
  destruct (frames_to_timecode_any_rate n phi Hn Phi1 Phi2)
    as (t & d & g & -> & Ht & T2 & Herr & Hd & Hg0 & G2 & Hg).
  set (sigma := Qfloor t) in *.
  exists (sigma / 3600)%Z, (sigma mod 3600 / 60)%Z, (sigma mod 60)%Z,
         (round_half_even g).
  split; [reflexivity|].
  assert (S0 : (0 <= sigma)%Z) by (apply Qfloor_nonneg, Ht).
  pose proof (Z.mod_pos_bound sigma 3600 ltac:(lia)) as M1.
  pose proof (Z.mod_pos_bound sigma 60 ltac:(lia)) as M2.
  assert (R0 : (0 <= round_half_even g)%Z) by (apply round_half_even_nonneg, Hg0).
  assert (R1 : (round_half_even g <= timebase)%Z).
  { pose proof (Qfloor_le t) as Fl1. pose proof (Qlt_floor t) as Fl2.
    fold sigma in Fl1, Fl2. rewrite inject_Z_plus in Fl2.
    change (inject_Z 1) with 1 in Fl2.
    assert (C1 : pow2 (- 53) == 1 # 9007199254740992) by reflexivity.
    assert (Eta : pow2 (- 1075) <= 1 # 1267650600228229401496703205376).
    { assert (pow2 (- 1075) <= pow2 (- 100)) by (apply pow2_le; lia).
      assert (pow2 (- 100) == 1 # 1267650600228229401496703205376)
        by reflexivity. lra. }
    pose proof (pow2_pos (- 1075)) as Eta0.
    rewrite C1 in Hphi, Hd, Hg.
    assert (TB1 : 1 <= inject_Z timebase).
    { change 1 with (inject_Z 1). rewrite <- Zle_Qle. lia. }
    assert (P0 : inject_Z (1000 * timebase) / inject_Z 1001
                 == inject_Z timebase * (1000 # 1001)).
    { rewrite inject_Z_mult. change (inject_Z 1000) with 1000.
      change (inject_Z 1001) with 1001. field. }
    rewrite P0 in Hphi.
    apply Qabs_Qle_condition in Hphi as [_ Ph2].
    apply Qabs_Qle_condition in Hd as [_ D2].
    apply Qabs_Qle_condition in Hg as [_ G3].
    assert (Dle : d <= 1 + (1 # 4503599627370496)) by lra.
    assert (Phi0 : 0 <= phi) by lra.
    assert (DP : d * phi <= (1 + (1 # 4503599627370496)) * phi).
    { apply Qmult_le_compat_r; assumption. }
    assert (Gt : g < inject_Z timebase) by lra.
    pose proof (round_half_even_err g) as Hr.
    apply Qabs_Qle_condition in Hr as [_ Hr].
    assert (Hlt : inject_Z (round_half_even g) < inject_Z (timebase + 1)).
    { rewrite inject_Z_plus. change (inject_Z 1) with 1. lra. }
    rewrite <- Zlt_Qlt in Hlt. lia. }
  split_and!; try lia.
  - apply Z.div_pos; lia.
  - apply Z.div_pos; lia.
  - apply Z.div_lt_upper_bound; lia.
Qed.

Lemma frames_to_timecode_ntsc_fields_witness :
  get_fps_from_rate 30 true = Ok (FFin (1054476685978981 # 35184372088832))
  ∧ frames_to_timecode 539 (FFin (1054476685978981 # 35184372088832))
    = Ok (lit "00:00:17:30")
  ∧ exists h m s f : Z,
      frames_to_timecode 539 (FFin (1054476685978981 # 35184372088832))
      = Ok (timecode_text h m s f)
      ∧ (0 <= h ∧ 0 <= m < 60 ∧ 0 <= s < 60 ∧ 0 <= f <= 30)%Z.
Proof.
  split; [vm_compute; reflexivity|]. split; [vm_compute; reflexivity|].
  apply (frames_to_timecode_ntsc_fields 30 539).
  - lia.
  - vm_compute. reflexivity.
  - lia.
Defined.

End NtscFields.

(** ** Clips and gaps of the spine *)

Lemma layout_cons_block gap_frames s rest pos :
  seg_is_gap s = false ->
  layout gap_frames (s :: rest) pos []
  = (mkPos (pos + gap_frames) (duration_frames s) (start_frames s) (seg_color s)
     :: fst (layout gap_frames rest (pos + gap_frames + duration_frames s) []),
     snd (layout gap_frames rest (pos + gap_frames + duration_frames s) [])).
Proof.
  intros Hg. cbn [layout]. rewrite Hg. rewrite layout_spec.
  cbn [app fst snd]. f_equal. rewrite (layout_spec _ _ _ []). reflexivity.
Qed.

Lemma layout_cons_gap gap_frames s rest pos :
  seg_is_gap s = true ->
  layout gap_frames (s :: rest) pos []
  = layout gap_frames rest (pos + duration_frames s) [].
Proof. intros Hg. cbn [layout]. rewrite Hg. reflexivity. Qed.

Lemma spine_clips prev idx ps :
  List.filter is_clip (spine_from prev idx ps)
  = numbered (fun i p => SClip i (p_duration p) (p_source_start p)
                           (color_to_davinci (default [] (p_color p))))
             idx ps.
Proof.
  revert prev idx. induction ps as [|p ps IH]; intros prev idx; [reflexivity|].
  cbn [spine_from numbered]. rewrite List.filter_app.
  replace (List.filter is_clip _) with (@nil spine_elem).
  2:{ destruct prev as [q|]; [destruct (0 <? p_start p - _) | destruct (0 <? p_start p)];
        reflexivity. }
  cbn. rewrite IH. reflexivity.
Qed.

Lemma layout_clips gap_frames segs : forall pos idx,
  numbered (fun i p => SClip i (p_duration p) (p_source_start p)
                         (color_to_davinci (default [] (p_color p))))
           idx (fst (layout gap_frames segs pos []))
  = numbered clip_of_block idx (blocks segs).
Proof.
  induction segs as [|s rest IH]; intros pos idx; [reflexivity|].
  unfold blocks. cbn [List.filter].
  destruct (seg_is_gap s) eqn:Hg; cbn [negb].
  - rewrite layout_cons_gap by exact Hg. apply IH.
  - rewrite layout_cons_block by exact Hg. cbn [fst numbered].
    f_equal. apply IH.
Qed.

(** X21.  The clips of the spine are the block segments, in order and numbered
    from 1: clip k has the duration and the source in-point of the k-th
    block and the DaVinci colour of the block's colour.  Gap segments and
    warnings add no clip. *)
Theorem davinci_clips_are_the_blocks
    (csv_path : path_state) (template_xml : option media_info)
    (gap_seconds : float) (doc : fcpxml) :
  generate_davinci_xml csv_path template_xml gap_seconds = Ok doc ->
  exists info fps rows segs warns,
    template_xml = Some info
    ∧ get_fps_from_rate (timebase info) (ntsc info) = Ok fps
    ∧ parse_csv csv_path = Ok rows
    ∧ build_segments rows fps = Ok (segs, warns)
    ∧ List.filter is_clip (spine doc) = numbered clip_of_block 1 (blocks segs).
Proof.
  unfold generate_davinci_xml. intros H.
  destruct template_xml as [info|]; [|destruct csv_path; discriminate].
  destruct csv_path as [| | |f]; try discriminate.
  { destruct (get_fps_from_rate _ _); [|discriminate].
    cbn [mbind result_bind] in H.
    destruct (py_round _); [cbn in H|]; discriminate. }
  destruct (get_fps_from_rate _ _) as [fps|] eqn:Efps; [|discriminate].
  cbn [mbind result_bind] in H.
  destruct (py_round _) as [gap_frames|] eqn:Egap; [|discriminate].
  cbn [mbind result_bind] in H.
  destruct (parse_csv _) as [rows|] eqn:Erows; [|discriminate].
  cbn [mbind result_bind] in H.
  destruct (build_segments _ _) as [[segs warns]|] eqn:Eb; [|discriminate].
  cbn [mbind result_bind fst] in H.
  destruct (layout gap_frames segs 0 []) as [ps total] eqn:El.
  injection H as <-. cbn [spine].
  exists info, fps, rows, segs, warns.
  split_and!; try assumption; try reflexivity.
  rewrite spine_clips.
  replace ps with (fst (layout gap_frames segs 0 [])) by (rewrite El; reflexivity).
  apply layout_clips.
Qed.

Lemma davinci_clips_are_the_blocks_witness :
  exists doc,
    generate_davinci_xml Scenario.end_to_end_csv (Some (mkInfo 30 false)) (FFin 1)
    = Ok doc
    ∧ List.filter is_clip (spine doc)
      = [SClip 1 300 0 (lit "violet"); SClip 2 150 300 (lit "rose")]
    ∧ exists info fps rows segs warns,
        Some (mkInfo 30 false) = Some info
        ∧ get_fps_from_rate (timebase info) (ntsc info) = Ok fps
        ∧ parse_csv Scenario.end_to_end_csv = Ok rows
        ∧ build_segments rows fps = Ok (segs, warns)
        ∧ List.filter is_clip (spine doc)
          = numbered clip_of_block 1 (blocks segs).
Proof.
  exists (mkFcpxml 570 10570
            [SGap 30; SClip 1 300 0 (lit "violet"); SGap 30;
             SClip 2 150 300 (lit "rose")]).
  split; [vm_compute; reflexivity|]. split; [reflexivity|].
  apply (davinci_clips_are_the_blocks Scenario.end_to_end_csv
           (Some (mkInfo 30 false)) (FFin 1)).
  vm_compute. reflexivity.
Defined.

Lemma positions_end_from ps a b :
  ps <> [] -> positions_end a ps = positions_end b ps.
Proof. destruct ps; [contradiction | reflexivity]. Qed.

Lemma positions_end_mono ps a b :
  a <= b -> positions_end a ps <= positions_end b ps.
Proof. intros Hab. destruct ps; cbn; lia. Qed.

Lemma well_spaced_from ps a b :
  a <= b -> well_spaced b ps -> well_spaced a ps.
Proof.
  intros Hab. destruct ps as [|p ps]; cbn; [auto|].
  intros (H1 & H2 & H3). split_and!; [lia | exact H2 | exact H3].
Qed.

Lemma layout_well_spaced gap_frames segs : forall pos,
  0 <= gap_frames ->
  well_spaced pos (fst (layout gap_frames segs pos []))
  ∧ positions_end pos (fst (layout gap_frames segs pos []))
    <= snd (layout gap_frames segs pos [])
  ∧ (forall b, last segs = Some b -> seg_is_gap b = false ->
       positions_end pos (fst (layout gap_frames segs pos []))
       = snd (layout gap_frames segs pos [])).
Proof.
  induction segs as [|s rest IH]; intros pos Hg.
  - cbn. split; [exact I|]. split; [lia | discriminate].
  - assert (Hd : 0 <= duration_frames s) by (unfold duration_frames; lia).
    destruct (seg_is_gap s) eqn:Es.
    + rewrite layout_cons_gap by exact Es.
      destruct (IH (pos + duration_frames s) Hg) as (W & E & L).
      split; [eapply well_spaced_from; [|exact W]; lia|].
      split.
      * etransitivity; [|exact E]. apply positions_end_mono. lia.
      * intros b Hl Hb.
        assert (Hl' : last rest = Some b).
        { destruct rest as [|s' rest']; [|exact Hl].
          cbn in Hl. injection Hl as <-. congruence. }
        rewrite <- (L b Hl' Hb). apply positions_end_from.
        intros Hnil. apply (f_equal (@length pos_info)) in Hnil.
        rewrite layout_length in Hnil.
        assert (Hin : b ∈ blocks rest).
        { unfold blocks. apply list_elem_of_In, filter_In. split.
          - apply list_elem_of_In. rewrite last_Some in Hl'.
            destruct Hl' as [l' ->]. apply elem_of_app. right.
            apply list_elem_of_here.
          - rewrite Hb. reflexivity. }
        destruct (blocks rest); [apply elem_of_nil in Hin; exact Hin | discriminate].
    + rewrite layout_cons_block by exact Es.
      cbn [fst snd well_spaced positions_end p_start p_duration].
      destruct (IH (pos + gap_frames + duration_frames s) Hg) as (W & E & L).
      split; [split_and!; [lia | exact Hd | exact W]|].
      split; [exact E|].
      intros b Hl Hb. destruct rest as [|s' rest'].
      * cbn. reflexivity.
      * apply (L b); [exact Hl | exact Hb].
Qed.

Lemma spine_offsets ps : forall prev idx at_,
  match prev with
  | None => at_ = 0
  | Some q => at_ = p_start q + p_duration q
  end ->
  well_spaced at_ ps ->
  clip_offsets at_ (spine_from prev idx ps) = List.map p_start ps
  ∧ at_ + spine_duration (spine_from prev idx ps) = positions_end at_ ps
  ∧ Forall (fun e => is_clip e = false -> 0 < elem_duration e)
           (spine_from prev idx ps).
Proof.
  induction ps as [|p rest IH]; intros prev idx at_ Hat Hw.
  - cbn. split_and!; [reflexivity | lia | constructor].
  - destruct Hw as (H1 & H2 & H3).
    destruct (IH (Some p) (S idx) (p_start p + p_duration p) eq_refl H3)
      as (O & D & G).
    cbn [spine_from List.map positions_end].
    set (tail := spine_from (Some p) (S idx) rest) in *.
    set (clip := SClip idx (p_duration p) (p_source_start p)
                       (color_to_davinci (default [] (p_color p)))).
    assert (Hgap : exists gap,
      (match prev with
       | None => if 0 <? p_start p then [SGap (p_start p)] else []
       | Some q =>
           if 0 <? p_start p - (p_start q + p_duration q)
           then [SGap (p_start p - (p_start q + p_duration q))] else []
       end) = gap
      ∧ (gap = [] ∧ p_start p = at_
         ∨ gap = [SGap (p_start p - at_)] ∧ 0 < p_start p - at_)).
    { eexists. split; [reflexivity|]. destruct prev as [q|]; subst at_.
      - destruct (Z.ltb_spec 0 (p_start p - (p_start q + p_duration q)));
          [right | left]; split; try reflexivity; lia.
      - destruct (Z.ltb_spec 0 (p_start p)); [right | left].
        + split; [f_equal; f_equal; lia | lia].
        + split; [reflexivity | lia]. }
    destruct Hgap as (gap & -> & [[-> Hs] | [-> Hs]]); cbn [app].
    + unfold clip.
      cbn [clip_offsets spine_duration fold_right elem_duration].
      fold (spine_duration tail). rewrite <- Hs in *. split_and!.
      * f_equal. exact O.
      * lia.
      * constructor; [discriminate | exact G].
    + unfold clip.
      cbn [clip_offsets spine_duration fold_right elem_duration].
      fold (spine_duration tail).
      replace (at_ + (p_start p - at_)) with (p_start p) by lia. split_and!.
      * f_equal. exact O.
      * lia.
      * constructor; [intros _; exact Hs|]. constructor; [discriminate | exact G].
Qed.

(** X22.  With a pause of zero or more frames, the spine agrees with the
    timeline positions: laid end to end from 0, its clips start exactly at
    the positions computed for them, every gap element has a positive
    duration, and the spine ends where the last clip ends.  That is never
    after the sequence duration, and it is before it when gap segments
    follow the last block: their time is in the sequence duration but not
    in the spine. *)
Theorem davinci_spine_matches_positions
    (gap_frames : Z) (segs : list Segment) :
  0 <= gap_frames ->
  let positions := fst (layout gap_frames segs 0 []) in
  let total_duration := snd (layout gap_frames segs 0 []) in
  let spine := spine_from None 1 positions in
  clip_offsets 0 spine = List.map p_start positions
  ∧ Forall (fun e => is_clip e = false -> 0 < elem_duration e) spine
  ∧ spine_duration spine = positions_end 0 positions
  ∧ spine_duration spine <= total_duration
  ∧ (forall b, last segs = Some b -> seg_is_gap b = false ->
       spine_duration spine = total_duration).
Proof.
  intros Hg positions total_duration spine.
  destruct (layout_well_spaced gap_frames segs 0 Hg) as (W & E & L).
  destruct (spine_offsets positions None 1%nat 0 eq_refl W) as (O & D & G).
  fold positions total_duration in E, L. fold spine in O, D, G.
  split_and!; [exact O | exact G | lia | lia |].
  intros b Hl Hb. specialize (L b Hl Hb). lia.
Qed.

Lemma davinci_spine_matches_positions_witness :
  let segs := [Scenario.inverted_block;
               gap_segment (Scenario.row "" "GAP" "" "") 10 70;
               block_segment (Scenario.row "A" "Rose" "" "") 300 450;
               gap_segment (Scenario.row "" "GAP" "" "") 0 25] in
  let positions := fst (layout 30 segs 0 []) in
  let spine := spine_from None 1 positions in
  spine = [SGap 30; SClip 1 0 300 (lit "violet"); SGap 90;
           SClip 2 150 300 (lit "rose")]
  ∧ snd (layout 30 segs 0 []) = 295
  ∧ clip_offsets 0 spine = [30; 120]
  ∧ spine_duration spine = 270.
Proof.
  intros segs positions spine.
  split; [vm_compute; reflexivity|]. split; [vm_compute; reflexivity|].
  destruct (davinci_spine_matches_positions 30 segs ltac:(lia))
    as (O & _ & D & _).
  split; [exact O | exact D].
Defined.

(** ** Rational times of the FCPXML document *)

Lemma frames_to_rational_by_branch frames fps :
  _frames_to_rational frames fps
  = (b ← rational_branch fps;
     if fst b : bool
     then rational_text (frames * 1001) (snd b)
     else rational_text frames (snd b)).
Proof.
  unfold _frames_to_rational, rational_branch, rational_text.
  destruct (near_rate fps (float_literal 23976 1000)).
  { cbn [mbind result_bind fst snd].
    destruct (str_of_int (frames * 1001)); reflexivity. }
  destruct (near_rate fps (float_literal 2997 100)).
  { cbn [mbind result_bind fst snd].
    destruct (str_of_int (frames * 1001)); reflexivity. }
  destruct (near_rate fps (float_literal 5994 100)).
  { cbn [mbind result_bind fst snd].
    destruct (str_of_int (frames * 1001)); reflexivity. }
  destruct (py_round fps); reflexivity.
Qed.

Lemma branches_checked : forallb branch_check (seq 1 500) = true.
Proof. vm_compute. reflexivity. Qed.

(** X23.  For every rate of a template with a timebase from 1 to 500,
    _frames_to_rational writes [frames * 1001 / (timebase * 1000)] at the
    NTSC rates of the timebases 24, 30 and 60, which is the exact time at
    the nominal rate, and [frames / timebase] at every other rate.  For the
    NTSC rates of other timebases (25, 48, 50, ...) that drops the factor
    1001/1000. *)
Theorem frames_to_rational_template_rates
    (timebase frames : Z) (ntsc : bool) (fps : float) :
  1 <= timebase <= 500 ->
  get_fps_from_rate timebase ntsc = Ok fps ->
  _frames_to_rational frames fps
  = if ntsc && ((timebase =? 24) || (timebase =? 30) || (timebase =? 60))
    then rational_text (frames * 1001) (timebase * 1000)
    else rational_text frames timebase.
Proof.
  intros Htb Hfps.
  pose proof branches_checked as Hall. rewrite forallb_forall in Hall.
  assert (Hin : In (Z.to_nat timebase) (seq 1 500)) by (apply in_seq; lia).
  specialize (Hall _ Hin). unfold branch_check in Hall.
  rewrite Z2Nat.id in Hall by lia. rewrite forallb_forall in Hall.
  assert (Hn : In ntsc [true; false]) by (destruct ntsc; cbn; auto).
  specialize (Hall _ Hn). rewrite Hfps in Hall.
  destruct (rational_branch fps) as [b|] eqn:Eb; [|discriminate].
  apply bool_decide_eq_true_1 in Hall. subst b.
  rewrite frames_to_rational_by_branch, Eb. cbn [mbind result_bind].
  unfold template_branch.
  destruct (ntsc && ((timebase =? 24) || (timebase =? 30) || (timebase =? 60)));
    reflexivity.
Qed.

Lemma frames_to_rational_template_rates_witness :
  get_fps_from_rate 30 true = Ok (FFin (1054476685978981 # 35184372088832))
  ∧ _frames_to_rational 300 (FFin (1054476685978981 # 35184372088832))
    = Ok (lit "300300/30000s")
  ∧ _frames_to_rational 300 (FFin (1054476685978981 # 35184372088832))
    = rational_text (300 * 1001) (30 * 1000).
Proof.
  split; [vm_compute; reflexivity|]. split; [vm_compute; reflexivity|].
  apply (frames_to_rational_template_rates 30 300 true).
  - lia.
  - vm_compute. reflexivity.
Defined.

(** ** The rate the writers read from a template *)

(** X24.  When the template's sequence gives both a timebase and an ntsc text,
    the Premiere writer and extract_media_info read the same rate: the
    timebase text through [int()], and NTSC exactly when the ntsc text,
    stripped, is "true" in any letter case. *)
Theorem writers_agree_on_a_stated_rate
    (root sequence rate : Xml.element) (stem timebase_text ntsc_text : str) :
  Xml.find (lit "sequence") root = Some sequence ->
  Xml.find (lit "rate") sequence = Some rate ->
  Xml.truthy_text (Xml.find (lit "timebase") rate) = Some timebase_text ->
  Xml.truthy_text (Xml.find (lit "ntsc") rate) = Some ntsc_text ->
  template_rate root
  = (timebase ← int_of_str timebase_text;
     Ok (timebase, bool_decide (upper (strip ntsc_text) = lit "TRUE")))
  ∧ ((fun info => (i_timebase info, i_ntsc info))
       <$> extract_media_info root stem)
    = (rate ← template_rate root;
       _ ← get_fps_from_rate (fst rate) (snd rate); Ok rate)
  ∧ (i_fps <$> extract_media_info root stem) = template_fps root.
Proof.
  intros Hs Hr Ht Hn.
  unfold template_fps, template_rate, extract_media_info.
  rewrite Hs, Hr, Ht, Hn.
  destruct (int_of_str timebase_text) as [tb|e]; cbn; [|auto].
  destruct (get_fps_from_rate tb _); cbn; auto.
Qed.

Lemma writers_agree_on_a_stated_rate_witness :
  template_rate (Scenario.template_with_rate "25" " True ") = Ok (25, true)
  ∧ (i_fps <$> extract_media_info (Scenario.template_with_rate "25" " True ")
                                  (lit "template"))
    = template_fps (Scenario.template_with_rate "25" " True ").
Proof.
  split; [vm_compute; reflexivity|].
  apply (writers_agree_on_a_stated_rate
           (Scenario.template_with_rate "25" " True ")
           (Xml.Element (lit "sequence") [] None
              [Scenario.leaf "name" "Interview";
               Xml.Element (lit "rate") [] None
                 [Scenario.leaf "timebase" "25"; Scenario.leaf "ntsc" " True "]])
           (Xml.Element (lit "rate") [] None
              [Scenario.leaf "timebase" "25"; Scenario.leaf "ntsc" " True "])
           (lit "template") (lit "25") (lit " True "));
    vm_compute; reflexivity.
Defined.

(** X25.  When the template's sequence has no rate block the two writers work
    at different rates from the same template: the Premiere writer at
    30 NTSC (29.97 frames per second), extract_media_info at 24. *)
Theorem writers_differ_without_a_rate
    (root sequence : Xml.element) (stem : str) :
  Xml.find (lit "sequence") root = Some sequence ->
  Xml.find (lit "rate") sequence = None ->
  template_rate root = Ok (30, true)
  ∧ template_fps root = Ok (FFin (1054476685978981 # 35184372088832))
  ∧ ((fun info => (i_timebase info, i_ntsc info, i_fps info))
       <$> extract_media_info root stem)
    = Ok (24, false, FFin 24).
Proof.
  intros Hs Hr. unfold template_fps, template_rate, extract_media_info.
  rewrite Hs, Hr. split_and!; [reflexivity | vm_compute; reflexivity |].
  cbn [mbind result_bind fst snd].
  change (get_fps_from_rate 24 false) with (Ok (FFin 24)).
  reflexivity.
Qed.

Lemma writers_differ_without_a_rate_witness :
  template_fps Scenario.template_without_rate
  = Ok (FFin (1054476685978981 # 35184372088832))
  ∧ (i_fps <$> extract_media_info Scenario.template_without_rate (lit "t"))
    = Ok (FFin 24).
Proof.
  destruct (writers_differ_without_a_rate Scenario.template_without_rate
              (Xml.Element (lit "sequence") [] None
                 [Scenario.leaf "name" "Interview"])
              (lit "t") eq_refl eq_refl) as (_ & H1 & H2).
  split; [exact H1|]. vm_compute. reflexivity.
Defined.

(** ** What the Premiere writer can write *)

Lemma clip_step_returns lower gap_frames fps media_files track_idx channel
    st seg st' :
  clip_step lower gap_frames fps media_files track_idx channel st seg = Ok st' ->
  seg_is_gap seg = true
  ∧ clips st' = clips st ∧ max_timeline_end st' = max_timeline_end st
  ∧ next_clip_num st' = next_clip_num st.
Proof.
  unfold clip_step. destruct (seg_is_gap seg).
  - intros H. injection H as <-. cbn. auto.
  - rewrite Segment_has_no_file_name. discriminate.
Qed.

Lemma track_loop_returns lower gap_frames fps media_files track_idx channel
    segs :
  forall st st',
  track_loop lower gap_frames fps media_files track_idx channel st segs
  = Ok st' ->
  Forall (fun s => seg_is_gap s = true) segs
  ∧ clips st' = clips st ∧ max_timeline_end st' = max_timeline_end st
  ∧ next_clip_num st' = next_clip_num st.
Proof.
  induction segs as [|seg rest IH]; intros st st' H; cbn [track_loop] in H.
  - injection H as <-. split; [constructor | auto].
  - destruct (clip_step _ _ _ _ _ _ st seg) as [st1|] eqn:E; [|discriminate].
    cbn [mbind result_bind] in H.
    destruct (clip_step_returns _ _ _ _ _ _ _ _ _ E) as (Hg & C1 & M1 & N1).
    destruct (IH _ _ H) as (Hall & C2 & M2 & N2).
    split; [constructor; assumption|].
    split_and!; congruence.
Qed.

Lemma tracks_loop_returns lower audio gap_frames fps media_files segs tracks :
  forall track_idx st out st' out',
  tracks_loop lower audio gap_frames fps media_files segs track_idx tracks
              st out
  = Ok (st', out') ->
  max_timeline_end st' = max_timeline_end st
  ∧ (Exists populated tracks -> Forall (fun s => seg_is_gap s = true) segs)
  ∧ out' = out ++ List.map without_clips tracks.
Proof.
  induction tracks as [|template_track rest IH];
    intros track_idx st out st' out' H; cbn [tracks_loop] in H.
  - injection H as <- <-. split; [reflexivity|].
    split; [intros Hex; apply Exists_nil in Hex; contradiction|].
    cbn. rewrite app_nil_r. reflexivity.
  - cbn [List.map]. unfold without_clips at 1.
    destruct (Xml.findall (lit "clipitem") template_track)
      as [|default_clipitem others] eqn:Ec.
    + destruct (IH _ _ _ _ _ H) as (M2 & Hg & ->).
      split; [exact M2|]. split.
      * intros Hex. apply Exists_cons in Hex as [Hp | Hex]; [|exact (Hg Hex)].
        contradiction Hp.
      * rewrite <- app_assoc. reflexivity.
    + destruct (track_loop _ _ _ _ _ _ _ segs) as [st1|] eqn:E; [|discriminate].
      cbn [mbind result_bind] in H.
      destruct (track_loop_returns _ _ _ _ _ _ _ _ _ E) as (Hall & C1 & M1 & N1).
      cbn in C1, M1.
      destruct (IH _ _ _ _ _ H) as (M2 & _ & ->).
      split; [congruence|]. split; [intros _; exact Hall|].
      rewrite C1, <- app_assoc. reflexivity.
Qed.

(** What a returned document looks like, shared by the statements below. *)
Lemma premiere_writes_no_clip_aux lower csv_path template_xml write_xml
    gap_seconds doc :
  generate_premiere_xml lower csv_path template_xml write_xml gap_seconds
  = Ok doc ->
  x_duration doc = 0
  ∧ write_xml doc = Ok tt
  ∧ exists t fps rows segs warns,
      template_xml = Some t
      ∧ x_video doc = List.map without_clips (t_video_tracks t)
      ∧ x_audio doc = List.map without_clips (t_audio_tracks t)
      ∧ get_fps_from_rate (t_timebase t) (t_ntsc t) = Ok fps
      ∧ parse_csv csv_path = Ok rows
      ∧ build_segments rows fps = Ok (segs, warns)
      ∧ (Exists populated (t_video_tracks t ++ t_audio_tracks t) ->
         blocks segs = []).
Proof.
  unfold generate_premiere_xml. intros H.
  destruct template_xml as [t|]; [|destruct csv_path; discriminate].
  assert (H' :
    (if bool_decide (t_media_files t = []) then Raise ValueError
     else if negb (t_has_sequence t) then Raise ValueError
     else
       fps ← get_fps_from_rate (t_timebase t) (t_ntsc t);
       gap_frames ← py_round (fmul fps gap_seconds);
       rows ← parse_csv csv_path;
       built ← build_segments rows fps;
       let segs := fst built in
       v ← tracks_loop lower false gap_frames fps (t_media_files t) segs 0
             (t_video_tracks t)
             (mkW 0 (t_max_clip_num t + 1) 0 ∅ []) [];
       a ← tracks_loop lower true gap_frames fps (t_media_files t) segs 0
             (t_audio_tracks t) (fst v) [];
       let doc := mkXmeml (max_timeline_end (fst a)) (snd v) (snd a) in
       _ ← write_xml doc;
       Ok doc) = Ok doc).
  { destruct csv_path; first [discriminate | exact H]. }
  clear H. rename H' into H.
  destruct (bool_decide (t_media_files t = [])); [discriminate|].
  destruct (negb (t_has_sequence t)); [discriminate|].
  destruct (get_fps_from_rate _ _) as [fps|] eqn:Efps; [|discriminate].
  cbn [mbind result_bind] in H.
  destruct (py_round _) as [gap_frames|]; [|discriminate].
  cbn [mbind result_bind] in H.
  destruct (parse_csv _) as [rows|] eqn:Erows; [|discriminate].
  cbn [mbind result_bind] in H.
  destruct (build_segments _ _) as [[segs warns]|] eqn:Eb; [|discriminate].
  cbn [mbind result_bind fst] in H.
  destruct (tracks_loop lower false _ _ _ _ _ _ _ _) as [[stv outv]|] eqn:Ev;
    [|discriminate].
  cbn [mbind result_bind fst snd] in H.
  destruct (tracks_loop lower true _ _ _ _ _ _ _ _) as [[sta outa]|] eqn:Ea;
    [|discriminate].
  cbn [mbind result_bind fst snd] in H.
  destruct (write_xml _) as [[]|] eqn:Ew; [|discriminate].
  cbn [mbind result_bind] in H. injection H as <-.
  destruct (tracks_loop_returns _ _ _ _ _ _ _ _ _ _ _ _ Ev) as (Mv & Gv & ->).
  destruct (tracks_loop_returns _ _ _ _ _ _ _ _ _ _ _ _ Ea) as (Ma & Ga & ->).
  cbn [x_duration x_video x_audio app].
  split; [rewrite Ma, Mv; reflexivity|].
  split; [exact Ew|].
  exists t, fps, rows, segs, warns.
  split_and!; try assumption; try reflexivity.
  intros Hex.
  assert (Hall : Forall (fun s => seg_is_gap s = true) segs).
  { apply Exists_app in Hex as [Hex | Hex]; [exact (Gv Hex) | exact (Ga Hex)]. }
  unfold blocks. clear - Hall.
  induction Hall as [|s rest Hs _ IH]; cbn; [reflexivity|].
  rewrite Hs. cbn. exact IH.
Qed.

(** X26.  Whenever the Premiere writer returns, it has generated no clip
    item and the sequence duration it wrote is 0: every track of the
    document is the template's track copied as it is (a track without a
    clipitem child) or the template's track built anew without a single
    generated clip item.  If the template has a track with a clipitem
    child, the writer returns only for a CSV without any block segment. *)
Theorem premiere_writes_no_clip
    (lower : str -> str)
    (csv_path : path_state) (template_xml : option template)
    (write_xml : xmeml -> result unit)
    (gap_seconds : float) (doc : xmeml) :
  generate_premiere_xml lower csv_path template_xml write_xml gap_seconds
  = Ok doc ->
  x_duration doc = 0
  ∧ exists t fps rows segs warns,
      template_xml = Some t
      ∧ x_video doc = List.map without_clips (t_video_tracks t)
      ∧ x_audio doc = List.map without_clips (t_audio_tracks t)
      ∧ get_fps_from_rate (t_timebase t) (t_ntsc t) = Ok fps
      ∧ parse_csv csv_path = Ok rows
      ∧ build_segments rows fps = Ok (segs, warns)
      ∧ (Exists populated (t_video_tracks t ++ t_audio_tracks t) ->
         blocks segs = []).
Proof.
  intros H.
  destruct (premiere_writes_no_clip_aux _ _ _ _ _ _ H) as (Hd & _ & Hex).
  split; [exact Hd | exact Hex].
Qed.

Lemma premiere_writes_no_clip_witness :
  let csv := Opened (mkCsvFile
               [TARGET_HEADERS;
                Scenario.record "" "GAP_1" "00:00:15:00" "00:00:17:00"]
               None) in
  let doc := mkXmeml 0
               [Rebuilt Scenario.populated_track [];
                Rebuilt Scenario.populated_track []]
               [Rebuilt Scenario.populated_track [];
                Copied Scenario.bare_track] in
  generate_premiere_xml Scenario.ascii_lower csv (Some Scenario.two_file_template)
    Scenario.writable (FFin 1)
  = Ok doc
  ∧ x_duration doc = 0
  ∧ exists t fps rows segs warns,
      Some Scenario.two_file_template = Some t
      ∧ x_video doc = List.map without_clips (t_video_tracks t)
      ∧ x_audio doc = List.map without_clips (t_audio_tracks t)
      ∧ get_fps_from_rate (t_timebase t) (t_ntsc t) = Ok fps
      ∧ parse_csv csv = Ok rows
      ∧ build_segments rows fps = Ok (segs, warns)
      ∧ (Exists populated (t_video_tracks t ++ t_audio_tracks t) ->
         blocks segs = []).
Proof.
  intros csv doc. split; [vm_compute; reflexivity|].
  apply (premiere_writes_no_clip Scenario.ascii_lower csv (Some Scenario.two_file_template)
           Scenario.writable (FFin 1) doc).
  vm_compute. reflexivity.
Defined.

(** ** The command line *)

Ltac main_case :=
  repeat split; intros; simplify_eq; cbn in *; try discriminate; eauto 10.

(** X27.  [main] returns 0 only when the arguments were parsed, the format
    is premiere, both files exist and generate_premiere_xml returned after
    writing its document; the sequence written then has duration 0 and no
    generated clip item.  With [--format davinci] it never returns 0: the
    DaVinci writer is not called. *)
Theorem main_exit_status (lower : str -> str) (argv : Cli.command_line) :
  (Cli.main lower argv = Ok 0 ->
   exists a doc,
     argv = Cli.Parsed a
     ∧ Cli.format a = Cli.FormatPremiere
     ∧ Cli.csv_file a <> Missing ∧ Cli.template_xml a <> None
     ∧ generate_premiere_xml lower (Cli.csv_file a) (Cli.template_xml a)
         (Cli.output a) (Cli.gap a) = Ok doc
     ∧ Cli.output a doc = Ok tt
     ∧ x_duration doc = 0
     ∧ (exists t, Cli.template_xml a = Some t
          ∧ x_video doc = List.map without_clips (t_video_tracks t)
          ∧ x_audio doc = List.map without_clips (t_audio_tracks t)))
  ∧ (forall a, argv = Cli.Parsed a -> Cli.format a = Cli.FormatDavinci ->
       Cli.main lower argv <> Ok 0).
Proof.
  unfold Cli.main. destruct argv as [| |a]; [main_case | main_case |].
  destruct a as [csv tpl out fmt g].
  cbn [Cli.csv_file Cli.template_xml Cli.format Cli.output Cli.gap].
  destruct csv as [| | |f]; [main_case | main_case | |];
    (destruct tpl as [t|]; [|main_case]; destruct fmt; [|main_case];
     match goal with
     | |- context [generate_premiere_xml ?l ?c ?t ?o ?g] =>
         destruct (generate_premiere_xml l c t o g) as [doc|e] eqn:E;
         [|main_case]
     end;
     destruct (premiere_writes_no_clip_aux _ _ _ _ _ _ E)
       as (Hd & Hw & t' & fps & rows & segs & warns & Et & Hv & Ha & _);
     split_and!; [| main_case ..];
     intros _; eexists (Cli.mkArgs _ _ _ _ _), doc;
     cbn [Cli.csv_file Cli.template_xml Cli.format Cli.output Cli.gap];
     split_and!; try done; exists t'; auto).
Qed.

Lemma main_exit_status_witness :
  let a := Cli.mkArgs
             (Opened (mkCsvFile
                [TARGET_HEADERS;
                 Scenario.record "" "GAP_1" "00:00:15:00" "00:00:17:00"]
                None))
             (Some Scenario.two_file_template) Scenario.writable
             Cli.FormatPremiere (FFin 5) in
  Cli.main Scenario.ascii_lower (Cli.Parsed a) = Ok 0
  ∧ exists a' doc,
      Cli.Parsed a = Cli.Parsed a'
      ∧ Cli.format a' = Cli.FormatPremiere
      ∧ Cli.csv_file a' <> Missing ∧ Cli.template_xml a' <> None
      ∧ generate_premiere_xml Scenario.ascii_lower (Cli.csv_file a') (Cli.template_xml a')
          (Cli.output a') (Cli.gap a') = Ok doc
      ∧ Cli.output a' doc = Ok tt
      ∧ x_duration doc = 0
      ∧ (exists t, Cli.template_xml a' = Some t
           ∧ x_video doc = List.map without_clips (t_video_tracks t)
           ∧ x_audio doc = List.map without_clips (t_audio_tracks t)).
Proof.
  intros a. split; [vm_compute; reflexivity|].
  apply (main_exit_status Scenario.ascii_lower (Cli.Parsed a)). vm_compute. reflexivity.
Defined.

(** The end-to-end scenario on the command line: status 1, whatever the
    format; a usage error leaves with status 2. *)
Example main_end_to_end :
  (forall fmt,
     Cli.main Scenario.ascii_lower
       (Cli.Parsed (Cli.mkArgs Scenario.end_to_end_csv
                      (Some Scenario.two_file_template) Scenario.writable
                      fmt (FFin 5))) = Ok 1)
  ∧ Cli.main Scenario.ascii_lower Cli.UsageError = Raise (SystemExit 2).
Proof. split; [intros []; vm_compute; reflexivity | reflexivity]. Qed.

(** ** The media files of a template *)

Lemma extract_step_invariant find_file_by_id isdigit acc clipitem acc' :
  extract_step find_file_by_id isdigit acc clipitem = Ok acc' ->
  (forall n, n ∈ snd acc <-> n ∈ List.map fi_name (fst acc)) ->
  NoDup (List.map fi_name (fst acc)) ->
  (forall n, n ∈ snd acc' <-> n ∈ List.map fi_name (fst acc'))
  ∧ NoDup (List.map fi_name (fst acc'))
  ∧ (length (fst acc) <= length (fst acc') <= S (length (fst acc)))%nat.
Proof.
  intros H Hseen Hnd. unfold extract_step in H.
  destruct acc as [media_files seen_names]. cbn [fst snd] in *.
  assert (Hsame : acc' = (media_files, seen_names) ->
    (forall n, n ∈ snd acc' <-> n ∈ List.map fi_name (fst acc'))
    ∧ NoDup (List.map fi_name (fst acc'))
    ∧ (length media_files <= length (fst acc') <= S (length media_files))%nat).
  { intros ->. cbn. split_and!; [exact Hseen | exact Hnd | lia | lia]. }
  destruct (Xml.find (lit "file") clipitem) as [file_elem|];
    [|injection H as <-; apply Hsame; reflexivity].
  destruct (match Xml.get (lit "id") file_elem with
            | Some (c :: i) =>
                found ← find_file_by_id (c :: i); Ok (default file_elem found)
            | _ => Ok file_elem
            end) as [full|]; [|discriminate].
  cbn [mbind result_bind] in H.
  destruct (match Xml.find (lit "name") file_elem with
            | Some e => Some e
            | None => Xml.find (lit "name") full
            end) as [name_elem|];
    [|injection H as <-; apply Hsame; reflexivity].
  destruct (match Xml.find (lit "pathurl") file_elem with
            | Some e => Some e
            | None => Xml.find (lit "pathurl") full
            end) as [pathurl_elem|];
    [|injection H as <-; apply Hsame; reflexivity].
  destruct (Xml.text name_elem) as [name|];
    [|injection H as <-; apply Hsame; reflexivity].
  case_bool_decide as Hin; [injection H as <-; apply Hsame; reflexivity|].
  destruct (match Xml.truthy_text (Xml.find (lit "duration") full) with
            | Some d => if isdigit d then Some <$> int_of_str d else Ok None
            | None => Ok None
            end) as [source_duration|]; [|discriminate].
  cbn [mbind result_bind] in H. injection H as <-. cbn [fst snd].
  rewrite List.map_app. cbn [List.map].
  split_and!.
  - intros n. rewrite elem_of_union, elem_of_singleton, elem_of_app,
      list_elem_of_singleton, Hseen. tauto.
  - apply NoDup_app. split_and!; [exact Hnd | | apply NoDup_singleton].
    intros n Hn Hn'. apply list_elem_of_singleton in Hn'. subst n.
    apply Hin, Hseen, Hn.
  - rewrite length_app. cbn. lia.
  - rewrite length_app. cbn. lia.
Qed.

Lemma extract_loop_invariant find_file_by_id isdigit clipitems :
  forall acc acc',
  extract_loop find_file_by_id isdigit acc clipitems = Ok acc' ->
  (forall n, n ∈ snd acc <-> n ∈ List.map fi_name (fst acc)) ->
  NoDup (List.map fi_name (fst acc)) ->
  NoDup (List.map fi_name (fst acc'))
  ∧ (length (fst acc') <= length (fst acc) + length clipitems)%nat.
Proof.
  induction clipitems as [|c rest IH]; intros acc acc' H Hseen Hnd;
    cbn [extract_loop] in H.
  - injection H as <-. split; [exact Hnd | lia].
  - destruct (extract_step _ _ acc c) as [acc1|] eqn:E; [|discriminate].
    cbn [mbind result_bind] in H.
    destruct (extract_step_invariant _ _ _ _ _ E Hseen Hnd) as (S1 & N1 & L1).
    destruct (IH _ _ H S1 N1) as (N2 & L2).
    split; [exact N2|]. cbn [length]. lia.
Qed.

(** X28.  The media files extract_media_files returns have pairwise different
    names, whatever the template holds: a second clip item for a name
    already listed adds nothing.  There are at most as many entries as the
    template has clip items. *)
Theorem extract_media_files_names_are_distinct
    (find_file_by_id : str -> result (option Xml.element))
    (isdigit : str -> bool) (root : Xml.element) (files : list file_info) :
  extract_media_files find_file_by_id isdigit root = Ok files ->
  NoDup (List.map fi_name files)
  ∧ (length files <= length (Xml.findall_below (lit "clipitem") root))%nat.
Proof.
  unfold extract_media_files. intros H.
  destruct (extract_loop _ _ _ _) as [acc|] eqn:E; [|discriminate].
  cbn in H. injection H as <-.
  destruct (extract_loop_invariant _ _ _ _ _ E) as (N & L).
  - intros n. cbn. rewrite elem_of_empty. split; [contradiction|].
    intros Hn. apply elem_of_nil in Hn. exact Hn.
  - constructor.
  - split; [exact N | exact L].
Qed.

Lemma extract_media_files_names_are_distinct_witness :
  (List.map as_media_file
     <$> extract_media_files Scenario.no_media_file Scenario.ascii_isdigit
           Scenario.media_template)
  = Ok [mkMedia (Some (lit "A.mov")) (Some (lit "file-1"))
                (Some (lit "masterclip-1"));
        mkMedia (Some (lit "B.mov")) (Some (lit "file-2")) None]
  ∧ exists files,
      extract_media_files Scenario.no_media_file Scenario.ascii_isdigit
        Scenario.media_template = Ok files
      ∧ NoDup (List.map fi_name files)
      ∧ (length files <= 3)%nat.
Proof.
  split; [vm_compute; reflexivity|].
  destruct (extract_media_files Scenario.no_media_file Scenario.ascii_isdigit
              Scenario.media_template) as [files|] eqn:E;
    [|vm_compute in E; discriminate].
  exists files. split; [reflexivity|].
  apply (extract_media_files_names_are_distinct
           Scenario.no_media_file Scenario.ascii_isdigit
           Scenario.media_template files E).
Defined.
